(** * ask-starknet-bot: the Discord bridge, embedded and verified

    A shallow embedding of [packages/discord-bot/src]: the response chunker
    and the answer extraction of [commands/ask.ts] and
    [events/messageCreate.ts], the two ask flows, the interaction
    dispatcher ([events/interactionCreate.ts]), the command loader
    ([utils/commandLoader.ts]) and the lifecycle code of [index.ts].

    Conventions.
    - A JavaScript string is a [string]; each character stands for one
      UTF-16 code unit, so [String.length] is the [.length] of the source.
    - A JavaScript number is an integer ([nat] for sizes and indices, [Z]
      elsewhere); fractional values and NaN are not represented.
    - Calls that leave the program (Discord transport, queue manager, timers,
      logger, process) append an [Event] to the trace of the [World]; what
      such a call answers is read from an [Env], an arbitrary function of
      the position of the call in the trace. Theorems quantify over every
      [Env], that is over every behaviour of the collaborators. *)

From Stdlib Require Import String Ascii List Arith ZArith Bool Lia.
From Stdlib Require Import DecimalString.
Import ListNotations.

Local Open Scope string_scope.
Local Open Scope list_scope.

(* ================================================================= *)
(** ** JavaScript strings *)

Module JsString.

(** [s.slice(i, j)] for indices [0 <= i] and [0 <= j]: the code units from
    [min i len] up to [min j len], empty when [j <= i]. *)
Definition slice (s : string) (i j : nat) : string := substring i (j - i) s.

(** [s.slice(i)]: everything from index [i] on. *)
Definition slice_from (s : string) (i : nat) : string :=
  substring i (String.length s - i) s.

(** [parts.join('')]. *)
Definition join (parts : list string) : string :=
  fold_right String.append "" parts.

(** [s.startsWith(p)]. *)
Definition startsWith (p s : string) : bool := String.prefix p s.

(** [s.endsWith(p)]. *)
Definition endsWith (p s : string) : bool :=
  String.eqb (slice_from s (String.length s - String.length p)) p
  && Nat.leb (String.length p) (String.length s).

(** [s.includes(p)]. *)
Fixpoint includes (p s : string) : bool :=
  String.prefix p s ||
  match s with
  | EmptyString => false
  | String _ s' => includes p s'
  end.

End JsString.
Import JsString.

(* ================================================================= *)
(** ** The response chunker: [toChunks]

    <<
    function toChunks(text: string, size = 3800): string[] {
      const chunks: string[] = [];
      for (let i = 0; i < text.length; i += size) chunks.push(text.slice(i, i + size));
      return chunks;
    }
    >>
    The loop is not bounded by the source when [size] is [0]: the embedding
    carries fuel, one unit per iteration, and answers [None] when it runs
    out. *)

Fixpoint toChunks_loop (fuel : nat) (text : string) (size i : nat)
    (chunks : list string) : option (list string) :=
  match fuel with
  | 0 => None
  | S fuel' =>
      if Nat.ltb i (String.length text)
      then toChunks_loop fuel' text size (i + size)
             (chunks ++ [slice text i (i + size)])
      else Some chunks
  end.

(** [toChunks] with the default of its second parameter left open: the two
    copies of the function differ only there. The fuel covers one iteration
    per code unit and the final test. *)
Definition toChunks_default (default : nat) (text : string)
    (size : option nat) : option (list string) :=
  let size := match size with Some n => n | None => default end in
  toChunks_loop (S (String.length text)) text size 0 [].

(** [Math.ceil(a / b)] on naturals. *)
Definition ceil_div (a b : nat) : nat := (a + b - 1) / b.

(* ================================================================= *)
(** ** JavaScript values

    Objects and functions carry the address that gives them their identity;
    an object is its list of own properties. Primitives and functions have
    no properties here (prototype members such as [length] or [name] are not
    modelled). *)

#[warnings="-register-all"]
Inductive JsVal : Type :=
| VUndef
| VNull
| VBool (b : bool)
| VNum (z : Z)
| VStr (s : string)
| VObj (addr : nat) (props : list (string * JsVal))
| VFun (addr : nat).

Module Js.

(** [v === undefined || v === null]. *)
Definition nullish (v : JsVal) : bool :=
  match v with
  | VUndef | VNull => true
  | _ => false
  end.

(** [a ?? b]. *)
Definition coalesce (a b : JsVal) : JsVal := if nullish a then b else a.

(** [!!v]. *)
Definition truthy (v : JsVal) : bool :=
  match v with
  | VUndef | VNull => false
  | VBool b => b
  | VNum z => negb (Z.eqb z 0)
  | VStr s => negb (String.eqb s "")
  | VObj _ _ | VFun _ => true
  end.

(** [a || b]. *)
Definition or_else (a b : JsVal) : JsVal := if truthy a then a else b.

Fixpoint lookup (k : string) (props : list (string * JsVal)) : option JsVal :=
  match props with
  | [] => None
  | (k', v) :: rest => if String.eqb k k' then Some v else lookup k rest
  end.

(** [v?.k]; also [v.k] when [v] is known not to be nullish. *)
Definition opt_get (v : JsVal) (k : string) : JsVal :=
  match v with
  | VObj _ props =>
      match lookup k props with
      | Some x => x
      | None => VUndef
      end
  | _ => VUndef
  end.

(** [Object.keys(v)]. *)
Definition keys (v : JsVal) : list string :=
  match v with
  | VObj _ props => map fst props
  | _ => []
  end.

(** [typeof v === 'function']. *)
Definition is_function (v : JsVal) : bool :=
  match v with
  | VFun _ => true
  | _ => false
  end.

(** SameValueZero, the key equality of [Map]. *)
Definition same_value_zero (a b : JsVal) : bool :=
  match a, b with
  | VUndef, VUndef => true
  | VNull, VNull => true
  | VBool x, VBool y => Bool.eqb x y
  | VNum x, VNum y => Z.eqb x y
  | VStr x, VStr y => String.eqb x y
  | VObj x _, VObj y _ => Nat.eqb x y
  | VFun x, VFun y => Nat.eqb x y
  | _, _ => false
  end.

(** A [Map]: its entries in insertion order, keys pairwise different. *)
Definition JsMap : Type := list (JsVal * JsVal).

(** [m.get(k)]. *)
Fixpoint map_get (m : JsMap) (k : JsVal) : JsVal :=
  match m with
  | [] => VUndef
  | (k', v) :: rest => if same_value_zero k' k then v else map_get rest k
  end.

(** [m.set(k, v)]: the value of an existing key is replaced in place, a new
    key is appended. *)
Fixpoint map_set (m : JsMap) (k v : JsVal) : JsMap :=
  match m with
  | [] => [(k, v)]
  | (k', v') :: rest =>
      if same_value_zero k' k then (k', v) :: rest
      else (k', v') :: map_set rest k v
  end.

End Js.

(* ================================================================= *)
(** ** Answer extraction: [pickAnswer]

    <<
    function pickAnswer(result: any): string {
      return (
        result?.answer ?? result?.output ?? result?.message ?? result?.data ??
        'No answer received.'
      );
    }
    >> *)

Definition NO_ANSWER : string := "No answer received.".

Definition pickAnswer (result : JsVal) : JsVal :=
  Js.coalesce
    (Js.coalesce
       (Js.coalesce
          (Js.coalesce (Js.opt_get result "answer") (Js.opt_get result "output"))
          (Js.opt_get result "message"))
       (Js.opt_get result "data"))
    (VStr NO_ANSWER).

(** A field is populated when reading it gives neither [undefined] nor
    [null]: the test [??] makes. *)
Definition populated (result : JsVal) (field : string) : bool :=
  negb (Js.nullish (Js.opt_get result field)).

(* ================================================================= *)
(** ** Effects: events, world, environment *)

(** A thrown value: an [Error] with its [name] and [message]. *)
Record JsError : Type := mkError { err_name : string; err_message : string }.

Definition TypeError (message : string) : JsError := mkError "TypeError" message.

Inductive Level : Type := Info | Warn | Error.

Inductive Footer : Type :=
| FooterLatency (ms : Z)           (* `Latency ${ms}ms` *)
| FooterAskedBy (username : string). (* `Asked by @${username}` *)

(** What [new EmbedBuilder().setTitle(..).setDescription(..).setFooter(..)]
    holds. *)
Record Embed : Type := mkEmbed {
  embed_title : string;
  embed_description : string;
  embed_footer : Footer
}.

(** The options object handed to a send: [{ content, embeds, ephemeral }]. *)
Record Payload : Type := mkPayload {
  content : option string;
  embeds : list Embed;
  ephemeral : bool
}.

Definition text_payload (s : string) : Payload := mkPayload (Some s) [] false.
Definition ephemeral_payload (s : string) : Payload := mkPayload (Some s) [] true.
Definition embed_payload (e : Embed) : Payload := mkPayload None [e] false.

(** The argument of [queueManager.addJob]. *)
Record JobRequest : Type := mkJob {
  job_platform : string;
  job_userId : string;
  job_userName : string;
  job_message : string;
  job_messageId : string;
  job_timestamp : Z
}.

Definition Platform_DISCORD : string := "discord".

(** What [buildRedisConfig] returns: [{ host, port, password, username, tls }].
    [port] is the number [Number(..)] gives; [tls] is [{}] or absent. *)
Record RedisConfig : Type := mkRedisConfig {
  redis_host : string;
  redis_port : JsVal;
  redis_password : option string;
  redis_username : option string;
  redis_tls : bool
}.

(** The argument of [new BotQueueManager(..)]: in [index.ts] the object
    built around the Redis configuration, in the earlier copy of the file
    [process.env] itself. *)
Inductive QueueConfig : Type :=
| RedisQueueConfig (redis : RedisConfig)
| ProcessEnvConfig.

Inductive Event : Type :=
| EvLog (lvl : Level) (msg : string)
  (* the interaction's reply channel *)
| EvDeferReply
| EvReply (p : Payload)
| EvEditReply (p : Payload)
| EvFollowUp (p : Payload)
  (* message and channel of the mention flow *)
| EvMessageReply (p : Payload)
| EvChannelSend (p : Payload)
| EvSendTyping
| EvSetInterval (id : nat) (ms : Z)
| EvClearInterval (id : nat)
  (* the queue manager *)
| EvAddJob (job : JobRequest)
| EvWaitForJobCompletion (id : JsVal) (timeoutMs : Z)
| EvNewBotQueueManager (config : QueueConfig)
| EvStartWorker
| EvStopWorker
  (* loaders *)
| EvReaddir (dir : string)
| EvImport (file : string)
| EvCallToJSON (addr : nat)
| EvClientOn (once : bool) (event : JsVal)
  (* client and process *)
| EvProcessOn (once : bool) (event : string)
| EvLogin (token : string)
| EvDestroy
| EvExit (code : Z).

(** What a call answers. *)
Inductive Outcome : Type :=
| Returns (v : JsVal)
| Throws (e : JsError).

Record QueueManager : Type := mkQueueManager {
  (* typeof qm.stopWorker === 'function' *)
  stopWorker_is_function : bool
}.

(** The mutable state the handlers see: the trace of calls made so far, the
    reply latch of the interaction being handled ([interaction.deferred],
    [interaction.replied]), the interval timers that are active, and the
    fields the program hangs on the client. *)
Record World : Type := mkWorld {
  trace : list Event;
  deferred : bool;
  replied : bool;
  timers : list nat;
  commands : option Js.JsMap;
  queueManager : option QueueManager;
  isShuttingDown : bool
}.

Definition with_trace (w : World) (t : list Event) : World :=
  mkWorld t (deferred w) (replied w) (timers w) (commands w) (queueManager w)
    (isShuttingDown w).
Definition with_deferred (w : World) (b : bool) : World :=
  mkWorld (trace w) b (replied w) (timers w) (commands w) (queueManager w)
    (isShuttingDown w).
Definition with_replied (w : World) (b : bool) : World :=
  mkWorld (trace w) (deferred w) b (timers w) (commands w) (queueManager w)
    (isShuttingDown w).
Definition with_timers (w : World) (ts : list nat) : World :=
  mkWorld (trace w) (deferred w) (replied w) ts (commands w) (queueManager w)
    (isShuttingDown w).
Definition with_commands (w : World) (c : option Js.JsMap) : World :=
  mkWorld (trace w) (deferred w) (replied w) (timers w) c (queueManager w)
    (isShuttingDown w).
Definition with_queueManager (w : World) (q : option QueueManager) : World :=
  mkWorld (trace w) (deferred w) (replied w) (timers w) (commands w) q
    (isShuttingDown w).

(** A URL as [new URL(s)] parses it: the members [buildRedisConfig] reads. *)
Record Url : Type := mkUrl {
  url_protocol : string;
  url_hostname : string;
  url_port : string;
  url_username : string;
  url_password : string
}.

(** What the platform and the libraries decide: the variables of
    [process.env] the handlers do not read themselves, the URL parser, the
    conversion [Number(s)] of a string, and the error the embed builder of
    discord.js throws when a string it is given fails its validation. *)
Record Host : Type := mkHost {
  getenv : string -> option string;
  (* new URL(s); None: the constructor throws *)
  URL_of : string -> option Url;
  Number_of : string -> JsVal;
  embed_error : JsError
}.

(** The collaborators. [answer_of n] is what the call recorded at position
    [n] of the trace answers, [readdir_of n] the same for a directory
    listing, [clock n] what [Date.now()] reads when the trace has [n]
    entries; the rest is the process environment. *)
Record Env : Type := mkEnv {
  answer_of : nat -> Outcome;
  readdir_of : nat -> JsError + list string;
  clock : nat -> Z;
  (* process.env.ASK_TIMEOUT_MS, as the number it reads as *)
  ASK_TIMEOUT_MS : option Z;
  (* process.env.DISCORD_TOKEN *)
  DISCORD_TOKEN : option string;
  (* the queue manager that new BotQueueManager(..) builds *)
  new_BotQueueManager : QueueManager;
  host : Host
}.

(** How a computation ends: it returns, it throws, the process exits
    ([process.exit]), or it never returns. *)
Inductive Res (A : Type) : Type :=
| Ok (a : A)
| Throw (e : JsError)
| Exited (code : Z)
| Hang.
Arguments Ok {A} a.
Arguments Throw {A} e.
Arguments Exited {A} code.
Arguments Hang {A}.

Definition M (A : Type) : Type := Env -> World -> Res A * World.

Definition ret {A} (a : A) : M A := fun _ w => (Ok a, w).

Definition bind {A B} (m : M A) (k : A -> M B) : M B :=
  fun env w =>
    match m env w with
    | (Ok a, w') => k a env w'
    | (Throw e, w') => (Throw e, w')
    | (Exited c, w') => (Exited c, w')
    | (Hang, w') => (Hang, w')
    end.

Declare Scope js_scope.
Delimit Scope js_scope with js.
Notation "x <- m ;; k" := (bind m (fun x => k))
  (at level 100, m at next level, right associativity) : js_scope.
Notation "m ;; k" := (bind m (fun _ => k))
  (at level 100, right associativity) : js_scope.
Local Open Scope js_scope.

Definition throw {A} (e : JsError) : M A := fun _ w => (Throw e, w).
Definition hang {A} : M A := fun _ w => (Hang, w).

(** [try { m } catch (err) { h err }]. *)
Definition try_catch {A} (m : M A) (h : JsError -> M A) : M A :=
  fun env w =>
    match m env w with
    | (Throw e, w') => h e env w'
    | r => r
    end.

(** [try { m } finally { f }]: [f] runs when [m] returns and when it throws;
    what [f] throws replaces the result of [m]. *)
Definition try_finally {A} (m : M A) (f : M unit) : M A :=
  fun env w =>
    match m env w with
    | (Ok a, w') =>
        match f env w' with
        | (Ok _, w'') => (Ok a, w'')
        | (Throw e, w'') => (Throw e, w'')
        | (Exited c, w'') => (Exited c, w'')
        | (Hang, w'') => (Hang, w'')
        end
    | (Throw e, w') =>
        match f env w' with
        | (Ok _, w'') => (Throw e, w'')
        | (Throw e', w'') => (Throw e', w'')
        | (Exited c, w'') => (Exited c, w'')
        | (Hang, w'') => (Hang, w'')
        end
    | r => r
    end.

(** [for (const x of xs) await f(x)]. *)
Fixpoint for_each {A} (xs : list A) (f : A -> M unit) : M unit :=
  match xs with
  | [] => ret tt
  | x :: rest => f x ;; for_each rest f
  end.

Definition get_world : M World := fun _ w => (Ok w, w).
Definition get_env : M Env := fun env w => (Ok env, w).
Definition put_world (w : World) : M unit := fun _ _ => (Ok tt, w).

(** A call to a collaborator: recorded, then answered by the environment. *)
Definition call (ev : Event) : M JsVal :=
  fun env w =>
    let w' := with_trace w (trace w ++ [ev]) in
    match answer_of env (length (trace w)) with
    | Returns v => (Ok v, w')
    | Throws e => (Throw e, w')
    end.

(** [log.info], [log.warn], [log.error]: recorded; the logger does not
    throw. *)
Definition log (lvl : Level) (msg : string) : M unit :=
  fun _ w => (Ok tt, with_trace w (trace w ++ [EvLog lvl msg])).

(** [Date.now()]. *)
Definition Date_now : M Z := fun env w => (Ok (clock env (length (trace w))), w).

(** [process.exit(code)]. *)
Definition process_exit {A} (code : Z) : M A :=
  fun _ w => (Exited code, with_trace w (trace w ++ [EvExit code])).

(** [v.k] where [v] may be nullish. *)
Definition get_strict (v : JsVal) (k : string) : M JsVal :=
  if Js.nullish v
  then throw (TypeError ("Cannot read properties of undefined (reading '" ++ k ++ "')"))
  else ret (Js.opt_get v k).

(* ----------------------------------------------------------------- *)
(** *** The reply channel of an interaction

    The transport may refuse any call (the environment answers [Throws]);
    a call it accepts sets the latch the way the transport does:
    [deferReply] sets [deferred]; [reply], [editReply] and [followUp] set
    [replied]. *)

Definition set_deferred : M unit := fun _ w => (Ok tt, with_deferred w true).
Definition set_replied : M unit := fun _ w => (Ok tt, with_replied w true).

Definition deferReply : M unit := call EvDeferReply ;; set_deferred.
Definition reply (p : Payload) : M unit := call (EvReply p) ;; set_replied.
Definition editReply (p : Payload) : M unit := call (EvEditReply p) ;; set_replied.
Definition followUp (p : Payload) : M unit := call (EvFollowUp p) ;; set_replied.

(** [interaction.deferred || interaction.replied]. *)
Definition latch (w : World) : bool := deferred w || replied w.

(** The read-only part of a [ChatInputCommandInteraction]. *)
Record Interaction : Type := mkInteraction {
  isChatInputCommand : bool;
  commandName : string;
  (* the value of the option 'question', when the option was given *)
  option_question : option string;
  interaction_id : string;
  user_id : string;
  user_username : string;
  createdTimestamp : Z
}.

(** [interaction.options.get(name, true).value]: a required option that is
    missing throws. *)
Definition options_get_required (i : Interaction) : M string :=
  match option_question i with
  | Some q => ret q
  | None => throw (TypeError "Required option question not found.")
  end.

(* ================================================================= *)
(** ** The slash command: [commands/ask.ts] *)

Definition DISPLAY_CEILING : nat := 4096.

(** [Number(process.env.ASK_TIMEOUT_MS ?? 60000)]. *)
Definition timeoutMs_of (env : Env) : Z :=
  match ASK_TIMEOUT_MS env with
  | Some n => n
  | None => 60000%Z
  end.

(** The answer where the source uses it as a string ([answer.length],
    [answer.slice]): a value that is no string has no [slice] to call.
    (Arrays, which carry both members, are not modelled.) *)
Definition as_text (answer : JsVal) : M string :=
  match answer with
  | VStr s => ret s
  | _ => throw (TypeError "answer.slice is not a function")
  end.

(** [lo <= s.length <= hi]. *)
Definition valid_length (lo hi : nat) (s : string) : bool :=
  Nat.leb lo (String.length s) && Nat.leb (String.length s) hi.

(** The text [setFooter] is given is valid: [`Latency ${n}ms`] always is (a
    number prints in a few code units), [`Asked by @${username}`] when it
    has at most 2048 code units. *)
Definition footer_valid (footer : Footer) : bool :=
  match footer with
  | FooterLatency _ => true
  | FooterAskedBy username => valid_length 1 2048 ("Asked by @" ++ username)
  end.

(** [new EmbedBuilder().setTitle(title).setDescription(description)
      .setFooter({ text })]: each setter of discord.js validates the string
    it is given (a title of 1 to 256 code units, a description of 1 to 4096,
    a footer text of 1 to 2048) and throws when the validation fails. *)
Definition EmbedBuilder (title description : string) (footer : Footer) : M Embed :=
  env <- get_env ;;
  if valid_length 1 256 title
     && valid_length 1 4096 description
     && footer_valid footer
  then ret (mkEmbed title description footer)
  else throw (embed_error (host env)).

(** [for (const chunk of toChunks(remaining)) await send({ content: chunk })];
    a chunking that does not return leaves the flow hanging. *)
Definition send_chunks (chunks : option (list string))
    (send : Payload -> M unit) : M unit :=
  match chunks with
  | Some cs => for_each cs (fun chunk => send (text_payload chunk))
  | None => hang
  end.

Module Ask.

(** [function toChunks(text: string, size = 3800)]. *)
Definition toChunks (text : string) (size : option nat) : option (list string) :=
  toChunks_default 3800 text size.

(** The message the catch block picks:
    [err?.message?.includes('timed out') || err?.name === 'TimeoutError']. *)
Definition error_message (err : JsError) : string :=
  if includes "timed out" (err_message err)
     || String.eqb (err_name err) "TimeoutError"
  then "Request timed out. Try again."
  else "Error while processing the question.".

(** The end of the [try] block: the embed is built (the builder throws on
    an answer that is the empty string) and edited into the deferred reply,
    the overflow follows chunk by chunk. *)
Definition deliver (interaction : Interaction) (text : string) : M unit :=
  now <- Date_now ;;
  embed <- EmbedBuilder "Answer"
             (if Nat.leb (String.length text) DISPLAY_CEILING
              then text else slice text 0 DISPLAY_CEILING)
             (FooterLatency (now - createdTimestamp interaction)) ;;
  if Nat.leb (String.length text) DISPLAY_CEILING
  then editReply (embed_payload embed)
  else
    editReply (embed_payload embed) ;;
    let remaining := slice_from text DISPLAY_CEILING in
    send_chunks (toChunks remaining None) followUp.

(** The body of the [try] block. *)
Definition execute_body (interaction : Interaction) : M unit :=
  w <- get_world ;;
  match queueManager w with
  | None => throw (mkError "Error" "Queue manager unavailable")
  | Some _ =>
      question <- options_get_required interaction ;;
      deferReply ;;
      env <- get_env ;;
      let timeoutMs := timeoutMs_of env in
      timestamp <- Date_now ;;
      job <- call (EvAddJob
               (mkJob Platform_DISCORD (user_id interaction)
                  (user_username interaction) question
                  (interaction_id interaction) timestamp)) ;;
      id <- get_strict job "id" ;;
      result <- call (EvWaitForJobCompletion id timeoutMs) ;;
      let answer := pickAnswer result in
      text <- as_text answer ;;
      deliver interaction text
  end.

(** The [catch] block. *)
Definition execute_catch (err : JsError) : M unit :=
  log Error "Ask command failed" ;;
  let message := error_message err in
  w <- get_world ;;
  if deferred w || replied w
  then editReply (text_payload message)
  else reply (ephemeral_payload message).

(** [askCommand.execute]. *)
Definition execute (interaction : Interaction) : M unit :=
  try_catch (execute_body interaction) execute_catch.

End Ask.

(* ================================================================= *)
(** ** The mention flow: [events/messageCreate.ts] *)

(** What the handler reads of a [Message] and of its client. *)
Record Message : Type := mkMessage {
  author_bot : bool;
  author_id : string;
  author_username : string;
  message_content : string;
  message_id : string;
  (* the ids in message.mentions.users *)
  mentions_users : list string;
  (* client.user?.id *)
  client_user : option string;
  (* typeof channel.send === 'function' *)
  channel_has_send : bool
}.

(** [s.replace(new RegExp(`<@!?${id}>`, 'g'), '')] for an id of digits, as
    the ids of Discord are: left to right, every [<@id>] and [<@!id>] is
    dropped. [skip] counts the code units of a match still to drop. The id
    goes into the pattern as it is, so this is what the code does only for
    an id without characters the pattern language gives a meaning to;
    [all_digits] below is the condition the properties of this function
    are stated under. *)
Fixpoint strip_mentions_from (id : string) (skip : nat) (s : string) : string :=
  match s with
  | EmptyString => EmptyString
  | String c rest =>
      match skip with
      | S k => strip_mentions_from id k rest
      | 0 =>
          if String.prefix ("<@" ++ id ++ ">") s
          then strip_mentions_from id (String.length id + 2) rest
          else if String.prefix ("<@!" ++ id ++ ">") s
          then strip_mentions_from id (String.length id + 3) rest
          else String c (strip_mentions_from id 0 rest)
      end
  end.

Definition strip_mentions (id s : string) : string := strip_mentions_from id 0 s.

Definition is_digit (c : ascii) : bool :=
  let n := nat_of_ascii c in Nat.leb 48 n && Nat.leb n 57.

(** The id is a string of decimal digits. *)
Fixpoint all_digits (s : string) : bool :=
  match s with
  | EmptyString => true
  | String c rest => is_digit c && all_digits rest
  end.

(** White space as [trim] sees it, among the 8-bit code units. *)
Definition is_space (c : ascii) : bool :=
  let n := nat_of_ascii c in
  (Nat.leb 9 n && Nat.leb n 13) || Nat.eqb n 32 || Nat.eqb n 160.

Fixpoint trim_start (s : string) : string :=
  match s with
  | EmptyString => EmptyString
  | String c rest => if is_space c then trim_start rest else s
  end.

Fixpoint trim_end (s : string) : string :=
  match s with
  | EmptyString => EmptyString
  | String c rest =>
      match trim_end rest with
      | EmptyString => if is_space c then EmptyString else String c EmptyString
      | kept => String c kept
      end
  end.

(** [s.trim()]. *)
Definition trim (s : string) : string := trim_end (trim_start s).

Definition message_reply (p : Payload) : M unit := call (EvMessageReply p) ;; ret tt.
Definition channel_send (p : Payload) : M unit := call (EvChannelSend p) ;; ret tt.
Definition sendTyping : M unit := call EvSendTyping ;; ret tt.

(** A timer id no active timer has. *)
Definition fresh_timer (active : list nat) : nat := S (list_max active).

(** [setInterval(callback, ms)]: a new recurring timer becomes active. The
    ticks of an active timer are not part of the trace. *)
Definition setInterval (ms : Z) : M nat :=
  fun _ w =>
    let id := fresh_timer (timers w) in
    (Ok id,
     with_timers (with_trace w (trace w ++ [EvSetInterval id ms]))
       (id :: timers w)).

(** [clearInterval(id)]. *)
Definition clearInterval (id : nat) : M unit :=
  fun _ w =>
    (Ok tt,
     with_timers (with_trace w (trace w ++ [EvClearInterval id]))
       (remove Nat.eq_dec id (timers w))).

Module MessageCreate.

(** [function toChunks(text: string, size = 1900)]. *)
Definition toChunks (text : string) (size : option nat) : option (list string) :=
  toChunks_default 1900 text size.

(** The end of the inner [try] block: the embed is built (the builder
    throws on an answer that is the empty string and on a footer text that
    is too long) and goes out as a reply to the message, the overflow
    follows in the channel chunk by chunk. *)
Definition deliver (message : Message) (text : string) : M unit :=
  embed <- EmbedBuilder "Answer" (slice text 0 DISPLAY_CEILING)
             (FooterAskedBy (author_username message)) ;;
  message_reply (embed_payload embed) ;;
  if Nat.ltb DISPLAY_CEILING (String.length text)
  then
    let remaining := slice_from text DISPLAY_CEILING in
    send_chunks (toChunks remaining None) channel_send
  else ret tt.

(** The inner [try] block: submit, await, deliver. *)
Definition ask_and_deliver (message : Message) (question : string) : M unit :=
  env <- get_env ;;
  let timeoutMs := timeoutMs_of env in
  timestamp <- Date_now ;;
  job <- call (EvAddJob
           (mkJob Platform_DISCORD (author_id message)
              (author_username message) question (message_id message)
              timestamp)) ;;
  id <- get_strict job "id" ;;
  result <- call (EvWaitForJobCompletion id timeoutMs) ;;
  let answer := pickAnswer result in
  text <- as_text answer ;;
  deliver message text.

(** From the typing signal on: the heartbeat and the guarded await. *)
Definition typing_and_ask (message : Message) (question : string) : M unit :=
  sendTyping ;;
  typer <- setInterval 8000 ;;
  try_finally (ask_and_deliver message question) (clearInterval typer).

(** The outer [try] block. *)
Definition execute_body (message : Message) : M unit :=
  if author_bot message then ret tt
  else
    match client_user message with
    | None => ret tt
    | Some me =>
        if negb (existsb (String.eqb me) (mentions_users message)) then ret tt
        else
          let question := trim (strip_mentions me (message_content message)) in
          if String.eqb question ""
          then message_reply (text_payload "Provide a question after mentioning me.")
          else
            w <- get_world ;;
            match queueManager w with
            | None =>
                message_reply (text_payload "Queue is unavailable. Use /ask instead.")
            | Some _ =>
                if negb (channel_has_send message)
                then message_reply (text_payload "I can only respond in text channels.")
                else typing_and_ask message question
            end
    end.

(** The outer [catch] block; what its own reply throws is swallowed. *)
Definition execute_catch (error : JsError) : M unit :=
  log Error "messageCreate handler failed" ;;
  try_catch
    (message_reply (text_payload "Error processing your question. Try /ask."))
    (fun _ => ret tt).

(** [messageCreateEvent.execute]. *)
Definition execute (message : Message) : M unit :=
  try_catch (execute_body message) execute_catch.

End MessageCreate.

(* ================================================================= *)
(** ** The dispatcher: [events/interactionCreate.ts] *)

Module InteractionCreate.

Definition ERROR_REPLY : string := "There was an error executing this command.".
Definition UNKNOWN_REPLY : string := "Unknown command.".

(** [commands?.get(interaction.commandName)]. *)
Definition lookup_command (w : World) (interaction : Interaction) : JsVal :=
  match commands w with
  | Some m => Js.map_get m (VStr (commandName interaction))
  | None => VUndef
  end.

(** [command.execute(interaction)]: [handlers] gives the function stored at
    an address its behaviour; a member that is no function cannot be
    called. *)
Definition invoke (handlers : nat -> Interaction -> M unit) (command : JsVal)
    (interaction : Interaction) : M unit :=
  match Js.opt_get command "execute" with
  | VFun addr => handlers addr interaction
  | _ => throw (TypeError "command.execute is not a function")
  end.

(** The branch taken when no command is registered under the name. *)
Definition unknown_command : M unit :=
  log Warn "Command not found" ;;
  w <- get_world ;;
  if negb (replied w) && negb (deferred w)
  then reply (ephemeral_payload UNKNOWN_REPLY)
  else ret tt.

(** The [catch] block around the handler. *)
Definition execute_catch (error : JsError) : M unit :=
  log Error "Command error" ;;
  w <- get_world ;;
  if deferred w || replied w
  then followUp (ephemeral_payload ERROR_REPLY)
  else reply (ephemeral_payload ERROR_REPLY).

(** [interactionCreateEvent.execute]. *)
Definition execute (handlers : nat -> Interaction -> M unit)
    (interaction : Interaction) : M unit :=
  if negb (isChatInputCommand interaction) then ret tt
  else
    started <- Date_now ;;
    w <- get_world ;;
    let command := lookup_command w interaction in
    if negb (Js.truthy command) then unknown_command
    else
      try_catch
        (invoke handlers command interaction ;;
         finished <- Date_now ;;
         log Info "Command executed")
        execute_catch.

End InteractionCreate.

(* ================================================================= *)
(** ** The loaders: [utils/commandLoader.ts], [utils/eventLoader.ts] *)

Definition lower_ascii (c : ascii) : ascii :=
  let n := nat_of_ascii c in
  if Nat.leb 65 n && Nat.leb n 90 then ascii_of_nat (n + 32) else c.

Fixpoint lower (s : string) : string :=
  match s with
  | EmptyString => EmptyString
  | String c rest => String (lower_ascii c) (lower rest)
  end.

(** The file filter both loaders apply:
    [/\.(ts|js|mjs|cjs)$/.test(f) && !f.endsWith('.d.ts') &&
     !f.endsWith('.map') && !f.startsWith('_')]. *)
Definition is_module_file (f : string) : bool :=
  (endsWith ".ts" f || endsWith ".js" f || endsWith ".mjs" f || endsWith ".cjs" f)
  && negb (endsWith ".d.ts" f)
  && negb (endsWith ".map" f)
  && negb (startsWith "_" f).

(** [mod && (mod.default || mod[alt] || mod[Object.keys(mod).find(k => suffix.test(k))!])]
    with [suffix] the pattern [/Command$/i] or [/Event$/i]; a [find] that
    finds nothing gives [undefined], which indexes the member of that
    name. *)
Definition resolve_export (alt suffix : string) (exports : JsVal) : JsVal :=
  if negb (Js.truthy exports) then exports
  else
    Js.or_else
      (Js.or_else (Js.opt_get exports "default") (Js.opt_get exports alt))
      (Js.opt_get exports
         match find (fun k => endsWith suffix (lower k)) (Js.keys exports) with
         | Some k => k
         | None => "undefined"
         end).

Module CommandLoader.

Definition commandsPath : string := "commands".

(** [candidate.data.name ?? candidate.data?.toJSON?.().name]. *)
Definition command_name (data : JsVal) : M JsVal :=
  let name := Js.opt_get data "name" in
  if negb (Js.nullish name) then ret name
  else
    let toJSON := Js.opt_get data "toJSON" in
    if Js.nullish toJSON then ret VUndef
    else
      match toJSON with
      | VFun addr =>
          json <- call (EvCallToJSON addr) ;;
          get_strict json "name"
      | _ => throw (TypeError "candidate.data?.toJSON is not a function")
      end.

(** [client.commands.set(name, candidate)]. *)
Definition commands_set (name candidate : JsVal) : M unit :=
  fun _ w =>
    match commands w with
    | Some m => (Ok tt, with_commands w (Some (Js.map_set m name candidate)))
    | None =>
        (Throw (TypeError "Cannot read properties of undefined (reading 'set')"), w)
    end.

(** One turn of the loop over the command files. *)
Definition load_file (file : string) : M unit :=
  try_catch
    (exports <- call (EvImport (commandsPath ++ "/" ++ file)) ;;
     let candidate := resolve_export "command" "command" exports in
     if Js.truthy candidate
        && Js.truthy (Js.opt_get candidate "data")
        && Js.is_function (Js.opt_get candidate "execute")
     then
       name <- command_name (Js.opt_get candidate "data") ;;
       if negb (Js.truthy name)
       then log Warn "Command missing name"
       else
         commands_set name candidate ;;
         log Info "Loaded command"
     else log Warn "Invalid command module")
    (fun err => log Error "Failed to load command").

(** [fs.readdir(dir)]. *)
Definition readdir (dir : string) : M (list string) :=
  fun env w =>
    let w' := with_trace w (trace w ++ [EvReaddir dir]) in
    match readdir_of env (length (trace w)) with
    | inr files => (Ok files, w')
    | inl e => (Throw e, w')
    end.

(** [loadCommands]. *)
Definition loadCommands : M unit :=
  w <- get_world ;;
  (match commands w with
   | Some _ => ret tt
   | None => put_world (with_commands w (Some []))
   end) ;;
  listing <- try_catch
               (files <- readdir commandsPath ;; ret (Some files))
               (fun err =>
                  log Error "Failed to read commands directory" ;; ret None) ;;
  match listing with
  | None => ret tt
  | Some files => for_each (filter is_module_file files) load_file
  end.

End CommandLoader.

Module EventLoader.

Definition eventsPath : string := "events".

(** One turn of the loop over the event files. *)
Definition load_file (file : string) : M unit :=
  try_catch
    (exports <- call (EvImport (eventsPath ++ "/" ++ file)) ;;
     let event := resolve_export "event" "event" exports in
     if negb (Js.truthy event)
        || negb (Js.is_function (Js.opt_get event "execute"))
        || negb (Js.truthy (Js.opt_get event "name"))
     then log Warn "Invalid event module"
     else
       call (EvClientOn (Js.truthy (Js.opt_get event "once"))
               (Js.opt_get event "name")) ;;
       log Info "Loaded event")
    (fun err => log Error "Failed to load event").

(** [loadEvents]. *)
Definition loadEvents : M unit :=
  listing <- try_catch
               (files <- CommandLoader.readdir eventsPath ;; ret (Some files))
               (fun err =>
                  log Error "Failed to read events directory" ;; ret None) ;;
  match listing with
  | None => ret tt
  | Some files => for_each (filter is_module_file files) load_file
  end.

End EventLoader.

(* ================================================================= *)
(** ** The lifecycle: [index.ts] *)

(** A registration or a log line: recorded, never refused. *)
Definition emit (ev : Event) : M unit :=
  fun _ w => (Ok tt, with_trace w (trace w ++ [ev])).

Definition set_queueManager (q : QueueManager) : M unit :=
  fun _ w => (Ok tt, with_queueManager w (Some q)).

Module Lifecycle.

(** What triggers [shutdown], as [main] registers it. *)
Inductive Trigger : Type := SIGINT | SIGTERM | UncaughtException.

(** The code each registration passes: [shutdown(client, 0)] for the two
    signals, [shutdown(client, 1)] for an uncaught exception. *)
Definition code_of (t : Trigger) : Z :=
  match t with
  | SIGINT | SIGTERM => 0%Z
  | UncaughtException => 1%Z
  end.

(** [s || undefined] for a variable of [process.env] or a member of a URL:
    the string when it is set and not empty. *)
Definition non_empty (s : option string) : option string :=
  match s with
  | Some (String _ _ as v) => Some v
  | _ => None
  end.

(** [Number(s || 6379)]. *)
Definition port_of (env : Env) (s : option string) : JsVal :=
  match non_empty s with
  | Some p => Number_of (host env) p
  | None => VNum 6379%Z
  end.

(** [buildRedisConfig]: from REDIS_URL when it is set, which [new URL]
    parses or throws on; from the single variables otherwise. *)
Definition buildRedisConfig : M RedisConfig :=
  env <- get_env ;;
  let variable := getenv (host env) in
  match non_empty (variable "REDIS_URL") with
  | Some url =>
      match URL_of (host env) url with
      | None => throw (TypeError "Invalid URL")
      | Some u =>
          ret (mkRedisConfig
                 (url_hostname u)
                 (port_of env (Some (url_port u)))
                 (non_empty (Some (url_password u)))
                 (non_empty (Some (url_username u)))
                 (String.eqb (url_protocol u) "rediss:"))
      end
  | None =>
      ret (mkRedisConfig
             match non_empty (variable "REDIS_HOST") with
             | Some h => h
             | None =>
                 match variable "DOCKER" with
                 | Some d => if String.eqb d "true" then "redis" else "127.0.0.1"
                 | None => "127.0.0.1"
                 end
             end
             (port_of env (variable "REDIS_PORT"))
             (non_empty (variable "REDIS_PASSWORD"))
             (non_empty (variable "REDIS_USERNAME"))
             match variable "REDIS_TLS" with
             | Some t => String.eqb t "true"
             | None => false
             end)
  end.

(** The block "Queue + worker" of [main]: one [try] around the building of
    the configuration, the construction of the queue manager and the start
    of its worker; the manager is attached to the client when all three have
    returned. ([parseArgList] and [parseEnvMap], which fill the [mcpServer]
    part of the configuration, return for every string: their [JSON.parse]
    sits in a [try] of its own. What they compute is not part of
    [QueueConfig].) *)
Definition queue_block (config : M QueueConfig) : M unit :=
  try_catch
    (queueConfig <- config ;;
     call (EvNewBotQueueManager queueConfig) ;;
     env <- get_env ;;
     let queueManager := new_BotQueueManager env in
     call EvStartWorker ;;
     set_queueManager queueManager ;;
     log Info "Queue worker started")
    (fun err => log Error "Failed to start queue worker").

(** [main], from the token check to the login, for the configuration
    [config] hands to the queue manager. *)
Definition main_with (config : M QueueConfig) : M unit :=
  env <- get_env ;;
  match DISCORD_TOKEN env with
  | None | Some EmptyString =>
      emit (EvLog Error "Missing DISCORD_TOKEN in environment") ;;
      process_exit 1
  | Some token =>
      (* Queue + worker *)
      queue_block config ;;
      (* Commands and events *)
      try_catch
        (CommandLoader.loadCommands ;; log Info "Commands loaded")
        (fun err => log Error "Failed to load commands") ;;
      try_catch
        (EventLoader.loadEvents ;; log Info "Events loaded")
        (fun err => log Error "Failed to load events") ;;
      (* Discord lifecycle *)
      emit (EvClientOn true (VStr "ready")) ;;
      emit (EvProcessOn false "unhandledRejection") ;;
      emit (EvProcessOn false "uncaughtException") ;;
      emit (EvProcessOn true "SIGINT") ;;
      emit (EvProcessOn true "SIGTERM") ;;
      (* Login *)
      try_catch
        (call (EvLogin token) ;; ret tt)
        (fun err => log Error "Discord login failed" ;; process_exit 1)
  end.

(** The configuration [main] of [index.ts] builds. *)
Definition queueConfig : M QueueConfig :=
  redis <- buildRedisConfig ;; ret (RedisQueueConfig redis).

(** [main] of [index.ts]. *)
Definition main : M unit := main_with queueConfig.

(** [main] of the earlier copy of the file ([unnamed/part_000]), which hands
    [process.env] to the queue manager. *)
Definition main_000 : M unit := main_with (ret ProcessEnvConfig).

(** [main().catch(...)]. *)
Definition start : M unit :=
  try_catch main (fun err => log Error "Startup failure" ;; process_exit 1).

(** *** [shutdown] as the event loop runs it

    [shutdown] suspends at its two [await]s; between them other callbacks
    run, among them further calls of [shutdown]. A call is cut at its
    awaits into the pieces below; a suspended call is a [Task]. *)

Inductive Task : Type :=
| AwaitStopWorker (code : Z)   (* suspended at [await qm.stopWorker()] *)
| AwaitDestroy (code : Z).     (* suspended at [await client.destroy()] *)

(** The process: its world, the suspended calls, the code [process.exit]
    was called with, the signals whose [process.once] listener has run and
    is thereby removed, and the signal that ended the process when one
    arrived that had no listener left. *)
Record Proc : Type := mkProc {
  world : World;
  pending : list Task;
  exit_code : option Z;
  removed : list Trigger;
  killed : option Trigger
}.

Definition with_world (p : Proc) (w : World) : Proc :=
  mkProc w (pending p) (exit_code p) (removed p) (killed p).

Definition with_pending (p : Proc) (ts : list Task) : Proc :=
  mkProc (world p) ts (exit_code p) (removed p) (killed p).

Definition record_event (ev : Event) (p : Proc) : Proc :=
  with_world p (with_trace (world p) (trace (world p) ++ [ev])).

Definition suspend (t : Task) (p : Proc) : Proc :=
  with_pending p (pending p ++ [t]).

Definition set_isShuttingDown (p : Proc) : Proc :=
  let w := world p in
  with_world p
    (mkWorld (trace w) (deferred w) (replied w) (timers w) (commands w)
       (queueManager w) true).

(** The second [try]: [client.destroy()] is called and awaited. *)
Definition shutdown_destroy (code : Z) (p : Proc) : Proc :=
  suspend (AwaitDestroy code) (record_event EvDestroy p).

(** From the entry of [shutdown] to its first [await]. *)
Definition shutdown (code : Z) (p : Proc) : Proc :=
  if isShuttingDown (world p) then p
  else
    let p := set_isShuttingDown p in
    let p := record_event (EvLog Info "Shutting down") p in
    match queueManager (world p) with
    | Some qm =>
        if stopWorker_is_function qm
        then suspend (AwaitStopWorker code) (record_event EvStopWorker p)
        else shutdown_destroy code p
    | None => shutdown_destroy code p
    end.

(** From an [await] that settles ([ok]: it fulfilled) to the next one, or
    to [process.exit(code)]. *)
Definition resume (t : Task) (ok : bool) (p : Proc) : Proc :=
  match t with
  | AwaitStopWorker code =>
      let p :=
        record_event
          (if ok then EvLog Info "Queue worker stopped"
           else EvLog Error "Error while stopping queue worker") p in
      shutdown_destroy code p
  | AwaitDestroy code =>
      let p :=
        record_event
          (if ok then EvLog Info "Discord client destroyed"
           else EvLog Error "Error while destroying Discord client") p in
      let p := record_event (EvExit code) p in
      mkProc (world p) (pending p) (Some code) (removed p) (killed p)
  end.

(** What the event loop runs next: a trigger fires its listener, or the
    await of the [n]-th suspended call settles. *)
Inductive Label : Type :=
| Fire (t : Trigger)
| Settle (n : nat) (ok : bool).

Fixpoint take_task (n : nat) (ts : list Task) : option (Task * list Task) :=
  match ts, n with
  | [], _ => None
  | t :: rest, 0 => Some (t, rest)
  | t :: rest, S k =>
      match take_task k rest with
      | Some (x, rest') => Some (x, t :: rest')
      | None => None
      end
  end.

(** The listener [main] registers for a trigger. *)
Definition listener (t : Trigger) (p : Proc) : Proc :=
  match t with
  | UncaughtException =>
      shutdown 1 (record_event (EvLog Error "Uncaught exception") p)
  | SIGINT | SIGTERM => shutdown 0 p
  end.

(** How [main] registers the listener: [process.once] for the two signals,
    [process.on] for an uncaught exception. *)
Definition once (t : Trigger) : bool :=
  match t with
  | SIGINT | SIGTERM => true
  | UncaughtException => false
  end.

Definition Trigger_eqb (a b : Trigger) : bool :=
  match a, b with
  | SIGINT, SIGINT | SIGTERM, SIGTERM
  | UncaughtException, UncaughtException => true
  | _, _ => false
  end.

(** The listener of [t] is still registered. *)
Definition listening (t : Trigger) (p : Proc) : bool :=
  negb (existsb (Trigger_eqb t) (removed p)).

(** A trigger fires. A [process.once] listener is removed before it runs. A
    signal that finds its listener removed is handled by nobody: Node takes
    the default action of the signal and the process ends there, without
    running anything more. *)
Definition fire (t : Trigger) (p : Proc) : Proc :=
  if once t then
    if listening t p
    then listener t
           (mkProc (world p) (pending p) (exit_code p) (t :: removed p) (killed p))
    else mkProc (world p) (pending p) (exit_code p) (removed p) (Some t)
  else listener t p.

(** One turn of the event loop; nothing runs once the process has exited
    or was ended by a signal. *)
Definition step (p : Proc) (l : Label) : Proc :=
  match exit_code p, killed p with
  | None, None =>
      match l with
      | Fire t => fire t p
      | Settle n ok =>
          match take_task n (pending p) with
          | Some (t, rest) => resume t ok (with_pending p rest)
          | None => p
          end
      end
  | _, _ => p
  end.

Definition run (p : Proc) (ls : list Label) : Proc := fold_left step ls p.

(** The process when the listeners have just been registered. *)
Definition ready (w : World) : Proc := mkProc w [] None [] None.

End Lifecycle.

(* ================================================================= *)
(** ** Reading traces *)

Definition is_stop_worker (ev : Event) : bool :=
  match ev with EvStopWorker => true | _ => false end.
Definition is_destroy (ev : Event) : bool :=
  match ev with EvDestroy => true | _ => false end.
Definition is_warning (ev : Event) : bool :=
  match ev with EvLog Warn _ => true | _ => false end.
Definition is_add_job (ev : Event) : bool :=
  match ev with EvAddJob _ => true | _ => false end.
Definition is_defer (ev : Event) : bool :=
  match ev with EvDeferReply => true | _ => false end.

Definition is_set_interval (ev : Event) : bool :=
  match ev with EvSetInterval _ _ => true | _ => false end.
Definition is_clear_interval (ev : Event) : bool :=
  match ev with EvClearInterval _ => true | _ => false end.
Definition not_timer (ev : Event) : bool :=
  negb (is_set_interval ev || is_clear_interval ev).

(** The sends that answer an interaction. *)
Definition is_interaction_send (ev : Event) : bool :=
  match ev with
  | EvReply _ | EvEditReply _ | EvFollowUp _ => true
  | _ => false
  end.

(** The three steps of the start-up. *)
Definition is_startup_step (ev : Event) : bool :=
  match ev with
  | EvStartWorker | EvReaddir _ | EvLogin _ => true
  | _ => false
  end.

(** The configuration the start-up has for the queue manager, when the
    building of it returns. *)
Definition built (config : M QueueConfig) (env : Env) (w : World)
    : option QueueConfig :=
  match fst (config env w) with
  | Ok queueConfig => Some queueConfig
  | _ => None
  end.

(** What the block "Queue + worker" does, read from the configuration and
    from what the collaborators answer; [n] is the trace position of the
    construction of the queue manager. The block stops at the first of its
    three steps that throws. *)
Definition queue_block_events (env : Env) (n : nat)
    (config : option QueueConfig) : list Event :=
  match config with
  | None => [EvLog Error "Failed to start queue worker"]
  | Some queueConfig =>
      EvNewBotQueueManager queueConfig ::
      match answer_of env n with
      | Throws _ => [EvLog Error "Failed to start queue worker"]
      | Returns _ =>
          EvStartWorker ::
          match answer_of env (S n) with
          | Throws _ => [EvLog Error "Failed to start queue worker"]
          | Returns _ => [EvLog Info "Queue worker started"]
          end
      end
  end.

(** The block got as far as the start of the worker. *)
Definition worker_called (env : Env) (n : nat)
    (config : option QueueConfig) : bool :=
  match config, answer_of env n with
  | Some _, Returns _ => true
  | _, _ => false
  end.

(** The block ran to its end: the worker is started. *)
Definition worker_started (env : Env) (n : nat)
    (config : option QueueConfig) : bool :=
  match config, answer_of env n, answer_of env (S n) with
  | Some _, Returns _, Returns _ => true
  | _, _, _ => false
  end.

Definition not_step (ev : Event) : bool := negb (is_startup_step ev).

Definition count (f : Event -> bool) (t : list Event) : nat :=
  length (filter f t).

(** A module that exports a command registering under [name]: the export
    the loader resolves has a [data], a function [execute], and [data.name]
    is the string [name], not empty. *)
Definition exports_command (exports : JsVal) (name : string) : bool :=
  let candidate := resolve_export "command" "command" exports in
  Js.truthy candidate
  && Js.truthy (Js.opt_get candidate "data")
  && Js.is_function (Js.opt_get candidate "execute")
  && match Js.opt_get (Js.opt_get candidate "data") "name" with
     | VStr n => String.eqb n name && negb (String.eqb n "")
     | _ => false
     end.

(** What the load of one command file does to the registry: the name and
    the command it sets, or nothing. *)
Definition Registration : Type := option (JsVal * JsVal).

(** [client.commands.set(name, command)] for a registration. *)
Definition register (reg : Js.JsMap) (r : Registration) : Js.JsMap :=
  match r with
  | Some (name, command) => Js.map_set reg name command
  | None => reg
  end.

Definition is_log (ev : Event) : bool :=
  match ev with EvLog _ _ => true | _ => false end.

(** The one line the loader logs for a file: "Loaded command" at level info
    when the file registers a command, and otherwise one of the three lines
    for a module that is not registered. *)
Definition load_line (load : string * Registration) (ev : Event) : Prop :=
  match snd load with
  | Some _ => ev = EvLog Info "Loaded command"
  | None =>
      ev = EvLog Warn "Command missing name" \/
      ev = EvLog Warn "Invalid command module" \/
      ev = EvLog Error "Failed to load command"
  end.

(** A registration is that of the module imported from the file: in the
    trace [t] of the run the import of the file is at a position [pos], the
    import returned [exports] there, and the command set is the export the
    loader resolves in [exports]; its name is truthy, it has a [data] and
    its [execute] is a function. *)
Definition registers_module (env : Env) (t : list Event)
    (load : string * Registration) : Prop :=
  match snd load with
  | Some (name, command) =>
      Js.truthy name = true /\
      Js.truthy (Js.opt_get command "data") = true /\
      Js.is_function (Js.opt_get command "execute") = true /\
      exists pos exports,
        nth_error t pos = Some (EvImport ("commands/" ++ fst load)) /\
        answer_of env pos = Returns exports /\
        command = resolve_export "command" "command" exports
  | None => True
  end.

(** [client.commands.get(name)] for a name of any type. *)
Definition registry_get (w : World) (name : JsVal) : JsVal :=
  match commands w with
  | Some m => Js.map_get m name
  | None => VUndef
  end.

(** [client.commands.get(name)]. *)
Definition registered (w : World) (name : string) : JsVal :=
  match commands w with
  | Some m => Js.map_get m (VStr name)
  | None => VUndef
  end.

(** The first trigger among the labels of a run. *)
Fixpoint first_fire (ls : list Lifecycle.Label) : option Lifecycle.Trigger :=
  match ls with
  | [] => None
  | Lifecycle.Fire t :: _ => Some t
  | Lifecycle.Settle _ _ :: rest => first_fire rest
  end.

(** A handler sent the events of [plan] in order, one after the other,
    and finished. Its trace is [before], then the first [k] events of the
    plan, at least one, then what the handler does last. Every send but the
    last one made had returned before the next was made: the call at trace
    position [length before + j] is the [j]-th send. When the last send made
    returned, it was the last of the plan, and the handler added [done] and
    returned. When it threw [e], nothing more of the plan was sent, and the
    handler added [failed e]. *)
Definition delivered_in_order (env : Env) (before plan done : list Event)
    (failed : JsError -> list Event) (run : Res unit * World) : Prop :=
  exists k,
    1 <= k <= length plan /\
    (forall j, S j < k ->
       exists v, answer_of env (length before + j) = Returns v) /\
    match answer_of env (length before + (k - 1)) with
    | Returns _ =>
        k = length plan /\
        fst run = Ok tt /\
        trace (snd run) = before ++ plan ++ done
    | Throws e => trace (snd run) = before ++ firstn k plan ++ failed e
    end.

(** What a flow is to send for an answer: the primary reply, then one
    follow-up per chunk of the overflow. *)
Definition delivery_plan (primary : Event) (followup : Payload -> Event)
    (chunks : list string) : list Event :=
  primary :: map (fun chunk => followup (text_payload chunk)) chunks.

(** The events a run added to the trace it started from. *)
Definition added (before after : World) : list Event :=
  skipn (length (trace before)) (trace after).

(* ================================================================= *)
(** ** Sample inputs *)

Module Sample.

(** A platform with no further variable set, on which no string parses as
    a URL. *)
Definition invalid_embed : JsError :=
  mkError "ValidationError" "Invalid string length".

Definition plain_host : Host :=
  mkHost (fun _ => None) (fun _ => None) (fun _ => VUndef) invalid_embed.

(** Collaborators that accept every call and answer [undefined]. *)
Definition accepting : Env :=
  mkEnv (fun _ => Returns VUndef) (fun _ => inr []) (fun _ => 0%Z) None
    (Some "token") (mkQueueManager true) plain_host.

(** A client with nothing attached and an interaction nobody answered. *)
Definition fresh_world : World := mkWorld [] false false [] None None false.

(** The same with a queue manager attached. *)
Definition queue_world : World :=
  mkWorld [] false false [] None (Some (mkQueueManager true)) false.

(** An interaction that was already replied to. *)
Definition replied_world : World := mkWorld [] false true [] (Some []) None false.

Definition ask_interaction : Interaction :=
  mkInteraction true "ask" (Some "What is Starknet?") "i1" "u1" "alice" 0%Z.

Definition boom : JsError := mkError "Error" "boom".

(** A command object whose [execute] is the function at [addr]. *)
Definition command_at (name : string) (addr : nat) : JsVal :=
  VObj addr [("data", VObj (addr + 100) [("name", VStr name)]);
             ("execute", VFun addr)].

(** A registry with [ask] bound to the function at address 7. *)
Definition ask_registry_world : World :=
  mkWorld [] false false [] (Some [(VStr "ask", command_at "ask" 7)]) None false.

(** A handler that defers and then throws. *)
Definition defer_then_throw (addr : nat) (i : Interaction) : M unit :=
  deferReply ;; throw boom.

(** A handler that throws at once. *)
Definition throw_at_once (addr : nat) (i : Interaction) : M unit := throw boom.

Definition job_1 : JsVal := VObj 1 [("id", VStr "job-1")].

(** Collaborators that accept every call and hand out [job_1]; the fourth
    call of a run (the await of the job result in the mention flow) times
    out. *)
Definition timing_out : Env :=
  mkEnv (fun n => if Nat.eqb n 3
                  then Throws (mkError "TimeoutError" "Job timed out")
                  else Returns job_1)
    (fun _ => inr []) (fun _ => 0%Z) None (Some "token") (mkQueueManager true) plain_host.

(** Collaborators that accept every call, hand out [job_1] and answer the
    third call (the await of the job result in the slash command) with
    [{ answer: text }]. *)
Definition answering (text : string) : Env :=
  mkEnv (fun n => if Nat.eqb n 2
                  then Returns (VObj 2 [("answer", VStr text)])
                  else Returns job_1)
    (fun _ => inr []) (fun _ => 0%Z) None (Some "token") (mkQueueManager true) plain_host.

(** The same for the mention flow, whose fourth call is the await of the
    job result. *)
Definition mention_answering (text : string) : Env :=
  mkEnv (fun n => if Nat.eqb n 3
                  then Returns (VObj 2 [("answer", VStr text)])
                  else Returns job_1)
    (fun _ => inr []) (fun _ => 0%Z) None (Some "token") (mkQueueManager true)
    plain_host.

Definition mention_message : Message :=
  mkMessage false "u1" "alice" "<@42> What is Starknet?" "m1" ["42"]
    (Some "42") true.

(** The string of [n] copies of [c]. *)
Fixpoint repeat_char (c : ascii) (n : nat) : string :=
  match n with
  | 0 => EmptyString
  | S k => String c (repeat_char c k)
  end.

(** A module whose default export is the command [name] with its
    [execute] at [addr]. *)
Definition module_of (name : string) (addr : nat) : JsVal :=
  VObj (addr + 200) [("default", command_at name addr)].

(** A commands directory with two files; both modules export a command
    named [ask], the first with its [execute] at address 7, the second at
    address 8. *)
Definition two_ask_modules : Env :=
  mkEnv (fun n => if Nat.eqb n 1 then Returns (module_of "ask" 7)
                  else if Nat.eqb n 3 then Returns (module_of "ask" 8)
                  else Returns VUndef)
    (fun _ => inr ["ask.js"; "ask2.js"]) (fun _ => 0%Z) None (Some "token")
    (mkQueueManager true) plain_host.

(** A commands directory with three files and a file that is no module;
    the first two modules export a command named [ask], the third one
    named [status]. *)
Definition three_modules : Env :=
  mkEnv (fun n => if Nat.eqb n 1 then Returns (module_of "ask" 7)
                  else if Nat.eqb n 3 then Returns (module_of "ask" 8)
                  else if Nat.eqb n 5 then Returns (module_of "status" 9)
                  else Returns VUndef)
    (fun _ => inr ["ask.js"; "README.md"; "ask2.js"; "status.js"])
    (fun _ => 0%Z) None (Some "token") (mkQueueManager true) plain_host.

End Sample.

(* ================================================================= *)
(** ** Predicates on runs *)

Definition returns_or_throws {A} (r : Res A) : Prop :=
  match r with
  | Ok _ | Throw _ => True
  | Exited _ | Hang => False
  end.

(** [quiet P m]: whatever the collaborators answer, [m] returns or throws,
    adds to the trace only events that satisfy [P], and leaves the active
    timers as they are. *)
Definition quiet {A} (P : Event -> bool) (m : M A) : Prop :=
  forall env w,
    exists t,
      trace (snd (m env w)) = trace w ++ t /\
      forallb P t = true /\
      timers (snd (m env w)) = timers w /\
      returns_or_throws (fst (m env w)).

(** [timer_safe m]: whatever the collaborators answer, [m] returns or
    throws, has cleared as many interval timers as it has set, and leaves
    the set of active timers as it found it. *)
Definition timer_safe {A} (m : M A) : Prop :=
  forall env w,
    exists t,
      trace (snd (m env w)) = trace w ++ t /\
      count is_set_interval t = count is_clear_interval t /\
      timers (snd (m env w)) = timers w /\
      returns_or_throws (fst (m env w)).

(** [send] is one call to the transport, recorded as [mk p]; it leaves
    [interaction.deferred] as it is. *)
Definition sends_as (mk : Payload -> Event) (send : Payload -> M unit) : Prop :=
  forall p env w,
    exists w',
      send p env w =
        (match answer_of env (length (trace w)) with
         | Returns _ => Ok tt
         | Throws e => Throw e
         end, w') /\
      trace w' = trace w ++ [mk p] /\
      deferred w' = deferred w.

(** [adds first m]: whatever the collaborators answer, [m] returns or
    throws, and what it adds to the trace is [first] followed by events that
    are no start-up step. *)
Definition adds {A} (first : list Event) (m : M A) : Prop :=
  forall env w,
    exists t,
      trace (snd (m env w)) = trace w ++ first ++ t /\
      forallb not_step t = true /\
      returns_or_throws (fst (m env w)).

(** How often [shutdown] calls [stopWorker]: once when the client has a
    queue manager whose [stopWorker] is a function, never otherwise. *)
Definition stop_calls (qm : option QueueManager) : nat :=
  match qm with
  | Some q => if stopWorker_is_function q then 1 else 0
  | None => 0
  end.

(** How often the trigger [s] fires among the labels [ls]. *)
Definition fired (s : Lifecycle.Trigger) (ls : list Lifecycle.Label) : nat :=
  length
    (filter
       (fun l =>
          match l with
          | Lifecycle.Fire t => Lifecycle.Trigger_eqb s t
          | Lifecycle.Settle _ _ => false
          end)
       ls).

(** What holds of the process after any run of the event loop. [code] is
    the code of the first call of [shutdown], when there was one; [base] is
    the trace the run started from and [qm] the queue manager of the
    client. Before the first call nothing is pending, no listener is removed
    and the process is alive; after it [stopWorker] has been called as often
    as [shutdown] calls it, and the one call that got past the flag is at
    its first await, at its second, or has exited. *)
Definition shutdown_inv (code : option Z) (base : list Event)
    (qm : option QueueManager) (p : Lifecycle.Proc) : Prop :=
  exists t,
    trace (Lifecycle.world p) = base ++ t /\
    queueManager (Lifecycle.world p) = qm /\
    match code with
    | None =>
        isShuttingDown (Lifecycle.world p) = false /\
        Lifecycle.pending p = [] /\
        Lifecycle.exit_code p = None /\
        Lifecycle.killed p = None /\
        Lifecycle.removed p = [] /\
        count is_stop_worker t = 0 /\
        count is_destroy t = 0
    | Some c =>
        isShuttingDown (Lifecycle.world p) = true /\
        count is_stop_worker t = stop_calls qm /\
        ((Lifecycle.pending p = [Lifecycle.AwaitStopWorker c] /\
          Lifecycle.exit_code p = None /\
          count is_destroy t = 0) \/
         (Lifecycle.pending p = [Lifecycle.AwaitDestroy c] /\
          Lifecycle.exit_code p = None /\
          count is_destroy t = 1) \/
         (Lifecycle.pending p = [] /\
          Lifecycle.exit_code p = Some c /\
          Lifecycle.killed p = None /\
          count is_destroy t = 1))
    end.

(** The code of the first call of [shutdown] once the labels [ls] have run
    as well. *)
Definition first_code (code : option Z) (ls : list Lifecycle.Label) : option Z :=
  match code with
  | Some c => Some c
  | None => option_map Lifecycle.code_of (first_fire ls)
  end.

(* ================================================================= *)
(** ** The status command: [fmtDuration] of [commands/status.ts] *)

(** [`${z}`] and [String(z)] for an integer. *)
Definition show (z : Z) : string := NilZero.string_of_int (Z.to_int z).

(** [parts.join(sep)]. *)
Fixpoint join_with (sep : string) (parts : list string) : string :=
  match parts with
  | [] => EmptyString
  | [p] => p
  | p :: rest => (p ++ sep ++ join_with sep rest)%string
  end.

Module Status.

(** The four numbers [fmtDuration] computes from a number of milliseconds.
    The source computes on doubles; for a whole number of milliseconds
    below 2^53 in absolute value its divisions, rounded down by
    [Math.floor], are the divisions of integers written here, and that is
    the range the properties of [fmtDuration] are stated in.
    <<
    const s = Math.floor(ms / 1000);
    const d = Math.floor(s / 86400);
    const h = Math.floor((s % 86400) / 3600);
    const m = Math.floor((s % 3600) / 60);
    const sec = s % 60;
    >>
    [%] is the remainder that takes the sign of the dividend, [Z.rem]. *)
Record Duration : Type := mkDuration {
  days : Z;
  hours : Z;
  minutes : Z;
  seconds : Z
}.

Definition split (ms : Z) : Duration :=
  let s := (ms / 1000)%Z in
  mkDuration (s / 86400)%Z (Z.rem s 86400 / 3600)%Z (Z.rem s 3600 / 60)%Z
    (Z.rem s 60).

(** [n ? `${n}${unit}` : null]. *)
Definition part (n : Z) (unit : string) : option string :=
  if Z.eqb n 0 then None else Some (show n ++ unit)%string.

(** [parts.filter(Boolean)] on parts that are a string or [null]; the
    strings here are never empty. *)
Fixpoint present (parts : list (option string)) : list string :=
  match parts with
  | [] => []
  | Some p :: rest => p :: present rest
  | None :: rest => present rest
  end.

Definition fmtDuration (ms : Z) : string :=
  let d := split ms in
  join_with " "
    (present
       [part (days d) "d"; part (hours d) "h"; part (minutes d) "m";
        Some (show (seconds d) ++ "s")%string]).

End Status.

(* ================================================================= *)
(** ** The deployment script: [scripts/deploy-commands.ts] *)

Module Deploy.

(** Where the commands are put:
    [Routes.applicationGuildCommands(clientId, guildId)] or
    [Routes.applicationCommands(clientId)]. *)
Inductive Route : Type :=
| GuildCommands (clientId guildId : string)
| GlobalCommands (clientId : string).

(** The filter of [collectCommands]:
    [/\.(js|mjs|cjs)$/.test(f) && !f.endsWith('.map')]. *)
Definition is_script_file (f : string) : bool :=
  (endsWith ".js" f || endsWith ".mjs" f || endsWith ".cjs" f)
  && negb (endsWith ".map" f).

(** [mod.default || mod.command || mod[Object.keys(mod).find(k => /Command$/i.test(k))!]]:
    no test of [mod] comes first, a module that is [undefined] or [null]
    has no member to read. *)
Definition resolve (exports : JsVal) : M JsVal :=
  first <- get_strict exports "default" ;;
  ret (Js.or_else
         (Js.or_else first (Js.opt_get exports "command"))
         (Js.opt_get exports
            match find (fun k => endsWith "command" (lower k)) (Js.keys exports) with
            | Some k => k
            | None => "undefined"
            end)).

(** One turn of the loop of [collectCommands]: the payload of the file's
    command, or nothing when the module has no [data.toJSON]. *)
Definition collect_file (file : string) : M (option JsVal) :=
  exports <- call (EvImport ("commands/" ++ file)) ;;
  cmd <- resolve exports ;;
  let toJSON := Js.opt_get (Js.opt_get cmd "data") "toJSON" in
  if negb (Js.truthy toJSON) then ret None
  else
    match toJSON with
    | VFun addr => json <- call (EvCallToJSON addr) ;; ret (Some json)
    | _ => throw (TypeError "cmd.data.toJSON is not a function")
    end.

(** The loop: [payloads] grows by [push]. *)
Fixpoint collect_loop (files : list string) (payloads : list JsVal)
    : M (list JsVal) :=
  match files with
  | [] => ret payloads
  | file :: rest =>
      payload <- collect_file file ;;
      match payload with
      | Some json => collect_loop rest (payloads ++ [json])
      | None => collect_loop rest payloads
      end
  end.

(** [collectCommands]. *)
Definition collectCommands : M (list JsVal) :=
  files <- CommandLoader.readdir "commands" ;;
  collect_loop (filter is_script_file files) [].

(** [!s] for an environment variable. *)
Definition unset (s : option string) : bool :=
  match s with
  | None | Some EmptyString => true
  | Some _ => false
  end.

(** [main]. [put] is the REST client: what [rest.put(route, { body })]
    does. [clientId] and [guildId] are the environment variables
    DISCORD_CLIENT_ID and DISCORD_GUILD_ID. [console.log] and
    [console.error] are recorded as lines of the logger, at the levels
    [Info] and [Error]. *)
Definition main (put : Route -> list JsVal -> M unit)
    (clientId guildId : option string) : M unit :=
  env <- get_env ;;
  match DISCORD_TOKEN env, clientId with
  | Some (String _ _), Some ((String _ _) as client) =>
      body <- collectCommands ;;
      log Info ("Registering " ++ show (Z.of_nat (length body)) ++ " command(s)") ;;
      try_catch
        (match guildId with
         | Some ((String _ _) as guild) =>
             put (GuildCommands client guild) body ;;
             log Info "Guild commands registered"
         | _ =>
             put (GlobalCommands client) body ;;
             log Info "Global commands registered"
         end)
        (fun err => log Error "Error registering commands" ;; process_exit 1)
  | _, _ =>
      log Error "DISCORD_TOKEN and DISCORD_CLIENT_ID are required" ;;
      process_exit 1
  end.

End Deploy.

(* ================================================================= *)
(** ** Further readings of traces and worlds *)

Definition is_import (ev : Event) : bool :=
  match ev with EvImport _ => true | _ => false end.
Definition not_import (ev : Event) : bool := negb (is_import ev).

(** An event that neither reaches the queue nor signals typing. *)
Definition leaves_queue_alone (ev : Event) : bool :=
  match ev with
  | EvAddJob _ | EvWaitForJobCompletion _ _ | EvSendTyping
  | EvSetInterval _ _ | EvClearInterval _ => false
  | _ => true
  end.

Definition first_char (s : string) : option ascii :=
  match s with
  | EmptyString => None
  | String c _ => Some c
  end.

Fixpoint last_char (s : string) : option ascii :=
  match s with
  | EmptyString => None
  | String c EmptyString => Some c
  | String _ rest => last_char rest
  end.

Definition not_space (c : option ascii) : bool :=
  match c with
  | Some a => negb (is_space a)
  | None => true
  end.

(** An entry of the command registry that the dispatcher can run: the key
    is truthy, the command has a [data] and its [execute] is a function. *)
Definition runnable_entry (entry : JsVal * JsVal) : bool :=
  Js.truthy (fst entry)
  && Js.truthy (Js.opt_get (snd entry) "data")
  && Js.is_function (Js.opt_get (snd entry) "execute").

Definition registry_runnable (w : World) : bool :=
  match commands w with
  | Some m => forallb runnable_entry m
  | None => true
  end.

(** [keeps R m]: whatever the collaborators answer and however [m] ends,
    the world it leaves is related by [R] to the one it started from. *)
Definition keeps (R : World -> World -> Prop) {A} (m : M A) : Prop :=
  forall env w, R w (snd (m env w)).

(** The client has no queue manager whose [stopWorker] can be called. *)
Definition no_stop_worker (w : World) : bool :=
  match queueManager w with
  | Some qm => negb (stopWorker_is_function qm)
  | None => true
  end.

(** [w'] has the queue manager of [w]. *)
Definition same_queueManager (w w' : World) : Prop :=
  queueManager w' = queueManager w.

(** A registry that is runnable stays so. *)
Definition keeps_runnable (w w' : World) : Prop :=
  registry_runnable w = true -> registry_runnable w' = true.

(** A call of [data.toJSON()]. *)
Definition is_toJSON (ev : Event) : bool :=
  match ev with EvCallToJSON _ => true | _ => false end.

(** What the [toJSON] calls among the events [t] returned, in the order of
    the calls; [pos] is the position of the first event of [t] in the
    trace. *)
Fixpoint toJSON_answers (env : Env) (pos : nat) (t : list Event) : list JsVal :=
  match t with
  | [] => []
  | EvCallToJSON _ :: rest =>
      match answer_of env pos with
      | Returns v => v :: toJSON_answers env (S pos) rest
      | Throws _ => toJSON_answers env (S pos) rest
      end
  | _ :: rest => toJSON_answers env (S pos) rest
  end.

(** The route the deployment script puts the commands on, and the line it
    logs afterwards. *)
Definition deploy_route (clientId : string) (guildId : option string)
    : Deploy.Route :=
  if Deploy.unset guildId then Deploy.GlobalCommands clientId
  else Deploy.GuildCommands clientId
         match guildId with Some g => g | None => "" end.

Definition deploy_done (guildId : option string) : string :=
  if Deploy.unset guildId then "Global commands registered"
  else "Guild commands registered".

(* ================================================================= *)
(** ** Further sample inputs *)

Module Scenario.

(** Collaborators that accept every call and hand out [job_1], except the
    call at position [n] of the trace, which throws [e]. *)
Definition failing_at (n : nat) (e : JsError) : Env :=
  mkEnv (fun k => if Nat.eqb k n then Throws e else Returns Sample.job_1)
    (fun _ => inr []) (fun _ => 0%Z) None (Some "token") (mkQueueManager true) Sample.plain_host.

Definition timeout_error : JsError := mkError "TimeoutError" "Job timed out".

Definition redis_down : JsError := mkError "Error" "connect ECONNREFUSED".

(** Collaborators that accept every call and answer [undefined]; the
    listing of a directory gives [files]. *)
Definition listing (files : list string) : Env :=
  mkEnv (fun _ => Returns VUndef) (fun _ => inr files) (fun _ => 0%Z) None
    (Some "token") (mkQueueManager true) Sample.plain_host.

(** Collaborators that accept every call, on a platform where REDIS_URL
    is set to a string that does not parse as a URL. *)
Definition bad_redis_url : Env :=
  mkEnv (fun _ => Returns VUndef) (fun _ => inr []) (fun _ => 0%Z) None
    (Some "token") (mkQueueManager true)
    (mkHost (fun name => if String.eqb name "REDIS_URL"
                         then Some "redis//cache" else None)
       (fun _ => None) (fun _ => VUndef) Sample.invalid_embed).

(** A command module whose default export has a [data] with a [toJSON] at
    address 7, and the payload that [toJSON] returns. *)
Definition deployable : JsVal :=
  VObj 5 [("default", VObj 6 [("data", VObj 8 [("toJSON", VFun 7)])])].

Definition payload : JsVal := VObj 9 [("name", VStr "ask")].

(** Collaborators for a run of the deployment script from an empty trace:
    the listing gives [files]; every import gives [deployable] and every
    [toJSON] gives [payload], except the call at position [n], which
    throws [e]. *)
Definition deploying (files : list string) (n : nat) (e : JsError) : Env :=
  mkEnv (fun k => if Nat.eqb k n then Throws e
                  else if Nat.odd k then Returns deployable
                  else Returns payload)
    (fun _ => inr files) (fun _ => 0%Z) None (Some "token")
    (mkQueueManager true) Sample.plain_host.

End Scenario.

(* ================================================================= *)
(** * Properties *)

(* ----------------------------------------------------------------- *)
(** ** The chunker *)

Lemma substring_zero_length : forall s i, substring i 0 s = "".
Proof.
  induction s as [|c s IH]; intros [|i]; simpl; auto.
Qed.

Lemma substring_all : forall s, substring 0 (String.length s) s = s.
Proof.
  induction s as [|c s IH]; simpl; [reflexivity | now rewrite IH].
Qed.

Lemma substring_beyond : forall s i n,
  String.length s <= i -> substring i n s = "".
Proof.
  induction s as [|c s IH]; intros i n Hi.
  - destruct i, n; reflexivity.
  - destruct i as [|i]; simpl in *; [lia|]. apply IH. lia.
Qed.

Lemma substring_append_split : forall s i a b,
  (substring i a s ++ substring (i + a) b s)%string = substring i (a + b) s.
Proof.
  induction s as [|c s IH]; intros i a b.
  - destruct i, a, b; reflexivity.
  - destruct i as [|i].
    + destruct a as [|a]; simpl.
      * destruct b; reflexivity.
      * f_equal. apply (IH 0 a b).
    + simpl. apply IH.
Qed.

Lemma substring_truncate : forall s i n,
  String.length s - i <= n ->
  substring i n s = substring i (String.length s - i) s.
Proof.
  induction s as [|c s IH]; intros i n Hn.
  - destruct i, n; reflexivity.
  - destruct i as [|i]; simpl in *.
    + destruct n as [|n]; [lia|]. f_equal.
      rewrite (IH 0 n) by lia. now rewrite Nat.sub_0_r.
    + apply IH. lia.
Qed.

Lemma substring_length : forall s i n,
  String.length (substring i n s) = Nat.min n (String.length s - i).
Proof.
  induction s as [|c s IH]; intros i n.
  - destruct i, n; reflexivity.
  - destruct i as [|i]; simpl.
    + destruct n as [|n]; simpl; [reflexivity|].
      rewrite (IH 0 n). now rewrite Nat.sub_0_r.
    + apply IH.
Qed.

Lemma slice_from_zero : forall s, slice_from s 0 = s.
Proof.
  intros s. unfold slice_from. rewrite Nat.sub_0_r. apply substring_all.
Qed.

Lemma slice_length : forall s i j,
  String.length (slice s i j) = Nat.min (j - i) (String.length s - i).
Proof. intros. apply substring_length. Qed.

Lemma slice_from_step : forall s i size,
  (slice s i (i + size) ++ slice_from s (i + size))%string = slice_from s i.
Proof.
  intros s i size. unfold slice, slice_from.
  replace (i + size - i) with size by lia.
  rewrite substring_append_split.
  apply substring_truncate. lia.
Qed.

Lemma ceil_div_step : forall d size,
  0 < size -> 0 < d -> ceil_div d size = S (ceil_div (d - size) size).
Proof.
  intros d size Hs Hd. unfold ceil_div.
  destruct (le_lt_dec size d) as [Hle|Hlt].
  - replace (d + size - 1) with ((d - size + size - 1) + 1 * size) by lia.
    rewrite Nat.div_add by lia. lia.
  - replace (d - size) with 0 by lia. simpl.
    rewrite (Nat.div_small (size - 1) size) by lia.
    symmetry.
    assert (H : (d + size - 1) / size < 2)
      by (apply Nat.Div0.div_lt_upper_bound; lia).
    assert (H' : 1 <= (d + size - 1) / size)
      by (apply Nat.div_le_lower_bound; lia).
    lia.
Qed.

Lemma ceil_div_zero : forall size, 0 < size -> ceil_div 0 size = 0.
Proof.
  intros size Hs. unfold ceil_div. simpl. apply Nat.div_small. lia.
Qed.

(** [ceil_div] is the ceiling of the quotient. *)
Lemma ceil_div_bounds : forall a b,
  0 < b -> a <= ceil_div a b * b /\ ceil_div a b * b < a + b.
Proof.
  intros a b Hb. unfold ceil_div.
  pose proof (Nat.div_mod_eq (a + b - 1) b) as E.
  pose proof (Nat.mod_upper_bound (a + b - 1) b ltac:(lia)) as U.
  nia.
Qed.

Lemma join_cons : forall c rest, join (c :: rest) = (c ++ join rest)%string.
Proof. reflexivity. Qed.

(** The loop from index [i] on: with fuel for every remaining code unit it
    returns, and what it appends to [acc] cuts the text from [i] on into
    consecutive slices of width [size]. *)
Lemma toChunks_loop_spec : forall fuel text size i acc,
  0 < size ->
  String.length text - i < fuel ->
  exists rest,
    toChunks_loop fuel text size i acc = Some (acc ++ rest) /\
    join rest = slice_from text i /\
    (forall k, k < length rest ->
       nth k rest EmptyString = slice text (i + k * size) (i + k * size + size)) /\
    Forall (fun c => String.length c <= size) rest /\
    length rest = ceil_div (String.length text - i) size.
Proof.
  induction fuel as [|fuel IH]; intros text size i acc Hsize Hfuel; [lia|].
  simpl. destruct (Nat.ltb_spec i (String.length text)) as [Hlt|Hge].
  - destruct (IH text size (i + size) (acc ++ [slice text i (i + size)]) Hsize)
      as (rest & Hrun & Hjoin & Hnth & Hlen & Hcount); [lia|].
    exists (slice text i (i + size) :: rest).
    repeat split.
    + rewrite Hrun. now rewrite <- app_assoc.
    + rewrite join_cons, Hjoin. apply slice_from_step.
    + intros [|k] Hk; simpl.
      * now rewrite Nat.add_0_r.
      * rewrite Hnth by (simpl in Hk; lia). f_equal; lia.
    + constructor; [|exact Hlen].
      rewrite slice_length. lia.
    + simpl. rewrite Hcount.
      rewrite (ceil_div_step (String.length text - i) size) by lia.
      do 2 f_equal. lia.
  - exists []. repeat split.
    + now rewrite app_nil_r.
    + unfold slice_from. replace (String.length text - i) with 0 by lia.
      simpl. now rewrite substring_zero_length.
    + simpl. intros k Hk. lia.
    + constructor.
    + replace (String.length text - i) with 0 by lia.
      simpl. now rewrite ceil_div_zero.
Qed.

(** With its default size, which is positive, [toChunks] returns. *)
Lemma toChunks_default_returns : forall default text,
  0 < default ->
  exists chunks,
    toChunks_default default text None = Some chunks /\
    join chunks = text /\
    Forall (fun c => String.length c <= default) chunks /\
    length chunks = ceil_div (String.length text) default.
Proof.
  intros default text Hd. unfold toChunks_default.
  destruct (toChunks_loop_spec (S (String.length text)) text default 0 [] Hd)
    as (rest & Hrun & Hjoin & _ & Hlen & Hcount); [lia|].
  exists rest. rewrite Nat.sub_0_r in Hcount. rewrite slice_from_zero in Hjoin.
  auto.
Qed.

(** C1. For every text [T] and positive chunk size [S], [toChunks] (either
    copy: they differ in the default size only) returns; its chunks joined
    in order are [T]; the [k]-th chunk is the slice of [T] from [k * S] to
    [k * S + S], so the chunks are contiguous and do not overlap; every
    chunk has at most [S] code units; there are [ceil (len T / S)] chunks,
    the one number [n] with [len T <= n * S < len T + S]; and the empty text
    gives no chunk. *)
Theorem toChunks_reconstructs_bounded_ceil :
  forall (default : nat) (T : string) (S : nat),
    0 < S ->
    exists chunks,
      toChunks_default default T (Some S) = Some chunks /\
      Ask.toChunks T (Some S) = Some chunks /\
      MessageCreate.toChunks T (Some S) = Some chunks /\
      join chunks = T /\
      (forall k, k < length chunks ->
         nth k chunks EmptyString = slice T (k * S) (k * S + S)) /\
      Forall (fun c => String.length c <= S) chunks /\
      length chunks = ceil_div (String.length T) S /\
      String.length T <= length chunks * S < String.length T + S /\
      (String.length T = 0 -> chunks = []).
Proof.
  intros default T S HS.
  destruct (toChunks_loop_spec (Datatypes.S (String.length T)) T S 0 [] HS)
    as (rest & Hrun & Hjoin & Hnth & Hlen & Hcount); [lia|].
  rewrite Nat.sub_0_r in Hcount. rewrite slice_from_zero in Hjoin.
  exists rest. repeat split; auto.
  - rewrite Hcount. apply ceil_div_bounds, HS.
  - rewrite Hcount. apply ceil_div_bounds, HS.
  - intros H0. rewrite H0, ceil_div_zero in Hcount by exact HS.
    now apply length_zero_iff_nil.
Qed.

(** C1 at the text [abcdefg] and size 3. *)
Lemma toChunks_reconstructs_bounded_ceil_witness :
  exists chunks,
    toChunks_default 3800 "abcdefg" (Some 3) = Some chunks /\
    Ask.toChunks "abcdefg" (Some 3) = Some chunks /\
    MessageCreate.toChunks "abcdefg" (Some 3) = Some chunks /\
    join chunks = "abcdefg" /\
    (forall k, k < length chunks ->
       nth k chunks EmptyString = slice "abcdefg" (k * 3) (k * 3 + 3)) /\
    Forall (fun c => String.length c <= 3) chunks /\
    length chunks = ceil_div (String.length "abcdefg") 3 /\
    String.length "abcdefg" <= length chunks * 3 < String.length "abcdefg" + 3 /\
    (String.length "abcdefg" = 0 -> chunks = []).
Proof.
  apply (toChunks_reconstructs_bounded_ceil 3800 "abcdefg" 3). lia.
Defined.

Example toChunks_abcdefg :
  Ask.toChunks "abcdefg" (Some 3) = Some ["abc"; "def"; "g"].
Proof. reflexivity. Qed.

(** A size of zero on a text that is not empty: the loop does not end. *)
Example toChunks_size_zero_no_result : forall fuel,
  toChunks_loop fuel "a" 0 0 [] = None.
Proof.
  intros fuel. generalize (@nil string).
  induction fuel as [|fuel IH]; intros acc; simpl; [reflexivity | apply IH].
Qed.

(* ================================================================= *)
(** ** Answer extraction *)

(** C2. For every result payload, [pickAnswer] returns the value of the
    first populated field in the order answer, output, message, data (a
    field is populated when it reads as neither [undefined] nor [null]): an
    earlier populated field wins whatever the later ones hold; and with none
    of the four populated, as for an empty payload, it returns the string
    "No answer received.". *)
Theorem pickAnswer_priority : forall result : JsVal,
  (populated result "answer" = true ->
     pickAnswer result = Js.opt_get result "answer") /\
  (populated result "answer" = false ->
   populated result "output" = true ->
     pickAnswer result = Js.opt_get result "output") /\
  (populated result "answer" = false ->
   populated result "output" = false ->
   populated result "message" = true ->
     pickAnswer result = Js.opt_get result "message") /\
  (populated result "answer" = false ->
   populated result "output" = false ->
   populated result "message" = false ->
   populated result "data" = true ->
     pickAnswer result = Js.opt_get result "data") /\
  (populated result "answer" = false ->
   populated result "output" = false ->
   populated result "message" = false ->
   populated result "data" = false ->
     pickAnswer result = VStr "No answer received.").
Proof.
  intros result. unfold pickAnswer, populated, Js.coalesce.
  destruct (Js.nullish (Js.opt_get result "answer")) eqn:Ha;
  destruct (Js.nullish (Js.opt_get result "output")) eqn:Ho;
  destruct (Js.nullish (Js.opt_get result "message")) eqn:Hm;
  destruct (Js.nullish (Js.opt_get result "data")) eqn:Hd;
  simpl; rewrite ?Ha, ?Ho, ?Hm, ?Hd;
  repeat split; intros; try reflexivity; try discriminate.
Qed.

(** C2 at a payload with all four fields, at one with the last two, and at
    the empty payload. *)
Lemma pickAnswer_priority_witness :
  pickAnswer
    (VObj 0 [("data", VStr "d"); ("message", VStr "m");
             ("output", VStr "o"); ("answer", VStr "a")]) = VStr "a" /\
  pickAnswer (VObj 0 [("data", VStr "d"); ("message", VStr "m");
                      ("answer", VNull)]) = VStr "m" /\
  pickAnswer (VObj 0 []) = VStr "No answer received.".
Proof.
  split; [|split].
  - exact (proj1
             (pickAnswer_priority
                (VObj 0 [("data", VStr "d"); ("message", VStr "m");
                         ("output", VStr "o"); ("answer", VStr "a")]))
             eq_refl).
  - exact (proj1
             (proj2
                (proj2
                   (pickAnswer_priority
                      (VObj 0 [("data", VStr "d"); ("message", VStr "m");
                               ("answer", VNull)]))))
             eq_refl eq_refl eq_refl).
  - exact (proj2 (proj2 (proj2 (proj2 (pickAnswer_priority (VObj 0 [])))))
             eq_refl eq_refl eq_refl eq_refl).
Defined.

(** [pickAnswer] never answers [undefined] or [null], and a result that is
    itself [undefined] or [null] gets the fallback. *)
Lemma pickAnswer_not_nullish : forall result,
  Js.nullish (pickAnswer result) = false.
Proof.
  intros result. unfold pickAnswer, Js.coalesce.
  destruct (Js.nullish (Js.opt_get result "answer")) eqn:Ha;
  destruct (Js.nullish (Js.opt_get result "output")) eqn:Ho;
  destruct (Js.nullish (Js.opt_get result "message")) eqn:Hm;
  destruct (Js.nullish (Js.opt_get result "data")) eqn:Hd;
  simpl; rewrite ?Ha, ?Ho, ?Hm, ?Hd; auto.
Qed.

Example pickAnswer_empty_string_is_populated :
  pickAnswer (VObj 0 [("answer", VStr ""); ("output", VStr "o")]) = VStr "".
Proof. reflexivity. Qed.

Example pickAnswer_of_undefined : pickAnswer VUndef = VStr NO_ANSWER.
Proof. reflexivity. Qed.

(* ================================================================= *)
(** ** Runs: what a computation adds to the trace *)

Lemma bind_ok : forall A B (m : M A) (k : A -> M B) env w a w',
  m env w = (Ok a, w') -> bind m k env w = k a env w'.
Proof. intros A B m k env w a w' H. unfold bind. now rewrite H. Qed.

Lemma bind_throw : forall A B (m : M A) (k : A -> M B) env w e w',
  m env w = (Throw e, w') -> bind m k env w = (Throw e, w').
Proof. intros A B m k env w e w' H. unfold bind. now rewrite H. Qed.

Lemma try_catch_ok : forall A (m : M A) h env w a w',
  m env w = (Ok a, w') -> try_catch m h env w = (Ok a, w').
Proof. intros A m h env w a w' H. unfold try_catch. now rewrite H. Qed.

Lemma try_catch_throw : forall A (m : M A) h env w e w',
  m env w = (Throw e, w') -> try_catch m h env w = h e env w'.
Proof. intros A m h env w e w' H. unfold try_catch. now rewrite H. Qed.

Lemma call_returns : forall ev env w v,
  answer_of env (length (trace w)) = Returns v ->
  call ev env w = (Ok v, with_trace w (trace w ++ [ev])).
Proof. intros ev env w v H. unfold call. now rewrite H. Qed.

Lemma call_throws : forall ev env w e,
  answer_of env (length (trace w)) = Throws e ->
  call ev env w = (Throw e, with_trace w (trace w ++ [ev])).
Proof. intros ev env w e H. unfold call. now rewrite H. Qed.

Section Quiet.

Variable P : Event -> bool.

Lemma quiet_ret : forall A (a : A), quiet P (ret a).
Proof.
  intros A a env w. exists []. simpl. now rewrite app_nil_r.
Qed.

Lemma quiet_throw : forall A e, quiet P (@throw A e).
Proof.
  intros A e env w. exists []. simpl. now rewrite app_nil_r.
Qed.

Lemma quiet_get_world : quiet P get_world.
Proof. intros env w. exists []. simpl. now rewrite app_nil_r. Qed.

Lemma quiet_get_env : quiet P get_env.
Proof. intros env w. exists []. simpl. now rewrite app_nil_r. Qed.

Lemma quiet_Date_now : quiet P Date_now.
Proof. intros env w. exists []. simpl. now rewrite app_nil_r. Qed.

Lemma quiet_set_replied : quiet P set_replied.
Proof. intros env w. exists []. simpl. now rewrite app_nil_r. Qed.

Lemma quiet_set_deferred : quiet P set_deferred.
Proof. intros env w. exists []. simpl. now rewrite app_nil_r. Qed.

Lemma quiet_bind : forall A B (m : M A) (k : A -> M B),
  quiet P m -> (forall a, quiet P (k a)) -> quiet P (bind m k).
Proof.
  intros A B m k Hm Hk env w. unfold bind.
  destruct (Hm env w) as (t1 & Ht1 & HP1 & Htm1 & Hr1).
  destruct (m env w) as [r w1]. simpl in *.
  destruct r as [a|e|c|]; try contradiction.
  - destruct (Hk a env w1) as (t2 & Ht2 & HP2 & Htm2 & Hr2).
    exists (t1 ++ t2). repeat split.
    + rewrite Ht2, Ht1. now rewrite app_assoc.
    + rewrite forallb_app, HP1, HP2. reflexivity.
    + congruence.
    + exact Hr2.
  - exists t1. simpl. auto.
Qed.

Lemma quiet_try_catch : forall A (m : M A) (h : JsError -> M A),
  quiet P m -> (forall e, quiet P (h e)) -> quiet P (try_catch m h).
Proof.
  intros A m h Hm Hh env w. unfold try_catch.
  destruct (Hm env w) as (t1 & Ht1 & HP1 & Htm1 & Hr1).
  destruct (m env w) as [r w1]. simpl in *.
  destruct r as [a|e|c|]; try contradiction.
  - exists t1. simpl. auto.
  - destruct (Hh e env w1) as (t2 & Ht2 & HP2 & Htm2 & Hr2).
    exists (t1 ++ t2). repeat split.
    + rewrite Ht2, Ht1. now rewrite app_assoc.
    + rewrite forallb_app, HP1, HP2. reflexivity.
    + congruence.
    + exact Hr2.
Qed.

Lemma quiet_for_each : forall A (xs : list A) (f : A -> M unit),
  (forall x, quiet P (f x)) -> quiet P (for_each xs f).
Proof.
  intros A xs f Hf. induction xs as [|x xs IH]; simpl.
  - apply quiet_ret.
  - apply quiet_bind; auto.
Qed.

Lemma quiet_call : forall ev, P ev = true -> quiet P (call ev).
Proof.
  intros ev Hev env w. exists [ev]. unfold call.
  destruct (answer_of env (length (trace w))); simpl; rewrite Hev; auto.
Qed.

Lemma quiet_emit : forall ev, P ev = true -> quiet P (emit ev).
Proof.
  intros ev Hev env w. exists [ev]. simpl. rewrite Hev. auto.
Qed.

Lemma quiet_log : forall lvl msg, P (EvLog lvl msg) = true -> quiet P (log lvl msg).
Proof.
  intros lvl msg Hev env w. exists [EvLog lvl msg]. simpl. rewrite Hev. auto.
Qed.

Lemma quiet_get_strict : forall v k, quiet P (get_strict v k).
Proof.
  intros v k. unfold get_strict.
  destruct (Js.nullish v); [apply quiet_throw | apply quiet_ret].
Qed.

Lemma quiet_as_text : forall v, quiet P (as_text v).
Proof.
  intros v. destruct v; simpl; try apply quiet_throw. apply quiet_ret.
Qed.

Lemma quiet_EmbedBuilder : forall title description footer,
  quiet P (EmbedBuilder title description footer).
Proof.
  intros title description footer. unfold EmbedBuilder.
  apply quiet_bind; [apply quiet_get_env | intros env].
  destruct (_ && _); [apply quiet_ret | apply quiet_throw].
Qed.

End Quiet.

Lemma added_app : forall w w' t,
  trace w' = trace w ++ t -> added w w' = t.
Proof.
  intros w w' t H. unfold added. rewrite H.
  rewrite skipn_app, skipn_all, Nat.sub_diag. reflexivity.
Qed.

(* ================================================================= *)
(** ** The slash command without a queue manager *)

(** C10. When no queue manager is attached to the client, [/ask] fails
    before it defers and before it submits a job: on an interaction that was
    neither deferred nor replied to when the command started, the run adds
    to the trace the error log line and one send, an ephemeral initial
    [reply] with the generic error text (no [deferReply], no [editReply],
    no [addJob]); the command returns when the transport accepts that
    reply. *)
Theorem ask_without_queue_manager_replies_once :
  forall (env : Env) (w : World) (interaction : Interaction),
    queueManager w = None ->
    deferred w = false ->
    replied w = false ->
    trace (snd (Ask.execute interaction env w)) =
      trace w ++
      [EvLog Error "Ask command failed";
       EvReply (mkPayload (Some "Error while processing the question.") [] true)] /\
    count is_add_job (added w (snd (Ask.execute interaction env w))) = 0 /\
    count is_defer (added w (snd (Ask.execute interaction env w))) = 0 /\
    count is_interaction_send (added w (snd (Ask.execute interaction env w))) = 1 /\
    deferred (snd (Ask.execute interaction env w)) = false /\
    fst (Ask.execute interaction env w) =
      match answer_of env (S (length (trace w))) with
      | Returns _ => Ok tt
      | Throws e => Throw e
      end.
Proof.
  intros env w interaction Hqm Hd Hr.
  assert (Hrun :
    trace (snd (Ask.execute interaction env w)) =
      trace w ++
      [EvLog Error "Ask command failed";
       EvReply (mkPayload (Some "Error while processing the question.") [] true)] /\
    deferred (snd (Ask.execute interaction env w)) = false /\
    fst (Ask.execute interaction env w) =
      match answer_of env (S (length (trace w))) with
      | Returns _ => Ok tt
      | Throws e => Throw e
      end).
  { unfold Ask.execute, try_catch, Ask.execute_body, bind, get_world.
    rewrite Hqm. unfold throw, Ask.execute_catch, bind, log, get_world.
    cbn [deferred replied with_trace]. rewrite Hd, Hr. cbn [orb].
    unfold reply, bind, call. cbn [trace with_trace].
    rewrite length_app, Nat.add_1_r. cbn [length].
    destruct (answer_of env (S (length (trace w)))); cbn;
      rewrite <- app_assoc; auto. }
  destruct Hrun as (Ht & Hdef & Hres).
  rewrite (added_app _ _ _ Ht). repeat split; auto.
Qed.

(** C10 at a fresh interaction and a client without queue manager. *)
Lemma ask_without_queue_manager_replies_once_witness :
  trace (snd (Ask.execute Sample.ask_interaction Sample.accepting Sample.fresh_world)) =
    [EvLog Error "Ask command failed";
     EvReply (mkPayload (Some "Error while processing the question.") [] true)] /\
  fst (Ask.execute Sample.ask_interaction Sample.accepting Sample.fresh_world) = Ok tt.
Proof.
  pose proof (ask_without_queue_manager_replies_once
                Sample.accepting Sample.fresh_world Sample.ask_interaction
                eq_refl eq_refl eq_refl) as H.
  split; [exact (proj1 H) | exact (proj2 (proj2 (proj2 (proj2 (proj2 H)))))].
Defined.

(* ================================================================= *)
(** ** The dispatcher *)

(** C5. The dispatch of a chat-input interaction whose name has no command
    in the registry, for an interaction that is neither deferred nor replied
    to (the state in which the gateway hands an interaction to the
    dispatcher, which reads the registry in its first statements), invokes
    no handler: the run is the handler-free [unknown_command], whatever the
    handlers are. It logs a warning and sends exactly one reply, the
    ephemeral "Unknown command."; it returns when the transport accepts
    that reply and rejects with the transport's error otherwise. *)
Theorem unknown_command_one_reply :
  forall (handlers : nat -> Interaction -> M unit) (env : Env) (w : World)
         (interaction : Interaction),
    isChatInputCommand interaction = true ->
    Js.truthy (InteractionCreate.lookup_command w interaction) = false ->
    deferred w = false ->
    replied w = false ->
    InteractionCreate.execute handlers interaction env w =
      InteractionCreate.unknown_command env w /\
    trace (snd (InteractionCreate.execute handlers interaction env w)) =
      trace w ++
      [EvLog Warn "Command not found";
       EvReply (mkPayload (Some "Unknown command.") [] true)] /\
    count is_interaction_send
      (added w (snd (InteractionCreate.execute handlers interaction env w))) = 1 /\
    fst (InteractionCreate.execute handlers interaction env w) =
      match answer_of env (S (length (trace w))) with
      | Returns _ => Ok tt
      | Throws e => Throw e
      end.
Proof.
  intros handlers env w interaction Hchat Hcmd Hdef Hrep.
  assert (Hrun : InteractionCreate.execute handlers interaction env w =
                 InteractionCreate.unknown_command env w).
  { unfold InteractionCreate.execute. rewrite Hchat. cbn [negb].
    unfold bind at 1. cbn [Date_now]. unfold bind at 1. cbn [get_world].
    rewrite Hcmd. reflexivity. }
  set (w1 := with_trace w (trace w ++ [EvLog Warn "Command not found"])).
  assert (Hl : length (trace w1) = S (length (trace w)))
    by (subst w1; cbn [trace with_trace]; rewrite length_app; cbn; lia).
  assert (Hunknown :
    InteractionCreate.unknown_command env w =
      reply (ephemeral_payload InteractionCreate.UNKNOWN_REPLY) env w1).
  { unfold InteractionCreate.unknown_command.
    rewrite (bind_ok _ _ (log Warn "Command not found") _ env w tt w1 eq_refl).
    rewrite (bind_ok _ _ get_world _ env w1 w1 w1 eq_refl).
    subst w1. cbn [replied deferred with_trace]. now rewrite Hrep, Hdef. }
  assert (Hreply :
    trace (snd (reply (ephemeral_payload InteractionCreate.UNKNOWN_REPLY) env w1)) =
      trace w ++
      [EvLog Warn "Command not found";
       EvReply (mkPayload (Some "Unknown command.") [] true)] /\
    fst (reply (ephemeral_payload InteractionCreate.UNKNOWN_REPLY) env w1) =
      match answer_of env (S (length (trace w))) with
      | Returns _ => Ok tt
      | Throws e => Throw e
      end).
  { unfold reply, bind, call. rewrite Hl.
    destruct (answer_of env (S (length (trace w)))); subst w1;
      cbn; now rewrite <- app_assoc. }
  rewrite Hrun, Hunknown. destruct Hreply as [Ht Hr].
  split; [reflexivity|]. split; [exact Ht|]. split; [|exact Hr].
  now rewrite (added_app _ _ _ Ht).
Qed.

(** C5 at a fresh interaction and an empty client, whose handler would
    throw if it were invoked. *)
Lemma unknown_command_one_reply_witness :
  InteractionCreate.execute Sample.throw_at_once Sample.ask_interaction
    Sample.accepting Sample.fresh_world =
  (Ok tt,
   with_replied
     (with_trace Sample.fresh_world
        [EvLog Warn "Command not found";
         EvReply (mkPayload (Some "Unknown command.") [] true)])
     true).
Proof.
  exact (proj1 (unknown_command_one_reply Sample.throw_at_once
                  Sample.accepting Sample.fresh_world Sample.ask_interaction
                  eq_refl eq_refl eq_refl eq_refl)).
Defined.

(** C3. When the handler of a dispatched interaction raises an error (the
    call of [command.execute] throws [e] and leaves the world [w1]), the
    dispatcher logs it and sends one error reply: a [followUp] when the
    interaction is deferred or replied to by then, an initial [reply]
    otherwise. So a handler that throws after deferring gets a follow-up
    and the dispatcher sends no initial reply. The error [e] goes no
    further: the dispatcher returns when the transport accepts the error
    reply, and what it throws otherwise is what that send threw. *)
Theorem dispatcher_one_error_reply :
  forall (handlers : nat -> Interaction -> M unit) (env : Env) (w w1 : World)
         (interaction : Interaction) (e : JsError),
    isChatInputCommand interaction = true ->
    Js.truthy (InteractionCreate.lookup_command w interaction) = true ->
    InteractionCreate.invoke handlers
      (InteractionCreate.lookup_command w interaction) interaction env w =
      (Throw e, w1) ->
    trace (snd (InteractionCreate.execute handlers interaction env w)) =
      trace w1 ++
      [EvLog Error "Command error";
       if latch w1
       then EvFollowUp (mkPayload (Some "There was an error executing this command.") [] true)
       else EvReply (mkPayload (Some "There was an error executing this command.") [] true)] /\
    count is_interaction_send
      (added w1 (snd (InteractionCreate.execute handlers interaction env w))) = 1 /\
    (latch w1 = true ->
       filter is_interaction_send
         (added w1 (snd (InteractionCreate.execute handlers interaction env w))) =
       [EvFollowUp (mkPayload (Some "There was an error executing this command.") [] true)]) /\
    fst (InteractionCreate.execute handlers interaction env w) =
      match answer_of env (S (length (trace w1))) with
      | Returns _ => Ok tt
      | Throws e' => Throw e'
      end.
Proof.
  intros handlers env w w1 interaction e Hchat Hcmd Hthrow.
  assert (Hrun :
    InteractionCreate.execute handlers interaction env w =
    InteractionCreate.execute_catch e env w1).
  { unfold InteractionCreate.execute. rewrite Hchat. cbn [negb].
    unfold bind at 1. cbn [Date_now]. unfold bind at 1. cbn [get_world].
    rewrite Hcmd. cbn [negb]. unfold try_catch, bind at 1.
    rewrite Hthrow. reflexivity. }
  assert (Hcatch :
    trace (snd (InteractionCreate.execute_catch e env w1)) =
      trace w1 ++
      [EvLog Error "Command error";
       if latch w1
       then EvFollowUp (mkPayload (Some "There was an error executing this command.") [] true)
       else EvReply (mkPayload (Some "There was an error executing this command.") [] true)] /\
    fst (InteractionCreate.execute_catch e env w1) =
      match answer_of env (S (length (trace w1))) with
      | Returns _ => Ok tt
      | Throws e' => Throw e'
      end).
  { unfold InteractionCreate.execute_catch, bind, log, get_world, latch.
    cbn [deferred replied with_trace].
    destruct (deferred w1 || replied w1);
      unfold followUp, reply, bind, call; cbn [trace with_trace];
      rewrite length_app, Nat.add_1_r; cbn [length];
      destruct (answer_of env (S (length (trace w1)))); cbn;
      rewrite <- app_assoc; auto. }
  rewrite Hrun. destruct Hcatch as (Ht & Hres).
  rewrite (added_app _ _ _ Ht).
  repeat split; auto.
  - destruct (latch w1); reflexivity.
  - intros Hl. rewrite Hl. reflexivity.
Qed.

(** C3 at a handler that defers and then throws: the error goes out as a
    follow-up. *)
Lemma dispatcher_one_error_reply_witness :
  trace (snd (InteractionCreate.execute Sample.defer_then_throw Sample.ask_interaction
                Sample.accepting Sample.ask_registry_world)) =
    [EvDeferReply;
     EvLog Error "Command error";
     EvFollowUp (mkPayload (Some "There was an error executing this command.") [] true)] /\
  fst (InteractionCreate.execute Sample.defer_then_throw Sample.ask_interaction
         Sample.accepting Sample.ask_registry_world) = Ok tt.
Proof.
  pose proof (dispatcher_one_error_reply Sample.defer_then_throw Sample.accepting
                Sample.ask_registry_world
                (mkWorld [EvDeferReply] true false []
                   (Some [(VStr "ask", Sample.command_at "ask" 7)]) None false)
                Sample.ask_interaction Sample.boom eq_refl eq_refl eq_refl) as H.
  split; [exact (proj1 H) | exact (proj2 (proj2 (proj2 H)))].
Defined.

(** A handler that throws before any reply gets an initial reply. *)
Example dispatcher_error_before_reply :
  trace (snd (InteractionCreate.execute Sample.throw_at_once Sample.ask_interaction
                Sample.accepting Sample.ask_registry_world)) =
    [EvLog Error "Command error";
     EvReply (mkPayload (Some "There was an error executing this command.") [] true)].
Proof. reflexivity. Qed.

(* ================================================================= *)
(** ** The typing heartbeat of the mention flow *)

Example question_of_mention :
  trim (strip_mentions "42" "<@42> What is <@!42>Starknet?  ") =
  "What is Starknet?".
Proof. reflexivity. Qed.

(** A message that only mentions the bot carries no question. *)
Example mention_without_question :
  MessageCreate.execute
    (mkMessage false "u1" "alice" " <@42> " "m1" ["42"] (Some "42") true)
    Sample.accepting Sample.queue_world =
  (Ok tt,
   mkWorld
     [EvMessageReply (mkPayload (Some "Provide a question after mentioning me.") [] false)]
     false false [] None (Some (mkQueueManager true)) false).
Proof. reflexivity. Qed.

Lemma count_app : forall f a b, count f (a ++ b) = count f a + count f b.
Proof.
  intros f a b. unfold count. now rewrite filter_app, length_app.
Qed.

Lemma not_timer_counts : forall t,
  forallb not_timer t = true ->
  count is_set_interval t = 0 /\ count is_clear_interval t = 0.
Proof.
  induction t as [|ev t IH]; intros H; [split; reflexivity|].
  simpl in H. apply andb_prop in H. destruct H as [Hev Ht].
  destruct (IH Ht) as [Hs Hc]. unfold count in *. simpl.
  unfold not_timer in Hev. apply negb_true_iff, orb_false_iff in Hev.
  destruct Hev as [H1 H2]. rewrite H1, H2. auto.
Qed.

Lemma remove_fresh_timer : forall active,
  remove Nat.eq_dec (fresh_timer active) (fresh_timer active :: active) = active.
Proof.
  intros active. rewrite remove_cons.
  apply notin_remove. intros Hin.
  assert (Hle : Forall (fun k => k <= list_max active) active)
    by (apply list_max_le; lia).
  rewrite Forall_forall in Hle. specialize (Hle _ Hin).
  unfold fresh_timer in Hle. lia.
Qed.

Lemma quiet_timer_safe : forall A (m : M A), quiet not_timer m -> timer_safe m.
Proof.
  intros A m Hm env w. destruct (Hm env w) as (t & Ht & HP & Htm & Hr).
  exists t. destruct (not_timer_counts t HP) as [Hs Hc].
  rewrite Hs, Hc. auto.
Qed.

Lemma timer_safe_try_catch : forall A (m : M A) (h : JsError -> M A),
  timer_safe m -> (forall e, timer_safe (h e)) -> timer_safe (try_catch m h).
Proof.
  intros A m h Hm Hh env w. unfold try_catch.
  destruct (Hm env w) as (t1 & Ht1 & HP1 & Htm1 & Hr1).
  destruct (m env w) as [r w1]. simpl in *.
  destruct r as [a|e|c|]; try contradiction.
  - exists t1. simpl. auto.
  - destruct (Hh e env w1) as (t2 & Ht2 & HP2 & Htm2 & Hr2).
    exists (t1 ++ t2). repeat split.
    + rewrite Ht2, Ht1. now rewrite app_assoc.
    + rewrite !count_app. lia.
    + congruence.
    + exact Hr2.
Qed.

Lemma MessageCreate_toChunks_returns : forall text,
  exists chunks,
    MessageCreate.toChunks text None = Some chunks /\
    join chunks = text /\
    Forall (fun c => String.length c <= 1900) chunks /\
    length chunks = ceil_div (String.length text) 1900.
Proof. intros text. apply toChunks_default_returns. lia. Qed.

Lemma Ask_toChunks_returns : forall text,
  exists chunks,
    Ask.toChunks text None = Some chunks /\
    join chunks = text /\
    Forall (fun c => String.length c <= 3800) chunks /\
    length chunks = ceil_div (String.length text) 3800.
Proof. intros text. apply toChunks_default_returns. lia. Qed.

Lemma quiet_message_reply : forall p, quiet not_timer (message_reply p).
Proof.
  intros p. unfold message_reply. apply quiet_bind.
  - now apply quiet_call.
  - intros _. apply quiet_ret.
Qed.

Lemma quiet_channel_send : forall p, quiet not_timer (channel_send p).
Proof.
  intros p. unfold channel_send. apply quiet_bind.
  - now apply quiet_call.
  - intros _. apply quiet_ret.
Qed.

(** The guarded block of the mention flow neither sets nor clears a timer,
    and it returns or throws. *)
Lemma quiet_ask_and_deliver : forall message question,
  quiet not_timer (MessageCreate.ask_and_deliver message question).
Proof.
  intros message question. unfold MessageCreate.ask_and_deliver.
  apply quiet_bind; [apply quiet_get_env | intros env'].
  apply quiet_bind; [apply quiet_Date_now | intros ts].
  apply quiet_bind; [now apply quiet_call | intros job].
  apply quiet_bind; [apply quiet_get_strict | intros id].
  apply quiet_bind; [now apply quiet_call | intros result].
  apply quiet_bind; [apply quiet_as_text | intros text].
  unfold MessageCreate.deliver.
  apply quiet_bind; [apply quiet_EmbedBuilder | intros embed].
  apply quiet_bind; [apply quiet_message_reply | intros _].
  destruct (Nat.ltb DISPLAY_CEILING (String.length text)); [|apply quiet_ret].
  destruct (MessageCreate_toChunks_returns (slice_from text DISPLAY_CEILING))
    as (chunks & Hc & _).
  rewrite Hc. unfold send_chunks. apply quiet_for_each.
  intros c. apply quiet_channel_send.
Qed.

(** The heartbeat around the await: the timer set before the guarded block
    is cleared when the block returns and when it throws. *)
Lemma typing_and_ask_run : forall message question env w,
  (exists e,
     answer_of env (length (trace w)) = Throws e /\
     MessageCreate.typing_and_ask message question env w =
       (Throw e, with_trace w (trace w ++ [EvSendTyping]))) \/
  (exists v mid,
     answer_of env (length (trace w)) = Returns v /\
     forallb not_timer mid = true /\
     trace (snd (MessageCreate.typing_and_ask message question env w)) =
       trace w ++
       [EvSendTyping; EvSetInterval (fresh_timer (timers w)) 8000] ++ mid ++
       [EvClearInterval (fresh_timer (timers w))] /\
     timers (snd (MessageCreate.typing_and_ask message question env w)) = timers w /\
     returns_or_throws (fst (MessageCreate.typing_and_ask message question env w))).
Proof.
  intros message question env w.
  destruct (answer_of env (length (trace w))) as [v|e] eqn:Hans.
  - right. exists v.
    set (w1 := with_trace w (trace w ++ [EvSendTyping])).
    set (id := fresh_timer (timers w)).
    set (w2 := with_timers (with_trace w1 (trace w1 ++ [EvSetInterval id 8000]))
                 (id :: timers w1)).
    assert (Hst : sendTyping env w = (Ok tt, w1)).
    { unfold sendTyping. now rewrite (bind_ok _ _ _ _ _ _ _ _ (call_returns _ _ _ _ Hans)). }
    assert (Hsi : setInterval 8000 env w1 = (Ok id, w2)) by reflexivity.
    unfold MessageCreate.typing_and_ask.
    rewrite (bind_ok _ _ _ _ _ _ _ _ Hst), (bind_ok _ _ _ _ _ _ _ _ Hsi).
    unfold try_finally.
    destruct (quiet_ask_and_deliver message question env w2)
      as (mid & Hmid & HP & Htm & Hr).
    destruct (MessageCreate.ask_and_deliver message question env w2) as [r w3].
    simpl in Hmid, Htm, Hr.
    exists mid. split; [reflexivity|]. split; [exact HP|].
    assert (Htr : trace w3 ++ [EvClearInterval id] =
              trace w ++ [EvSendTyping; EvSetInterval id 8000] ++ mid ++
              [EvClearInterval id]).
    { rewrite Hmid. subst w2 w1. cbn [trace with_timers with_trace].
      rewrite <- !app_assoc. reflexivity. }
    assert (Hti : remove Nat.eq_dec id (timers w3) = timers w).
    { rewrite Htm. subst w2 w1. cbn [timers with_timers with_trace].
      apply remove_fresh_timer. }
    destruct r as [a|e|c|]; try contradiction; cbn; auto.
  - left. exists e. split; [reflexivity|].
    unfold MessageCreate.typing_and_ask, sendTyping.
    rewrite (bind_throw _ _ _ _ _ _ e (with_trace w (trace w ++ [EvSendTyping]))).
    + reflexivity.
    + now rewrite (bind_throw _ _ _ _ _ _ _ _ (call_throws _ _ _ _ Hans)).
Qed.

Lemma timer_safe_typing_and_ask : forall message question,
  timer_safe (MessageCreate.typing_and_ask message question).
Proof.
  intros message question env w.
  destruct (typing_and_ask_run message question env w)
    as [(e & _ & Hrun) | (v & mid & _ & HP & Ht & Htm & Hr)].
  - rewrite Hrun. exists [EvSendTyping]. simpl. auto.
  - eexists. split; [exact Ht|]. repeat split; auto.
    destruct (not_timer_counts mid HP) as [Hs Hc].
    change ([EvSendTyping; EvSetInterval (fresh_timer (timers w)) 8000] ++ mid ++
            [EvClearInterval (fresh_timer (timers w))])
      with ([EvSendTyping; EvSetInterval (fresh_timer (timers w)) 8000] ++
            (mid ++ [EvClearInterval (fresh_timer (timers w))])).
    rewrite !count_app, Hs, Hc. reflexivity.
Qed.

Lemma timer_safe_execute_body : forall message,
  timer_safe (MessageCreate.execute_body message).
Proof.
  intros message. unfold MessageCreate.execute_body.
  destruct (author_bot message); [apply quiet_timer_safe, quiet_ret|].
  destruct (client_user message) as [me|]; [|apply quiet_timer_safe, quiet_ret].
  destruct (negb _); [apply quiet_timer_safe, quiet_ret|].
  destruct (String.eqb _ _); [apply quiet_timer_safe, quiet_message_reply|].
  intros env w. rewrite (bind_ok _ _ get_world _ env w w w eq_refl).
  destruct (queueManager w);
    [|apply (quiet_timer_safe _ _ (quiet_message_reply _))].
  destruct (negb _); [apply (quiet_timer_safe _ _ (quiet_message_reply _))|].
  apply timer_safe_typing_and_ask.
Qed.

Lemma quiet_MessageCreate_catch : forall e,
  quiet not_timer (MessageCreate.execute_catch e).
Proof.
  intros e. unfold MessageCreate.execute_catch.
  apply quiet_bind; [now apply quiet_log | intros _].
  apply quiet_try_catch; [apply quiet_message_reply | intros _; apply quiet_ret].
Qed.

(** C9. In the mention flow the typing heartbeat never outlives the
    handler. Whatever the collaborators answer (a result, a timeout, any
    exception), a run of [messageCreateEvent.execute] has cleared as many
    interval timers as it has set and leaves the active timers as they
    were when it started; and the part that awaits the job result,
    [typing_and_ask], once the first typing signal is accepted, sets the
    timer before the guarded block and ends with [clearInterval] of the same
    timer, after a block that touches no timer, whether the block returned
    or threw. *)
Theorem typing_heartbeat_always_cleared :
  forall (env : Env) (w : World) (message : Message),
    timers (snd (MessageCreate.execute message env w)) = timers w /\
    count is_set_interval (added w (snd (MessageCreate.execute message env w))) =
    count is_clear_interval (added w (snd (MessageCreate.execute message env w))) /\
    returns_or_throws (fst (MessageCreate.execute message env w)) /\
    (forall question v,
       answer_of env (length (trace w)) = Returns v ->
       exists mid,
         forallb not_timer mid = true /\
         trace (snd (MessageCreate.typing_and_ask message question env w)) =
           trace w ++
           [EvSendTyping; EvSetInterval (fresh_timer (timers w)) 8000] ++ mid ++
           [EvClearInterval (fresh_timer (timers w))] /\
         timers (snd (MessageCreate.typing_and_ask message question env w)) =
           timers w).
Proof.
  intros env w message.
  assert (Hsafe : timer_safe (MessageCreate.execute message)).
  { unfold MessageCreate.execute. apply timer_safe_try_catch.
    - apply timer_safe_execute_body.
    - intros e. apply quiet_timer_safe, quiet_MessageCreate_catch. }
  destruct (Hsafe env w) as (t & Ht & Hcount & Htm & Hr).
  rewrite (added_app _ _ _ Ht). repeat split; auto.
  intros question v Hans.
  destruct (typing_and_ask_run message question env w)
    as [(e & He & _) | (v' & mid & _ & HP & Htr & Htm' & _)].
  - congruence.
  - exists mid. auto.
Qed.

(** The mention flow when the await of the job result times out: the timer
    set before the await is cleared, then the error reply goes out. *)
Example typing_heartbeat_cleared_on_timeout :
  MessageCreate.execute Sample.mention_message Sample.timing_out Sample.queue_world =
  (Ok tt,
   mkWorld
     [EvSendTyping;
      EvSetInterval 1 8000;
      EvAddJob (mkJob "discord" "u1" "alice" "What is Starknet?" "m1" 0);
      EvWaitForJobCompletion (VStr "job-1") 60000;
      EvClearInterval 1;
      EvLog Error "messageCreate handler failed";
      EvMessageReply (mkPayload (Some "Error processing your question. Try /ask.") [] false)]
     false false [] None (Some (mkQueueManager true)) false).
Proof. reflexivity. Qed.

(* ================================================================= *)
(** ** Delivery of the answer *)

(** The catch block of [/ask]: a log line and one send, an edit of the
    deferred reply when the latch is set, an ephemeral reply otherwise. *)
Lemma ask_catch_run : forall e env w1,
  exists w',
    Ask.execute_catch e env w1 =
      (match answer_of env (S (length (trace w1))) with
       | Returns _ => Ok tt
       | Throws e' => Throw e'
       end, w') /\
    trace w' =
      trace w1 ++
      [EvLog Error "Ask command failed";
       if latch w1
       then EvEditReply (text_payload (Ask.error_message e))
       else EvReply (ephemeral_payload (Ask.error_message e))].
Proof.
  intros e env w1.
  unfold Ask.execute_catch, bind, log, get_world, latch.
  cbn [deferred replied with_trace].
  destruct (deferred w1 || replied w1);
    unfold editReply, reply, bind, call; cbn [trace with_trace];
    rewrite length_app, Nat.add_1_r; cbn [length];
    destruct (answer_of env (S (length (trace w1)))); cbn;
    eexists; (split; [reflexivity|]); cbn; now rewrite <- app_assoc.
Qed.

Lemma mention_catch_returns : forall e env w,
  fst (MessageCreate.execute_catch e env w) = Ok tt.
Proof.
  intros e env w. unfold MessageCreate.execute_catch.
  set (w1 := with_trace w (trace w ++ [EvLog Error "messageCreate handler failed"])).
  rewrite (bind_ok _ _ (log Error "messageCreate handler failed") _ env w tt w1 eq_refl).
  unfold try_catch, message_reply, bind, call.
  destruct (answer_of env (length (trace w1))); reflexivity.
Qed.

Lemma mention_catch_trace : forall e env w,
  trace (snd (MessageCreate.execute_catch e env w)) =
    trace w ++
    [EvLog Error "messageCreate handler failed";
     EvMessageReply
       (mkPayload (Some "Error processing your question. Try /ask.") [] false)].
Proof.
  intros e env w. unfold MessageCreate.execute_catch.
  set (w1 := with_trace w (trace w ++ [EvLog Error "messageCreate handler failed"])).
  rewrite (bind_ok _ _ (log Error "messageCreate handler failed") _ env w tt w1 eq_refl).
  unfold try_catch, message_reply, bind, call.
  destruct (answer_of env (length (trace w1))); subst w1; cbn;
    now rewrite <- app_assoc.
Qed.

Lemma followUp_sends : sends_as EvFollowUp followUp.
Proof.
  intros p env w. unfold followUp, bind, call.
  destruct (answer_of env (length (trace w))); eexists; repeat split.
Qed.

Lemma editReply_sends : sends_as EvEditReply editReply.
Proof.
  intros p env w. unfold editReply, bind, call.
  destruct (answer_of env (length (trace w))); eexists; repeat split.
Qed.

Lemma channel_send_sends : sends_as EvChannelSend channel_send.
Proof.
  intros p env w. unfold channel_send, bind, call.
  destruct (answer_of env (length (trace w))); eexists; repeat split.
Qed.

Lemma message_reply_sends : sends_as EvMessageReply message_reply.
Proof.
  intros p env w. unfold message_reply, bind, call.
  destruct (answer_of env (length (trace w))); eexists; repeat split.
Qed.

Section Sends.

Variable A : Type.
Variable payload_of : A -> Payload.
Variable mk : Payload -> Event.
Variable send : Payload -> M unit.
Hypothesis Hsend : sends_as mk send.

(** The loop over the chunks: the sends go out in the order of the chunks
    and stop at the first one the transport refuses. [k] sends are made. *)
Lemma for_each_sends_in_order : forall (xs : list A) env w,
  exists k w',
    k <= length xs /\
    trace w' = trace w ++ map (fun x => mk (payload_of x)) (firstn k xs) /\
    deferred w' = deferred w /\
    (forall j, S j < k ->
       exists v, answer_of env (length (trace w) + j) = Returns v) /\
    ((k = length xs /\
      (forall j, j < k ->
         exists v, answer_of env (length (trace w) + j) = Returns v) /\
      for_each xs (fun x => send (payload_of x)) env w = (Ok tt, w')) \/
     (exists e,
        1 <= k /\
        answer_of env (length (trace w) + (k - 1)) = Throws e /\
        for_each xs (fun x => send (payload_of x)) env w = (Throw e, w'))).
Proof.
  induction xs as [|x xs IH]; intros env w.
  - exists 0, w. cbn. rewrite app_nil_r. repeat split; auto; try lia.
    left. repeat split. intros j Hj. lia.
  - cbn [for_each].
    destruct (Hsend (payload_of x) env w) as (w1 & Hrun1 & Ht1 & Hd1).
    assert (Hlen : length (trace w1) = S (length (trace w)))
      by (rewrite Ht1, length_app; simpl; lia).
    destruct (answer_of env (length (trace w))) as [v|e] eqn:Hans.
    + rewrite (bind_ok _ _ _ _ _ _ _ _ Hrun1).
      destruct (IH env w1) as (k & w' & Hk & Ht & Hd & Hseq & Hend).
      exists (S k), w'. split; [simpl; lia|]. split.
      { rewrite Ht, Ht1. simpl. now rewrite <- app_assoc. }
      split; [congruence|]. split.
      { intros [|j] Hj.
        - exists v. now rewrite Nat.add_0_r.
        - destruct (Hseq j) as (v' & Hv'); [lia|]. exists v'.
          rewrite <- Hv'. f_equal. lia. }
      destruct Hend as [(Hkk & Hall & Hrun)|(e & Hk1 & He & Hrun)].
      * left. split; [simpl; congruence|]. split; [|exact Hrun].
        intros [|j] Hj.
        -- exists v. now rewrite Nat.add_0_r.
        -- destruct (Hall j) as (v' & Hv'); [lia|]. exists v'.
           rewrite <- Hv'. f_equal. lia.
      * right. exists e. split; [lia|]. split; [|exact Hrun].
        rewrite <- He. f_equal. lia.
    + rewrite (bind_throw _ _ _ _ _ _ _ _ Hrun1).
      exists 1, w1. split; [simpl; lia|]. split; [exact Ht1|].
      split; [exact Hd1|]. split; [intros j Hj; lia|].
      right. exists e. split; [lia|]. split; [|reflexivity].
      now rewrite Nat.add_0_r.
Qed.

Variable mk1 : Payload -> Event.
Variable send1 : Payload -> M unit.
Hypothesis Hsend1 : sends_as mk1 send1.

(** A first send followed by the loop over the chunks. *)
Lemma send_then_each_in_order : forall p (xs : list A) env w,
  exists k w',
    1 <= k <= S (length xs) /\
    trace w' =
      trace w ++ firstn k (mk1 p :: map (fun x => mk (payload_of x)) xs) /\
    deferred w' = deferred w /\
    (forall j, S j < k ->
       exists v, answer_of env (length (trace w) + j) = Returns v) /\
    match answer_of env (length (trace w) + (k - 1)) with
    | Returns _ =>
        k = S (length xs) /\
        (send1 p ;; for_each xs (fun x => send (payload_of x))) env w = (Ok tt, w')
    | Throws e =>
        (send1 p ;; for_each xs (fun x => send (payload_of x))) env w = (Throw e, w')
    end.
Proof.
  intros p xs env w.
  destruct (Hsend1 p env w) as (w1 & Hrun1 & Ht1 & Hd1).
  assert (Hlen : length (trace w1) = S (length (trace w)))
    by (rewrite Ht1, length_app; simpl; lia).
  destruct (answer_of env (length (trace w))) as [v|e] eqn:Hans.
  - rewrite (bind_ok _ _ _ _ _ _ _ _ Hrun1).
    destruct (for_each_sends_in_order xs env w1)
      as (k & w' & Hk & Ht & Hd & Hseq & Hend).
    exists (S k), w'. split; [lia|]. split.
    { rewrite Ht, Ht1, <- app_assoc. simpl. now rewrite firstn_map. }
    split; [congruence|]. split.
    { intros [|j] Hj.
      - exists v. now rewrite Nat.add_0_r.
      - destruct (Hseq j) as (v' & Hv'); [lia|]. exists v'.
        rewrite <- Hv'. f_equal. lia. }
    cbn [Nat.sub]. rewrite Nat.sub_0_r.
    destruct Hend as [(Hkk & Hall & Hrun)|(e & Hk1 & He & Hrun)].
    + destruct k as [|k].
      * rewrite Nat.add_0_r, Hans. split; [congruence | exact Hrun].
      * destruct (Hall k) as (v' & Hv'); [lia|].
        replace (length (trace w) + S k) with (length (trace w1) + k) by lia.
        rewrite Hv'. split; [congruence | exact Hrun].
    + replace (length (trace w) + k) with (length (trace w1) + (k - 1)) by lia.
      rewrite He. exact Hrun.
  - rewrite (bind_throw _ _ _ _ _ _ _ _ Hrun1).
    exists 1, w1. split; [lia|]. split; [exact Ht1|]. split; [exact Hd1|].
    split; [intros j Hj; lia|].
    cbn [Nat.sub]. rewrite Nat.add_0_r, Hans. reflexivity.
Qed.

End Sends.

Lemma string_length_append : forall a b,
  String.length (a ++ b) = String.length a + String.length b.
Proof.
  induction a as [|c a IH]; intros b; simpl; [reflexivity | now rewrite IH].
Qed.

Lemma slice_short : forall s n, String.length s <= n -> slice s 0 n = s.
Proof.
  intros s n H. unfold slice. rewrite Nat.sub_0_r.
  rewrite substring_truncate by lia. rewrite Nat.sub_0_r. apply substring_all.
Qed.

Lemma slice_from_length : forall s i,
  String.length (slice_from s i) = String.length s - i.
Proof.
  intros s i. unfold slice_from. rewrite substring_length. lia.
Qed.

(** The builder accepts the first 4096 code units of a text that is not
    empty. *)
Lemma description_valid : forall text,
  text <> "" -> valid_length 1 4096 (slice text 0 DISPLAY_CEILING) = true.
Proof.
  intros text Hne. unfold valid_length. rewrite slice_length.
  assert (0 < String.length text) by (destruct text; [congruence | simpl; lia]).
  apply andb_true_intro. split; apply Nat.leb_le; unfold DISPLAY_CEILING; lia.
Qed.

Lemma EmbedBuilder_returns : forall title description footer env w,
  valid_length 1 256 title = true ->
  valid_length 1 4096 description = true ->
  footer_valid footer = true ->
  EmbedBuilder title description footer env w =
    (Ok (mkEmbed title description footer), w).
Proof.
  intros title description footer env w Ht Hd Hf.
  unfold EmbedBuilder, bind, get_env. now rewrite Ht, Hd, Hf.
Qed.

(** The builder rejects the empty description. *)
Lemma EmbedBuilder_empty : forall title footer env w,
  EmbedBuilder title "" footer env w = (Throw (embed_error (host env)), w).
Proof.
  intros title footer env w. unfold EmbedBuilder, bind, get_env.
  cbn. now rewrite andb_false_r.
Qed.

(** The slash command delivers in order. *)
Lemma ask_deliver_in_order : forall interaction text env w,
  text <> "" ->
  exists chunks,
    Ask.toChunks (slice_from text 4096) None = Some chunks /\
    join chunks = slice_from text 4096 /\
    Forall (fun c => String.length c <= 3800) chunks /\
    length chunks = ceil_div (String.length text - 4096) 3800 /\
    exists k w',
    1 <= k <= S (length chunks) /\
    trace w' =
      trace w ++
      firstn k
        (delivery_plan
           (EvEditReply
              (embed_payload
                 (mkEmbed "Answer" (slice text 0 4096)
                    (FooterLatency
                       (clock env (length (trace w)) - createdTimestamp interaction)))))
           EvFollowUp chunks) /\
    deferred w' = deferred w /\
    (forall j, S j < k ->
       exists v, answer_of env (length (trace w) + j) = Returns v) /\
    match answer_of env (length (trace w) + (k - 1)) with
    | Returns _ =>
        k = S (length chunks) /\ Ask.deliver interaction text env w = (Ok tt, w')
    | Throws e => Ask.deliver interaction text env w = (Throw e, w')
    end.
Proof.
  intros interaction text env w Hne.
  destruct (Ask_toChunks_returns (slice_from text DISPLAY_CEILING))
    as (chunks & Hc & Hjoin & Hlen & Hcount).
  rewrite slice_from_length in Hcount.
  exists chunks. split; [exact Hc|]. split; [exact Hjoin|].
  split; [exact Hlen|]. split; [exact Hcount|].
  unfold Ask.deliver.
  rewrite (bind_ok _ _ Date_now _ env w _ w eq_refl).
  change 4096 with DISPLAY_CEILING.
  assert (Hdesc : (if Nat.leb (String.length text) DISPLAY_CEILING
                   then text else slice text 0 DISPLAY_CEILING)
                  = slice text 0 DISPLAY_CEILING).
  { destruct (Nat.leb_spec (String.length text) DISPLAY_CEILING) as [Hle|Hgt];
      [now rewrite slice_short | reflexivity]. }
  rewrite Hdesc.
  rewrite (bind_ok _ _ _ _ _ _ _ _
             (EmbedBuilder_returns "Answer" _
                (FooterLatency
                   (clock env (length (trace w)) - createdTimestamp interaction))
                env w eq_refl (description_valid text Hne) eq_refl)).
  destruct (Nat.leb_spec (String.length text) DISPLAY_CEILING) as [Hle|Hgt].
  - assert (Hnil : chunks = []).
    { apply length_zero_iff_nil. rewrite Hcount.
      replace (String.length text - DISPLAY_CEILING) with 0 by lia.
      apply ceil_div_zero. lia. }
    subst chunks.
    destruct (editReply_sends
                (embed_payload
                   (mkEmbed "Answer" (slice text 0 DISPLAY_CEILING)
                      (FooterLatency
                         (clock env (length (trace w)) - createdTimestamp interaction))))
                env w) as (w1 & Hrun & Ht & Hd).
    exists 1, w1. split; [simpl; lia|].
    split; [exact Ht|]. split; [exact Hd|]. split; [intros j Hj; lia|].
    cbn [Nat.sub length]. rewrite Nat.add_0_r, Hrun.
    destruct (answer_of env (length (trace w))); auto.
  - rewrite Hc. unfold send_chunks, delivery_plan.
    destruct (send_then_each_in_order string text_payload EvFollowUp followUp
                followUp_sends EvEditReply editReply editReply_sends
                (embed_payload
                   (mkEmbed "Answer" (slice text 0 DISPLAY_CEILING)
                      (FooterLatency
                         (clock env (length (trace w)) - createdTimestamp interaction))))
                chunks env w) as (k & w' & Hk & Ht & Hd & Hseq & Hend).
    exists k, w'. split; [exact Hk|].
    split; [exact Ht|]. split; [exact Hd|]. split; [exact Hseq|]. exact Hend.
Qed.

(** The mention flow delivers in order. *)
Lemma mention_deliver_in_order : forall message text env w,
  text <> "" ->
  String.length (author_username message) <= 2038 ->
  exists chunks,
    MessageCreate.toChunks (slice_from text 4096) None = Some chunks /\
    join chunks = slice_from text 4096 /\
    Forall (fun c => String.length c <= 1900) chunks /\
    length chunks = ceil_div (String.length text - 4096) 1900 /\
    exists k w',
    1 <= k <= S (length chunks) /\
    trace w' =
      trace w ++
      firstn k
        (delivery_plan
           (EvMessageReply
              (embed_payload
                 (mkEmbed "Answer" (slice text 0 4096)
                    (FooterAskedBy (author_username message)))))
           EvChannelSend chunks) /\
    timers w' = timers w /\
    (forall j, S j < k ->
       exists v, answer_of env (length (trace w) + j) = Returns v) /\
    match answer_of env (length (trace w) + (k - 1)) with
    | Returns _ =>
        k = S (length chunks) /\
        MessageCreate.deliver message text env w = (Ok tt, w')
    | Throws e => MessageCreate.deliver message text env w = (Throw e, w')
    end.
Proof.
  intros message text env w Hne Hname.
  destruct (MessageCreate_toChunks_returns (slice_from text DISPLAY_CEILING))
    as (chunks & Hc & Hjoin & Hlen & Hcount).
  rewrite slice_from_length in Hcount.
  exists chunks. split; [exact Hc|]. split; [exact Hjoin|].
  split; [exact Hlen|]. split; [exact Hcount|].
  assert (Hfooter : footer_valid (FooterAskedBy (author_username message)) = true).
  { unfold footer_valid, valid_length. rewrite string_length_append.
    apply andb_true_intro. split; apply Nat.leb_le; simpl; lia. }
  unfold MessageCreate.deliver.
  change 4096 with DISPLAY_CEILING.
  rewrite (bind_ok _ _ _ _ _ _ _ _
             (EmbedBuilder_returns "Answer" _ _ env w eq_refl
                (description_valid text Hne) Hfooter)).
  set (p := embed_payload
              (mkEmbed "Answer" (slice text 0 DISPLAY_CEILING)
                 (FooterAskedBy (author_username message)))).
  assert (Hq : forall xs, exists t,
            trace (snd ((message_reply p ;;
                         for_each xs (fun x => channel_send (text_payload x))) env w))
              = trace w ++ t /\
            timers (snd ((message_reply p ;;
                          for_each xs (fun x => channel_send (text_payload x))) env w))
              = timers w).
  { intros xs.
    assert (Hquiet : quiet not_timer
              (message_reply p ;; for_each xs (fun x => channel_send (text_payload x)))).
    { apply quiet_bind; [apply quiet_message_reply | intros _].
      apply quiet_for_each. intros c. apply quiet_channel_send. }
    destruct (Hquiet env w) as (t & Ht & _ & Htm & _). exists t. auto. }
  destruct (Nat.ltb_spec DISPLAY_CEILING (String.length text)) as [Hgt|Hle].
  - rewrite Hc. unfold send_chunks, delivery_plan.
    destruct (send_then_each_in_order string text_payload EvChannelSend channel_send
                channel_send_sends EvMessageReply message_reply message_reply_sends
                p chunks env w) as (k & w' & Hk & Ht & Hd & Hseq & Hend).
    exists k, w'. split; [exact Hk|].
    split; [exact Ht|].
    split; [|split; [exact Hseq | exact Hend]].
    destruct (Hq chunks) as (t & _ & Htm).
    destruct (answer_of env (length (trace w) + (k - 1)));
      [destruct Hend as [_ Hend]|]; rewrite Hend in Htm; exact Htm.
  - assert (Hnil : chunks = []).
    { apply length_zero_iff_nil. rewrite Hcount.
      replace (String.length text - DISPLAY_CEILING) with 0 by lia.
      apply ceil_div_zero. lia. }
    subst chunks. unfold delivery_plan. cbn [map].
    destruct (send_then_each_in_order string text_payload EvChannelSend channel_send
                channel_send_sends EvMessageReply message_reply message_reply_sends
                p [] env w) as (k & w' & Hk & Ht & Hd & Hseq & Hend).
    exists k, w'. split; [exact Hk|].
    split; [exact Ht|].
    split; [|split; [exact Hseq | exact Hend]].
    destruct (Hq []) as (t & _ & Htm).
    destruct (answer_of env (length (trace w) + (k - 1)));
      [destruct Hend as [_ Hend]|]; rewrite Hend in Htm; exact Htm.
Qed.

(** The slash command reaches the delivery with the text of the answer once
    the reply is deferred, the job is accepted and its result has come. *)
Lemma ask_execute_reaches_delivery :
  forall env w interaction qm question v0 job result text,
    queueManager w = Some qm ->
    option_question interaction = Some question ->
    answer_of env (length (trace w)) = Returns v0 ->
    answer_of env (length (trace w) + 1) = Returns job ->
    Js.nullish job = false ->
    answer_of env (length (trace w) + 2) = Returns result ->
    pickAnswer result = VStr text ->
    exists w3,
      Ask.execute_body interaction env w = Ask.deliver interaction text env w3 /\
      trace w3 =
        trace w ++
        [EvDeferReply;
         EvAddJob (mkJob "discord" (user_id interaction) (user_username interaction)
                     question (interaction_id interaction)
                     (clock env (length (trace w) + 1)));
         EvWaitForJobCompletion (Js.opt_get job "id") (timeoutMs_of env)] /\
      deferred w3 = true.
Proof.
  intros env w interaction qm question v0 job result text
    Hqm Hq H0 H1 Hjob H2 Hpick.
  unfold Ask.execute_body.
  rewrite (bind_ok _ _ get_world _ env w w w eq_refl), Hqm.
  unfold options_get_required. rewrite Hq.
  rewrite (bind_ok _ _ (ret question) _ env w question w eq_refl).
  set (w1 := with_deferred (with_trace w (trace w ++ [EvDeferReply])) true).
  assert (Hd : deferReply env w = (Ok tt, w1)).
  { unfold deferReply. now rewrite (bind_ok _ _ _ _ _ _ _ _ (call_returns _ _ _ _ H0)). }
  rewrite (bind_ok _ _ _ _ _ _ _ _ Hd).
  rewrite (bind_ok _ _ get_env _ env w1 env w1 eq_refl).
  assert (Hl1 : length (trace w1) = length (trace w) + 1)
    by (subst w1; cbn [trace with_deferred with_trace]; now rewrite length_app).
  rewrite (bind_ok _ _ Date_now _ env w1 _ w1 eq_refl).
  rewrite Hl1.
  rewrite <- Hl1 in H1.
  rewrite (bind_ok _ _ _ _ _ _ _ _ (call_returns _ _ _ _ H1)).
  set (w2 := with_trace w1 _).
  unfold get_strict. rewrite Hjob.
  rewrite (bind_ok _ _ (ret (Js.opt_get job "id")) _ env w2 _ w2 eq_refl).
  assert (Hl2 : length (trace w2) = length (trace w) + 2)
    by (subst w2 w1; cbn [trace with_deferred with_trace];
        rewrite !length_app; simpl; lia).
  rewrite <- Hl2 in H2.
  rewrite (bind_ok _ _ _ _ _ _ _ _ (call_returns _ _ _ _ H2)).
  rewrite Hpick. cbn [as_text].
  set (w3 := with_trace w2 _).
  rewrite (bind_ok _ _ (ret text) _ env w3 text w3 eq_refl).
  exists w3. split; [reflexivity|]. split; [|reflexivity].
  subst w3 w2 w1. cbn [trace with_deferred with_trace].
  rewrite <- !app_assoc. reflexivity.
Qed.

(** The same for the guarded block of the mention flow. *)
Lemma mention_reaches_delivery :
  forall env w message question job result text,
    answer_of env (length (trace w)) = Returns job ->
    Js.nullish job = false ->
    answer_of env (length (trace w) + 1) = Returns result ->
    pickAnswer result = VStr text ->
    exists w2,
      MessageCreate.ask_and_deliver message question env w =
        MessageCreate.deliver message text env w2 /\
      trace w2 =
        trace w ++
        [EvAddJob (mkJob "discord" (author_id message) (author_username message)
                     question (message_id message) (clock env (length (trace w))));
         EvWaitForJobCompletion (Js.opt_get job "id") (timeoutMs_of env)] /\
      timers w2 = timers w.
Proof.
  intros env w message question job result text H0 Hjob H1 Hpick.
  unfold MessageCreate.ask_and_deliver.
  rewrite (bind_ok _ _ get_env _ env w env w eq_refl).
  rewrite (bind_ok _ _ Date_now _ env w _ w eq_refl).
  rewrite (bind_ok _ _ _ _ _ _ _ _ (call_returns _ _ _ _ H0)).
  set (w1 := with_trace w _).
  unfold get_strict. rewrite Hjob.
  rewrite (bind_ok _ _ (ret (Js.opt_get job "id")) _ env w1 _ w1 eq_refl).
  assert (Hl1 : length (trace w1) = length (trace w) + 1)
    by (subst w1; cbn [trace with_trace]; now rewrite length_app).
  rewrite <- Hl1 in H1.
  rewrite (bind_ok _ _ _ _ _ _ _ _ (call_returns _ _ _ _ H1)).
  rewrite Hpick. cbn [as_text].
  set (w2 := with_trace w1 _).
  rewrite (bind_ok _ _ (ret text) _ env w2 text w2 eq_refl).
  exists w2. split; [reflexivity|]. split; [|reflexivity].
  subst w2 w1. cbn [trace with_trace].
  rewrite <- !app_assoc. reflexivity.
Qed.

(** The mention handler, for a message that passes its gates and a typing
    signal that is accepted, is its guarded block followed by the clearing
    of the timer and, when the block threw, by the catch. *)
Lemma mention_execute_around_block :
  forall env w message me qm v,
    author_bot message = false ->
    client_user message = Some me ->
    existsb (String.eqb me) (mentions_users message) = true ->
    trim (strip_mentions me (message_content message)) <> EmptyString ->
    queueManager w = Some qm ->
    channel_has_send message = true ->
    answer_of env (length (trace w)) = Returns v ->
    let id := fresh_timer (timers w) in
    let w2 :=
      with_timers
        (with_trace w (trace w ++ [EvSendTyping; EvSetInterval id 8000]))
        (id :: timers w) in
    forall r w3,
      MessageCreate.ask_and_deliver message
        (trim (strip_mentions me (message_content message))) env w2 = (r, w3) ->
      match r with
      | Ok _ =>
          fst (MessageCreate.execute message env w) = Ok tt /\
          trace (snd (MessageCreate.execute message env w)) =
            trace w3 ++ [EvClearInterval id]
      | Throw e =>
          trace (snd (MessageCreate.execute message env w)) =
            trace w3 ++
            [EvClearInterval id;
             EvLog Error "messageCreate handler failed";
             EvMessageReply
               (mkPayload (Some "Error processing your question. Try /ask.") [] false)]
      | _ => True
      end.
Proof.
  intros env w message me qm v Hbot Hme Hmention Hq Hqm Hsend Hans id w2 r w3 Hblock.
  set (question := trim (strip_mentions me (message_content message))) in *.
  set (w4 := with_timers (with_trace w3 (trace w3 ++ [EvClearInterval id]))
               (remove Nat.eq_dec id (timers w3))).
  assert (Hbody : MessageCreate.execute_body message env w =
                  try_finally (MessageCreate.ask_and_deliver message question)
                    (clearInterval id) env w2).
  { unfold MessageCreate.execute_body.
    rewrite Hbot, Hme, Hmention. cbn [negb]. fold question.
    apply String.eqb_neq in Hq. rewrite Hq.
    rewrite (bind_ok _ _ get_world _ env w w w eq_refl), Hqm, Hsend. cbn [negb].
    unfold MessageCreate.typing_and_ask.
    set (w1 := with_trace w (trace w ++ [EvSendTyping])).
    assert (Hst : sendTyping env w = (Ok tt, w1)).
    { unfold sendTyping.
      now rewrite (bind_ok _ _ _ _ _ _ _ _ (call_returns _ _ _ _ Hans)). }
    rewrite (bind_ok _ _ _ _ _ _ _ _ Hst).
    assert (Hsi : setInterval 8000 env w1 = (Ok id, w2)).
    { unfold setInterval. subst w1 w2 id. cbn [trace timers with_trace with_timers].
      rewrite <- app_assoc. reflexivity. }
    now rewrite (bind_ok _ _ _ _ _ _ _ _ Hsi). }
  unfold MessageCreate.execute.
  destruct r as [[]|e|c|]; try exact I.
  - assert (Hrun : MessageCreate.execute_body message env w = (Ok tt, w4)).
    { rewrite Hbody. unfold try_finally. rewrite Hblock. reflexivity. }
    rewrite (try_catch_ok _ _ _ _ _ _ _ Hrun). split; reflexivity.
  - assert (Hrun : MessageCreate.execute_body message env w = (Throw e, w4)).
    { rewrite Hbody. unfold try_finally. rewrite Hblock. reflexivity. }
    rewrite (try_catch_throw _ _ _ _ _ _ _ Hrun).
    rewrite mention_catch_trace. subst w4. cbn [trace with_trace with_timers].
    now rewrite <- app_assoc.
Qed.

(** The slash command, from the result of the job on. *)
Lemma ask_execute_delivers :
  forall env w interaction qm question v0 job result text,
    queueManager w = Some qm ->
    option_question interaction = Some question ->
    answer_of env (length (trace w)) = Returns v0 ->
    answer_of env (length (trace w) + 1) = Returns job ->
    Js.nullish job = false ->
    answer_of env (length (trace w) + 2) = Returns result ->
    pickAnswer result = VStr text ->
    let before :=
      trace w ++
      [EvDeferReply;
       EvAddJob (mkJob "discord" (user_id interaction) (user_username interaction)
                   question (interaction_id interaction)
                   (clock env (length (trace w) + 1)));
       EvWaitForJobCompletion (Js.opt_get job "id") (timeoutMs_of env)] in
    (text <> "" ->
     exists chunks,
       Ask.toChunks (slice_from text 4096) None = Some chunks /\
       join chunks = slice_from text 4096 /\
       Forall (fun c => String.length c <= 3800) chunks /\
       length chunks = ceil_div (String.length text - 4096) 3800 /\
       delivered_in_order env before
         (delivery_plan
            (EvEditReply
               (embed_payload
                  (mkEmbed "Answer" (slice text 0 4096)
                     (FooterLatency
                        (clock env (length before) - createdTimestamp interaction)))))
            EvFollowUp chunks)
         []
         (fun e =>
            [EvLog Error "Ask command failed";
             EvEditReply (text_payload (Ask.error_message e))])
         (Ask.execute interaction env w)) /\
    (text = "" ->
     trace (snd (Ask.execute interaction env w)) =
       before ++
       [EvLog Error "Ask command failed";
        EvEditReply (text_payload (Ask.error_message (embed_error (host env))))]).
Proof.
  intros env w interaction qm question v0 job result text
    Hqm Hq H0 H1 Hjob H2 Hpick before.
  destruct (ask_execute_reaches_delivery env w interaction qm question v0 job
              result text Hqm Hq H0 H1 Hjob H2 Hpick) as (w3 & Heq & Htr & Hdef).
  fold before in Htr.
  assert (Hcatch : forall e w',
            deferred w' = true ->
            trace (snd (Ask.execute_catch e env w')) =
              trace w' ++
              [EvLog Error "Ask command failed";
               EvEditReply (text_payload (Ask.error_message e))]).
  { intros e w' Hd. destruct (ask_catch_run e env w') as (w'' & Hrun & Ht).
    rewrite Hrun. cbn [snd]. rewrite Ht. unfold latch. now rewrite Hd. }
  split.
  - intros Hne.
    destruct (ask_deliver_in_order interaction text env w3 Hne)
      as (chunks & Hc & Hjoin & Hlen & Hcount & k & w' & Hk & Ht & Hd & Hseq & Hend).
    exists chunks. split; [exact Hc|]. split; [exact Hjoin|].
    split; [exact Hlen|]. split; [exact Hcount|].
    rewrite Htr in *. exists k.
    split; [unfold delivery_plan; cbn [length]; rewrite length_map; exact Hk|].
    split; [exact Hseq|].
    unfold Ask.execute.
    destruct (answer_of env (length before + (k - 1))) as [v|e].
    + destruct Hend as [Hkk Hrun]. rewrite <- Heq in Hrun.
      rewrite (try_catch_ok _ _ _ _ _ _ _ Hrun). cbn [fst snd].
      split; [unfold delivery_plan; cbn [length]; now rewrite length_map|].
      split; [reflexivity|].
      rewrite Ht, Hkk, app_nil_r. f_equal.
      apply firstn_all2. unfold delivery_plan. cbn [length].
      rewrite length_map. lia.
    + rewrite <- Heq in Hend.
      rewrite (try_catch_throw _ _ _ _ _ _ _ Hend).
      rewrite Hcatch by congruence. rewrite Ht, <- app_assoc. reflexivity.
  - intros ->.
    assert (Hrun : Ask.execute_body interaction env w =
                   (Throw (embed_error (host env)), w3)).
    { rewrite Heq. unfold Ask.deliver.
      rewrite (bind_ok _ _ Date_now _ env w3 _ w3 eq_refl). cbn [String.length Nat.leb].
      now rewrite (bind_throw _ _ _ _ _ _ _ _ (EmbedBuilder_empty _ _ env w3)). }
    unfold Ask.execute. rewrite (try_catch_throw _ _ _ _ _ _ _ Hrun).
    rewrite Hcatch by exact Hdef. now rewrite Htr.
Qed.

(** The mention flow, from the result of the job on. *)
Lemma mention_execute_delivers :
  forall env w message me qm v job result text,
    author_bot message = false ->
    client_user message = Some me ->
    existsb (String.eqb me) (mentions_users message) = true ->
    trim (strip_mentions me (message_content message)) <> EmptyString ->
    queueManager w = Some qm ->
    channel_has_send message = true ->
    answer_of env (length (trace w)) = Returns v ->
    answer_of env (length (trace w) + 2) = Returns job ->
    Js.nullish job = false ->
    answer_of env (length (trace w) + 3) = Returns result ->
    pickAnswer result = VStr text ->
    let id := fresh_timer (timers w) in
    let before :=
      trace w ++
      [EvSendTyping;
       EvSetInterval id 8000;
       EvAddJob (mkJob "discord" (author_id message) (author_username message)
                   (trim (strip_mentions me (message_content message)))
                   (message_id message) (clock env (length (trace w) + 2)));
       EvWaitForJobCompletion (Js.opt_get job "id") (timeoutMs_of env)] in
    (text <> "" ->
     String.length (author_username message) <= 2038 ->
     exists chunks,
       MessageCreate.toChunks (slice_from text 4096) None = Some chunks /\
       join chunks = slice_from text 4096 /\
       Forall (fun c => String.length c <= 1900) chunks /\
       length chunks = ceil_div (String.length text - 4096) 1900 /\
       delivered_in_order env before
         (delivery_plan
            (EvMessageReply
               (embed_payload
                  (mkEmbed "Answer" (slice text 0 4096)
                     (FooterAskedBy (author_username message)))))
            EvChannelSend chunks)
         [EvClearInterval id]
         (fun e =>
            [EvClearInterval id;
             EvLog Error "messageCreate handler failed";
             EvMessageReply
               (mkPayload (Some "Error processing your question. Try /ask.") [] false)])
         (MessageCreate.execute message env w)) /\
    (text = "" ->
     trace (snd (MessageCreate.execute message env w)) =
       before ++
       [EvClearInterval id;
        EvLog Error "messageCreate handler failed";
        EvMessageReply
          (mkPayload (Some "Error processing your question. Try /ask.") [] false)]).
Proof.
  intros env w message me qm v job result text
    Hbot Hme Hmention Hq Hqm Hsend Hans H2 Hjob H3 Hpick id before.
  set (question := trim (strip_mentions me (message_content message))) in *.
  set (w2 := with_timers
               (with_trace w (trace w ++ [EvSendTyping; EvSetInterval id 8000]))
               (id :: timers w)).
  assert (Hl2 : length (trace w2) = length (trace w) + 2)
    by (subst w2; cbn [trace with_trace with_timers]; rewrite length_app;
        reflexivity).
  assert (H2' : answer_of env (length (trace w2)) = Returns job) by now rewrite Hl2.
  assert (H3' : answer_of env (length (trace w2) + 1) = Returns result).
  { rewrite Hl2, <- H3. f_equal. lia. }
  destruct (mention_reaches_delivery env w2 message question job result text
              H2' Hjob H3' Hpick) as (w3 & Heq & Htr & _).
  assert (Hbefore : trace w3 = before).
  { rewrite Htr, Hl2. subst w2 before. cbn [trace with_trace with_timers].
    rewrite <- app_assoc. reflexivity. }
  pose proof (mention_execute_around_block env w message me qm v
                Hbot Hme Hmention Hq Hqm Hsend Hans) as Haround.
  cbn zeta in Haround. fold id question w2 in Haround.
  split.
  - intros Hne Hname.
    destruct (mention_deliver_in_order message text env w3 Hne Hname)
      as (chunks & Hc & Hjoin & Hlen & Hcount & k & w' & Hk & Ht & _ & Hseq & Hend).
    exists chunks. split; [exact Hc|]. split; [exact Hjoin|].
    split; [exact Hlen|]. split; [exact Hcount|].
    rewrite Hbefore in *. exists k.
    split; [unfold delivery_plan; cbn [length]; rewrite length_map; exact Hk|].
    split; [exact Hseq|].
    destruct (answer_of env (length before + (k - 1))) as [v'|e].
    + destruct Hend as [Hkk Hrun]. rewrite <- Heq in Hrun.
      pose proof (Haround _ _ Hrun) as [Hok Htrace]. cbn beta iota in *.
      split; [unfold delivery_plan; cbn [length]; now rewrite length_map|].
      split; [exact Hok|].
      rewrite Htrace, Ht, Hkk, <- app_assoc. f_equal. f_equal.
      apply firstn_all2. unfold delivery_plan. cbn [length].
      rewrite length_map. lia.
    + rewrite <- Heq in Hend.
      pose proof (Haround _ _ Hend) as Htrace. cbn beta iota in Htrace.
      rewrite Htrace, Ht, <- app_assoc. reflexivity.
  - intros ->.
    assert (Hrun : MessageCreate.ask_and_deliver message question env w2 =
                   (Throw (embed_error (host env)), w3)).
    { rewrite Heq. unfold MessageCreate.deliver.
      now rewrite (bind_throw _ _ _ _ _ _ _ _ (EmbedBuilder_empty _ _ env w3)). }
    pose proof (Haround _ _ Hrun) as Htrace. cbn beta iota in Htrace.
    now rewrite Htrace, Hbefore.
Qed.




(** The scenario of 5000 code units in the slash command: the primary reply
    shows the first 4096, the other 904 go out as one follow-up. *)
Example ask_5000_code_units :
  added Sample.queue_world
    (snd (Ask.execute Sample.ask_interaction
            (Sample.answering (Sample.repeat_char "a" 5000)) Sample.queue_world)) =
  [EvDeferReply;
   EvAddJob (mkJob "discord" "u1" "alice" "What is Starknet?" "i1" 0);
   EvWaitForJobCompletion (VStr "job-1") 60000;
   EvEditReply
     (embed_payload
        (mkEmbed "Answer" (Sample.repeat_char "a" 4096) (FooterLatency 0)));
   EvFollowUp (text_payload (Sample.repeat_char "a" 904))].
Proof. vm_compute. reflexivity. Qed.


(* ================================================================= *)
(** ** The command loader *)

Example module_files :
  map is_module_file
    ["ask.js"; "ask.ts"; "ask.mjs"; "ask.d.ts"; "ask.js.map"; "_draft.ts";
     "README.md"; ".js"] =
  [true; true; true; false; false; false; false; true].
Proof. reflexivity. Qed.

(** The export is found under [default], under [command], or under the
    first key that ends in [Command], whatever its case. *)
Example resolve_export_by_suffix :
  resolve_export "command" "command"
    (VObj 1 [("helper", VNum 3); ("askCOMMAND", Sample.command_at "ask" 7)]) =
  Sample.command_at "ask" 7.
Proof. reflexivity. Qed.

(** A module whose command has an empty name is skipped with a warning. *)
Example load_file_missing_name :
  CommandLoader.load_file "x.js"
    (mkEnv (fun _ => Returns (Sample.module_of "" 7)) (fun _ => inr [])
       (fun _ => 0%Z) None None (mkQueueManager true) Sample.plain_host)
    Sample.replied_world =
  (Ok tt,
   mkWorld [EvImport "commands/x.js"; EvLog Warn "Command missing name"]
     false true [] (Some []) None false).
Proof. reflexivity. Qed.


(** SameValueZero is an equivalence on the values of the model. *)
Lemma same_value_zero_refl : forall k, Js.same_value_zero k k = true.
Proof.
  intros []; cbn; auto using Bool.eqb_reflx, Z.eqb_refl, String.eqb_refl,
    Nat.eqb_refl.
Qed.

Lemma same_value_zero_left : forall a b c,
  Js.same_value_zero a b = true ->
  Js.same_value_zero a c = Js.same_value_zero b c.
Proof.
  intros a b c H.
  destruct a, b; cbn in H; try discriminate; try reflexivity.
  - apply Bool.eqb_prop in H. now subst.
  - apply Z.eqb_eq in H. now subst.
  - apply String.eqb_eq in H. now subst.
  - apply Nat.eqb_eq in H. subst. destruct c; reflexivity.
  - apply Nat.eqb_eq in H. now subst.
Qed.

(** [m.get] after [m.set]. *)
Lemma map_get_set : forall m k v k',
  Js.map_get (Js.map_set m k v) k' =
    if Js.same_value_zero k k' then v else Js.map_get m k'.
Proof.
  induction m as [|[k0 v0] m IH]; intros k v k'; cbn.
  - reflexivity.
  - destruct (Js.same_value_zero k0 k) eqn:E; cbn.
    + rewrite (same_value_zero_left _ _ k' E).
      destruct (Js.same_value_zero k k'); reflexivity.
    + rewrite IH.
      destruct (Js.same_value_zero k0 k') eqn:E0; [|reflexivity].
      destruct (Js.same_value_zero k k') eqn:E1; [|reflexivity].
      rewrite (same_value_zero_left _ _ k E0) in E.
      assert (Js.same_value_zero k' k = Js.same_value_zero k k).
      { symmetry. apply same_value_zero_left. exact E1. }
      rewrite same_value_zero_refl in H. congruence.
Qed.

(** Registrations under other names leave the entry of a name as it is. *)
Lemma register_others : forall (after : list Registration) m name,
  (forall name' command',
     In (Some (name', command')) after ->
     Js.same_value_zero name' name = false) ->
  Js.map_get (fold_left register after m) name = Js.map_get m name.
Proof.
  induction after as [|r after IH]; intros m name H; [reflexivity|].
  cbn [fold_left]. rewrite IH by (intros n c Hin; apply (H n c); now right).
  destruct r as [[name' command']|]; [|reflexivity].
  cbn [register]. rewrite map_get_set.
  now rewrite (H name' command') by now left.
Qed.

(** The last registration under a name is what a lookup of the name
    finds. *)
Lemma register_last_wins : forall (before after : list Registration) m name command,
  (forall name' command',
     In (Some (name', command')) after ->
     Js.same_value_zero name' name = false) ->
  Js.map_get
    (fold_left register (before ++ Some (name, command) :: after) m) name =
  command.
Proof.
  intros before after m name command H.
  rewrite fold_left_app. cbn [fold_left].
  rewrite register_others by exact H.
  cbn [register]. rewrite map_get_set. now rewrite same_value_zero_refl.
Qed.

(** The reading of the name of a command: it logs nothing, leaves the
    registry as it is, and returns or throws. *)
Lemma command_name_run : forall data env w,
  exists r t w',
    CommandLoader.command_name data env w = (r, w') /\
    trace w' = trace w ++ t /\
    filter is_log t = [] /\
    commands w' = commands w /\
    returns_or_throws r.
Proof.
  intros data env w. unfold CommandLoader.command_name.
  destruct (negb (Js.nullish (Js.opt_get data "name"))).
  { exists (Ok (Js.opt_get data "name")), [], w. cbn. rewrite app_nil_r. auto. }
  destruct (Js.nullish (Js.opt_get data "toJSON")).
  { exists (Ok VUndef), [], w. cbn. rewrite app_nil_r. auto. }
  destruct (Js.opt_get data "toJSON") as [| |b|z|s|a props|addr];
    try (eexists _, [], w; cbn; rewrite app_nil_r; repeat split; fail).
  unfold bind, call, get_strict.
  destruct (answer_of env (length (trace w))) as [json|e].
  - destruct (Js.nullish json); eexists _, [EvCallToJSON addr], _;
      (split; [reflexivity|]); cbn; auto.
  - eexists _, [EvCallToJSON addr], _. (split; [reflexivity|]); cbn; auto.
Qed.

(** The load of one file: it returns, logs one line, and sets at most one
    command, that of the module it imported. *)
Lemma load_file_outcome : forall file env w reg,
  commands w = Some reg ->
  exists (r : Registration) t w',
    CommandLoader.load_file file env w = (Ok tt, w') /\
    trace w' = trace w ++ EvImport ("commands/" ++ file) :: t /\
    commands w' = Some (register reg r) /\
    (exists line, filter is_log t = [line] /\ load_line (file, r) line) /\
    match r with
    | Some (name, command) =>
        Js.truthy name = true /\
        Js.truthy (Js.opt_get command "data") = true /\
        Js.is_function (Js.opt_get command "execute") = true /\
        exists exports,
          answer_of env (length (trace w)) = Returns exports /\
          command = resolve_export "command" "command" exports
    | None => True
    end.
Proof.
  intros file env w reg Hreg. unfold CommandLoader.load_file.
  change (CommandLoader.commandsPath ++ "/" ++ file)%string
    with ("commands/" ++ file)%string.
  set (w1 := with_trace w (trace w ++ [EvImport ("commands/" ++ file)])).
  assert (Hreg1 : commands w1 = Some reg) by exact Hreg.
  assert (Ht1 : trace w1 = trace w ++ [EvImport ("commands/" ++ file)])
    by reflexivity.
  assert (Hfail : forall (body : M unit) e w2 t,
            body env w = (Throw e, w2) ->
            trace w2 = trace w1 ++ t ->
            filter is_log t = [] ->
            commands w2 = Some reg ->
            exists (r : Registration) t' w',
              try_catch body (fun _ => log Error "Failed to load command") env w =
                (Ok tt, w') /\
              trace w' = trace w ++ EvImport ("commands/" ++ file) :: t' /\
              commands w' = Some (register reg r) /\
              (exists line, filter is_log t' = [line] /\ load_line (file, r) line) /\
              match r with Some _ => False | None => True end).
  { intros body e w2 t Hrun Ht Hlog Hc. exists None, (t ++ [EvLog Error "Failed to load command"]).
    eexists. rewrite (try_catch_throw _ _ _ _ _ _ _ Hrun). split; [reflexivity|].
    split; [cbn; rewrite Ht, Ht1, <- !app_assoc; reflexivity|].
    split; [exact Hc|]. split; [|exact I].
    exists (EvLog Error "Failed to load command").
    rewrite filter_app, Hlog. split; [reflexivity|]. cbn. auto. }
  assert (Hwrap : forall (body : M unit),
            (exists (r : Registration) t' w',
               try_catch body (fun _ => log Error "Failed to load command") env w =
                 (Ok tt, w') /\
               trace w' = trace w ++ EvImport ("commands/" ++ file) :: t' /\
               commands w' = Some (register reg r) /\
               (exists line, filter is_log t' = [line] /\ load_line (file, r) line) /\
               match r with Some _ => False | None => True end) ->
            exists (r : Registration) t w',
              try_catch body (fun _ => log Error "Failed to load command") env w =
                (Ok tt, w') /\
              trace w' = trace w ++ EvImport ("commands/" ++ file) :: t /\
              commands w' = Some (register reg r) /\
              (exists line, filter is_log t = [line] /\ load_line (file, r) line) /\
              match r with
              | Some (name, command) =>
                  Js.truthy name = true /\
                  Js.truthy (Js.opt_get command "data") = true /\
                  Js.is_function (Js.opt_get command "execute") = true /\
                  exists exports,
                    answer_of env (length (trace w)) = Returns exports /\
                    command = resolve_export "command" "command" exports
              | None => True
              end).
  { intros body (r & t & w' & H1 & H2 & H3 & H4 & H5).
    exists r, t, w'. repeat (split; [assumption|]).
    destruct r; [contradiction | exact I]. }
  destruct (answer_of env (length (trace w))) as [exports|e] eqn:Himp.
  2:{ apply Hwrap. apply (Hfail _ e w1 []); auto.
      - now rewrite (bind_throw _ _ _ _ _ _ _ _ (call_throws _ _ _ _ Himp)).
      - now rewrite app_nil_r. }
  pose proof (call_returns (EvImport ("commands/" ++ file)) env w exports Himp)
    as Hcall. fold w1 in Hcall.
  set (candidate := resolve_export "command" "command" exports).
  destruct (Js.truthy candidate
            && Js.truthy (Js.opt_get candidate "data")
            && Js.is_function (Js.opt_get candidate "execute")) eqn:Hvalid.
  2:{ exists None, [EvLog Warn "Invalid command module"]. eexists.
      split.
      { apply try_catch_ok. rewrite (bind_ok _ _ _ _ _ _ _ _ Hcall).
        fold candidate. rewrite Hvalid. reflexivity. }
      split; [cbn; rewrite <- app_assoc; reflexivity|].
      split; [exact Hreg|]. split; [|exact I].
      exists (EvLog Warn "Invalid command module"). split; [reflexivity|].
      cbn. auto. }
  apply andb_prop in Hvalid. destruct Hvalid as [Hvalid Hfn].
  apply andb_prop in Hvalid. destruct Hvalid as [Hcand Hdata].
  destruct (command_name_run (Js.opt_get candidate "data") env w1)
    as (r & tj & w2 & Hname & Ht2 & Hlog2 & Hc2 & Hr).
  match goal with
  | |- context [try_catch ?b _ env w] =>
      assert (Hbody :
        b env w =
          (name <- CommandLoader.command_name (Js.opt_get candidate "data") ;;
           if negb (Js.truthy name)
           then log Warn "Command missing name"
           else CommandLoader.commands_set name candidate ;;
                log Info "Loaded command") env w1)
  end.
  { rewrite (bind_ok _ _ _ _ _ _ _ _ Hcall). cbn zeta.
    fold candidate. now rewrite Hcand, Hdata, Hfn. }
  destruct r as [name|e|c|]; try contradiction.
  2:{ apply Hwrap. apply (Hfail _ e w2 tj); auto; [|congruence].
      rewrite Hbody. now rewrite (bind_throw _ _ _ _ _ _ _ _ Hname). }
  destruct (Js.truthy name) eqn:Htruthy.
  - exists (Some (name, candidate)), (tj ++ [EvLog Info "Loaded command"]).
    eexists. split.
    { apply try_catch_ok. rewrite Hbody.
      rewrite (bind_ok _ _ _ _ _ _ _ _ Hname). rewrite Htruthy. cbn [negb].
      unfold bind, CommandLoader.commands_set, log. rewrite Hc2, Hreg1.
      reflexivity. }
    split; [cbn; rewrite Ht2, Ht1, <- !app_assoc; reflexivity|].
    split; [reflexivity|]. split.
    + exists (EvLog Info "Loaded command"). rewrite filter_app, Hlog2.
      split; reflexivity.
    + repeat split; auto. exists exports. auto.
  - exists None, (tj ++ [EvLog Warn "Command missing name"]).
    eexists. split.
    { apply try_catch_ok. rewrite Hbody.
      rewrite (bind_ok _ _ _ _ _ _ _ _ Hname). rewrite Htruthy. reflexivity. }
    split; [cbn; rewrite Ht2, Ht1, <- !app_assoc; reflexivity|].
    split; [cbn; congruence|]. split; [|exact I].
    exists (EvLog Warn "Command missing name"). rewrite filter_app, Hlog2.
    split; [reflexivity|]. cbn. auto.
Qed.

(** The loop of [loadCommands]: it returns; file by file it logs one line
    and sets at most one command. *)
Lemma load_loop_outcome : forall files env w reg,
  commands w = Some reg ->
  exists (loads : list (string * Registration)) t w',
    for_each files CommandLoader.load_file env w = (Ok tt, w') /\
    trace w' = trace w ++ t /\
    map fst loads = files /\
    commands w' = Some (fold_left register (map snd loads) reg) /\
    Forall2 load_line loads (filter is_log t) /\
    Forall (registers_module env (trace w')) loads.
Proof.
  induction files as [|file files IH]; intros env w reg Hreg.
  - exists [], [], w. cbn. rewrite app_nil_r. repeat split; auto.
  - destruct (load_file_outcome file env w reg Hreg)
      as (r & t1 & w1 & Hrun1 & Ht1 & Hc1 & (line & Hlog1 & Hline) & Hmod).
    destruct (IH env w1 (register reg r) Hc1)
      as (loads & t2 & w2 & Hrun2 & Ht2 & Hfiles & Hc2 & Hlines & Hmods).
    exists ((file, r) :: loads), (EvImport ("commands/" ++ file) :: t1 ++ t2), w2.
    cbn [for_each]. rewrite (bind_ok _ _ _ _ _ _ _ _ Hrun1).
    split; [exact Hrun2|].
    assert (Htrace : trace w2 =
                     trace w ++ EvImport ("commands/" ++ file) :: t1 ++ t2).
    { rewrite Ht2, Ht1, <- app_assoc. reflexivity. }
    split; [exact Htrace|]. split; [cbn; now rewrite Hfiles|].
    split; [exact Hc2|]. split.
    + cbn [filter is_log]. rewrite filter_app, Hlog1. cbn [app].
      constructor; assumption.
    + constructor; [|exact Hmods].
      unfold registers_module. cbn [snd fst].
      destruct r as [[name command]|]; [|exact I].
      destruct Hmod as (H1 & H2 & H3 & exports & Ha & Hcmd).
      repeat (split; [assumption|]).
      exists (length (trace w)), exports. split; [|auto].
      rewrite Htrace, nth_error_app2, Nat.sub_diag by lia. reflexivity.
Qed.



(** The same run, computed: a lookup of [ask] finds the second command,
    and the loader logs three info lines and no warning. *)
Example three_modules_loaded :
  registry_get
    (snd (CommandLoader.loadCommands Sample.three_modules Sample.fresh_world))
    (VStr "ask") = Sample.command_at "ask" 8 /\
  added Sample.fresh_world
    (snd (CommandLoader.loadCommands Sample.three_modules Sample.fresh_world)) =
  [EvReaddir "commands";
   EvImport "commands/ask.js"; EvLog Info "Loaded command";
   EvImport "commands/ask2.js"; EvLog Info "Loaded command";
   EvImport "commands/status.js"; EvLog Info "Loaded command"].
Proof. split; reflexivity. Qed.


(* ================================================================= *)
(** ** The order of the start-up *)

Lemma quiet_adds : forall A (m : M A), quiet not_step m -> adds [] m.
Proof.
  intros A m Hm env w. destruct (Hm env w) as (t & Ht & HP & _ & Hr).
  exists t. auto.
Qed.

Lemma adds_then : forall A B first (m : M A) (k : A -> M B),
  adds first m -> (forall a, quiet not_step (k a)) -> adds first (bind m k).
Proof.
  intros A B first m k Hm Hk env w. unfold bind.
  destruct (Hm env w) as (t1 & Ht1 & HP1 & Hr1).
  destruct (m env w) as [r w1]. simpl in *.
  destruct r as [a|e|c|]; try contradiction.
  - destruct (Hk a env w1) as (t2 & Ht2 & HP2 & _ & Hr2).
    exists (t1 ++ t2). repeat split.
    + rewrite Ht2, Ht1. now rewrite <- !app_assoc.
    + rewrite forallb_app, HP1, HP2. reflexivity.
    + exact Hr2.
  - exists t1. simpl. auto.
Qed.

(** A guarded step of [main]: [try { body } catch (err) { log.error(..) }]
    always returns. *)
Lemma guarded_adds : forall first (body : M unit) msg,
  adds first body ->
  forall env w,
    exists t w',
      try_catch body (fun err => log Error msg) env w = (Ok tt, w') /\
      trace w' = trace w ++ first ++ t /\
      forallb not_step t = true.
Proof.
  intros first body msg Hb env w. unfold try_catch.
  destruct (Hb env w) as (t & Ht & HP & Hr).
  destruct (body env w) as [r w1]. simpl in *.
  destruct r as [[]|e|c|]; try contradiction.
  - exists t, w1. auto.
  - exists (t ++ [EvLog Error msg]). eexists. split; [reflexivity|].
    split.
    + cbn [trace with_trace]. rewrite Ht. now rewrite <- !app_assoc.
    + rewrite forallb_app, HP. reflexivity.
Qed.

Lemma not_step_filter : forall t,
  forallb not_step t = true -> filter is_startup_step t = [].
Proof.
  induction t as [|ev t IH]; intros H; [reflexivity|].
  simpl in H. apply andb_prop in H. destruct H as [Hev Ht].
  simpl. unfold not_step in Hev. apply negb_true_iff in Hev.
  rewrite Hev. auto.
Qed.

Lemma quiet_commands_set : forall P name candidate,
  quiet P (CommandLoader.commands_set name candidate).
Proof.
  intros P name candidate env w. exists [].
  unfold CommandLoader.commands_set. destruct (commands w); simpl;
    now rewrite app_nil_r.
Qed.

Lemma quiet_command_name : forall data,
  quiet not_step (CommandLoader.command_name data).
Proof.
  intros data. unfold CommandLoader.command_name.
  destruct (negb _); [apply quiet_ret|].
  destruct (Js.nullish _); [apply quiet_ret|].
  destruct (Js.opt_get data "toJSON"); try apply quiet_throw.
  apply quiet_bind; [now apply quiet_call | intros json; apply quiet_get_strict].
Qed.

Lemma quiet_command_load_file : forall file,
  quiet not_step (CommandLoader.load_file file).
Proof.
  intros file. unfold CommandLoader.load_file.
  apply quiet_try_catch; [|intros e; now apply quiet_log].
  apply quiet_bind; [now apply quiet_call | intros exports].
  destruct (_ && _); [|now apply quiet_log].
  apply quiet_bind; [apply quiet_command_name | intros name].
  destruct (negb _); [now apply quiet_log|].
  apply quiet_bind; [apply quiet_commands_set | intros _; now apply quiet_log].
Qed.

Lemma quiet_event_load_file : forall file,
  quiet not_step (EventLoader.load_file file).
Proof.
  intros file. unfold EventLoader.load_file.
  apply quiet_try_catch; [|intros e; now apply quiet_log].
  apply quiet_bind; [now apply quiet_call | intros exports].
  destruct (_ || _); [now apply quiet_log|].
  apply quiet_bind; [now apply quiet_call | intros _; now apply quiet_log].
Qed.

(** The listing of a directory and the loop over its module files: the
    [readdir] comes first, the rest is no start-up step. *)
Lemma listing_adds : forall dir msg (load : string -> M unit),
  (forall f, quiet not_step (load f)) ->
  adds [EvReaddir dir]
    (listing <- try_catch
                  (files <- CommandLoader.readdir dir ;; ret (Some files))
                  (fun err => log Error msg ;; ret None) ;;
     match listing with
     | None => ret tt
     | Some files => for_each (filter is_module_file files) load
     end).
Proof.
  intros dir msg load Hload env w.
  set (w1 := with_trace w (trace w ++ [EvReaddir dir])).
  destruct (readdir_of env (length (trace w))) as [e|files] eqn:Hdir.
  - assert (Hrd : CommandLoader.readdir dir env w = (Throw e, w1))
      by (unfold CommandLoader.readdir; now rewrite Hdir).
    assert (Htc :
      try_catch (files <- CommandLoader.readdir dir ;; ret (Some files))
        (fun err => log Error msg ;; ret None) env w =
      (Ok None, with_trace w1 (trace w1 ++ [EvLog Error msg]))).
    { rewrite (try_catch_throw _ _ _ _ _ e w1); [reflexivity|].
      now rewrite (bind_throw _ _ _ _ _ _ _ _ Hrd). }
    rewrite (bind_ok _ _ _ _ _ _ _ _ Htc).
    exists [EvLog Error msg]. simpl. subst w1. cbn [trace with_trace].
    rewrite <- app_assoc. auto.
  - assert (Hrd : CommandLoader.readdir dir env w = (Ok files, w1))
      by (unfold CommandLoader.readdir; now rewrite Hdir).
    assert (Htc :
      try_catch (files <- CommandLoader.readdir dir ;; ret (Some files))
        (fun err => log Error msg ;; ret None) env w =
      (Ok (Some files), w1)).
    { apply try_catch_ok. now rewrite (bind_ok _ _ _ _ _ _ _ _ Hrd). }
    rewrite (bind_ok _ _ _ _ _ _ _ _ Htc).
    destruct (quiet_for_each not_step _ (filter is_module_file files) load Hload env w1)
      as (t & Ht & HP & _ & Hr).
    exists t. repeat split; auto.
    rewrite Ht. subst w1. cbn [trace with_trace]. now rewrite <- app_assoc.
Qed.

Lemma loadEvents_adds : adds [EvReaddir "events"] EventLoader.loadEvents.
Proof.
  unfold EventLoader.loadEvents.
  apply (listing_adds "events" _ _ quiet_event_load_file).
Qed.

Lemma loadCommands_adds : adds [EvReaddir "commands"] CommandLoader.loadCommands.
Proof.
  intros env w. unfold CommandLoader.loadCommands.
  rewrite (bind_ok _ _ get_world _ env w w w eq_refl).
  assert (Hinit :
    exists w0, (match commands w with
     | Some _ => ret tt
     | None => put_world (with_commands w (Some []))
     end) env w = (Ok tt, w0) /\ trace w0 = trace w).
  { destruct (commands w); eexists; split; reflexivity. }
  destruct Hinit as (w0 & Hrun0 & Ht0).
  rewrite (bind_ok _ _ _ _ _ _ _ _ Hrun0).
  destruct (listing_adds "commands" "Failed to read commands directory"
              CommandLoader.load_file quiet_command_load_file env w0)
    as (t & Ht & HP & Hr).
  exists t. rewrite <- Ht0. auto.
Qed.

(** The building of the configuration reads the environment and nothing
    else: it returns or throws and leaves the world as it is. *)
Lemma queueConfig_pure : forall env w,
  snd (Lifecycle.queueConfig env w) = w /\
  returns_or_throws (fst (Lifecycle.queueConfig env w)).
Proof.
  intros env w.
  unfold Lifecycle.queueConfig, Lifecycle.buildRedisConfig, bind, get_env.
  destruct (Lifecycle.non_empty _) as [url|]; [|split; exact I || reflexivity].
  destruct (URL_of (host env) url); split; exact I || reflexivity.
Qed.

(** The block "Queue + worker" for a configuration that is built without
    touching the world. *)
Lemma queue_block_run : forall (config : M QueueConfig) env w,
  snd (config env w) = w ->
  returns_or_throws (fst (config env w)) ->
  exists w',
    Lifecycle.queue_block config env w = (Ok tt, w') /\
    trace w' =
      trace w ++ queue_block_events env (length (trace w)) (built config env w) /\
    queueManager w' =
      (if worker_started env (length (trace w)) (built config env w)
       then Some (new_BotQueueManager env) else queueManager w) /\
    commands w' = commands w.
Proof.
  intros config env w Hw Hr.
  unfold Lifecycle.queue_block, built, worker_started, queue_block_events.
  unfold try_catch. unfold bind at 1.
  destruct (config env w) as [r w0]. cbn [fst snd] in *. subst w0.
  destruct r as [queueConfig|e|c|]; try contradiction.
  - unfold bind at 1. unfold call at 1.
    destruct (answer_of env (length (trace w))) as [v|e] eqn:Hnew.
    + unfold bind at 1. cbn [get_env]. unfold bind at 1. unfold call at 1.
      cbn [trace with_trace]. rewrite length_app, Nat.add_1_r. cbn [length].
      destruct (answer_of env (S (length (trace w)))) as [v'|e'] eqn:Hstart.
      * eexists. split; [reflexivity|]. cbn. rewrite <- !app_assoc. auto.
      * eexists. split; [reflexivity|]. cbn. rewrite <- !app_assoc. auto.
    + eexists. split; [reflexivity|]. cbn. rewrite <- !app_assoc. auto.
  - eexists. split; [reflexivity|]. cbn. auto.
Qed.

(** What the block adds holds the start of the worker when it got that
    far, and no other step of the start-up. *)
Lemma queue_block_steps : forall env n config,
  filter is_startup_step (queue_block_events env n config) =
    if worker_called env n config then [EvStartWorker] else [].
Proof.
  intros env n config. unfold queue_block_events, worker_called.
  destruct config as [queueConfig|]; [|reflexivity].
  destruct (answer_of env n); [|reflexivity].
  destruct (answer_of env (S n)); reflexivity.
Qed.

(** The start-up from the loaders on. *)
Lemma startup_order_with : forall (config : M QueueConfig) env w token,
  (forall env w, snd (config env w) = w /\ returns_or_throws (fst (config env w))) ->
  DISCORD_TOKEN env = Some token ->
  token <> EmptyString ->
  exists t2 t3 t4,
    added w (snd (Lifecycle.main_with config env w)) =
      queue_block_events env (length (trace w)) (built config env w) ++
      EvReaddir "commands" :: t2 ++
      EvReaddir "events" :: t3 ++
      EvLogin token :: t4 /\
    forallb not_step t2 = true /\
    forallb not_step t3 = true /\
    (t4 = [] /\ fst (Lifecycle.main_with config env w) = Ok tt \/
     t4 = [EvLog Error "Discord login failed"; EvExit 1] /\
     fst (Lifecycle.main_with config env w) = Exited 1) /\
    filter is_startup_step (added w (snd (Lifecycle.main_with config env w))) =
      (if worker_called env (length (trace w)) (built config env w)
       then [EvStartWorker] else []) ++
      [EvReaddir "commands"; EvReaddir "events"; EvLogin token].
Proof.
  intros config env w token Hpure Htok Hne.
  destruct token as [|c rest]; [congruence|].
  unfold Lifecycle.main_with.
  rewrite (bind_ok _ _ get_env _ env w env w eq_refl), Htok.
  destruct (Hpure env w) as [Hw Hr].
  destruct (queue_block_run config env w Hw Hr) as (w1 & E1 & Ht1 & Hq1 & _).
  set (q := queue_block_events env (length (trace w)) (built config env w)) in *.
  rewrite (bind_ok _ _ _ _ _ _ _ _ E1).
  destruct (guarded_adds _ _ "Failed to load commands"
              (adds_then _ _ _ _ (fun _ => log Info "Commands loaded")
                 loadCommands_adds
                 (fun _ => quiet_log not_step Info "Commands loaded" eq_refl))
              env w1)
    as (t2 & w2 & E2 & Ht2 & HP2).
  rewrite (bind_ok _ _ _ _ _ _ _ _ E2).
  destruct (guarded_adds _ _ "Failed to load events"
              (adds_then _ _ _ _ (fun _ => log Info "Events loaded")
                 loadEvents_adds
                 (fun _ => quiet_log not_step Info "Events loaded" eq_refl))
              env w2)
    as (t3 & w3 & E3 & Ht3 & HP3).
  rewrite (bind_ok _ _ _ _ _ _ _ _ E3).
  set (regs := [EvClientOn true (VStr "ready");
                EvProcessOn false "unhandledRejection";
                EvProcessOn false "uncaughtException";
                EvProcessOn true "SIGINT";
                EvProcessOn true "SIGTERM"]).
  set (w4 := with_trace w3 (trace w3 ++ regs)).
  assert (Eregs : forall (k : M unit),
    (emit (EvClientOn true (VStr "ready")) ;;
     emit (EvProcessOn false "unhandledRejection") ;;
     emit (EvProcessOn false "uncaughtException") ;;
     emit (EvProcessOn true "SIGINT") ;;
     emit (EvProcessOn true "SIGTERM") ;; k) env w3 = k env w4).
  { intros k. unfold bind, emit. cbn [trace with_trace].
    subst w4 regs. rewrite <- !app_assoc. reflexivity. }
  rewrite Eregs.
  assert (Ht4 : trace w4 =
    trace w ++ q ++ EvReaddir "commands" :: t2 ++
    EvReaddir "events" :: (t3 ++ regs)).
  { subst w4. cbn [trace with_trace]. rewrite Ht3, Ht2, Ht1.
    rewrite <- !app_assoc. reflexivity. }
  assert (HP3' : forallb not_step (t3 ++ regs) = true)
    by (rewrite forallb_app, HP3; reflexivity).
  assert (Hfilter : forall t4,
    forallb not_step t4 = true ->
    filter is_startup_step
      (q ++ EvReaddir "commands" :: t2 ++
       EvReaddir "events" :: (t3 ++ regs) ++ EvLogin (String c rest) :: t4) =
    (if worker_called env (length (trace w)) (built config env w)
     then [EvStartWorker] else []) ++
    [EvReaddir "commands"; EvReaddir "events"; EvLogin (String c rest)]).
  { intros t4 HP4. rewrite filter_app. subst q. rewrite queue_block_steps.
    f_equal. cbn [filter is_startup_step].
    rewrite filter_app. cbn [filter is_startup_step].
    rewrite filter_app. cbn [filter is_startup_step].
    rewrite (not_step_filter _ HP2), (not_step_filter _ HP3'),
      (not_step_filter _ HP4). reflexivity. }
  destruct (answer_of env (length (trace w4))) as [v|e] eqn:Hlogin.
  - assert (Elogin :
      try_catch (call (EvLogin (String c rest)) ;; ret tt)
        (fun err => log Error "Discord login failed" ;; process_exit 1) env w4 =
      (Ok tt, with_trace w4 (trace w4 ++ [EvLogin (String c rest)]))).
    { apply try_catch_ok.
      now rewrite (bind_ok _ _ _ _ _ _ _ _ (call_returns _ _ _ _ Hlogin)). }
    rewrite Elogin. cbn [fst snd].
    assert (Hfinal : trace (with_trace w4 (trace w4 ++ [EvLogin (String c rest)])) =
      trace w ++ (q ++ EvReaddir "commands" :: t2 ++
      EvReaddir "events" :: (t3 ++ regs) ++ EvLogin (String c rest) :: []))
      by (cbn [trace with_trace]; rewrite Ht4;
          repeat (rewrite <- app_assoc || rewrite <- app_comm_cons); reflexivity).
    exists t2, (t3 ++ regs), []. rewrite (added_app _ _ _ Hfinal).
    split; [reflexivity|]. split; [exact HP2|]. split; [exact HP3'|].
    split; [left; auto|]. apply Hfilter. reflexivity.
  - assert (Elogin :
      try_catch (call (EvLogin (String c rest)) ;; ret tt)
        (fun err => log Error "Discord login failed" ;; process_exit 1) env w4 =
      (Exited 1,
       with_trace w4
         (trace w4 ++ [EvLogin (String c rest); EvLog Error "Discord login failed";
                       EvExit 1]))).
    { rewrite (try_catch_throw _ _ _ _ _ e
                 (with_trace w4 (trace w4 ++ [EvLogin (String c rest)]))).
      - unfold bind, log, process_exit. cbn [trace with_trace].
        rewrite <- !app_assoc. reflexivity.
      - now rewrite (bind_throw _ _ _ _ _ _ _ _ (call_throws _ _ _ _ Hlogin)). }
    rewrite Elogin. cbn [fst snd].
    assert (Hfinal :
      trace (with_trace w4
               (trace w4 ++ [EvLogin (String c rest);
                             EvLog Error "Discord login failed"; EvExit 1])) =
      trace w ++ (q ++ EvReaddir "commands" :: t2 ++
      EvReaddir "events" :: (t3 ++ regs) ++ EvLogin (String c rest) ::
      [EvLog Error "Discord login failed"; EvExit 1]))
      by (cbn [trace with_trace]; rewrite Ht4;
          repeat (rewrite <- app_assoc || rewrite <- app_comm_cons); reflexivity).
    exists t2, (t3 ++ regs), [EvLog Error "Discord login failed"; EvExit 1].
    rewrite (added_app _ _ _ Hfinal).
    split; [reflexivity|]. split; [exact HP2|]. split; [exact HP3'|].
    split; [right; auto|]. apply Hfilter. reflexivity.
Qed.

(** C8, as the claim states it, fails: with collaborators that accept every
    call, the first step of [main] is the start of the queue worker; the
    commands directory is read after it. *)
Lemma startup_starts_worker_first :
  filter is_startup_step
    (trace (snd (Lifecycle.main Sample.accepting Sample.fresh_world))) =
  [EvStartWorker; EvReaddir "commands"; EvReaddir "events"; EvLogin "token"].
Proof. reflexivity. Qed.

(** C8, amended. With a token in the environment, [main] ([main_with] at
    the configuration of [index.ts] or at that of its earlier copy) runs
    the block "Queue + worker" first: it builds
    the configuration, constructs the queue manager and starts its worker,
    and stops at the first of the three that throws, which it logs. Then it
    populates the command registry (reads the commands directory and loads
    its modules), registers the event handlers (reads the events directory
    and loads its modules), and then logs in. So the worker, whenever it is
    started at all, is started before the registry is populated; and the
    login is the last call of the start-up whether or not the earlier steps
    failed, so no interaction is dispatched before the loaders have run;
    after it comes only the exit with code 1 of a refused login. *)
Theorem startup_order :
  forall (env : Env) (w : World) (token : string),
    DISCORD_TOKEN env = Some token ->
    token <> EmptyString ->
    forall config : M QueueConfig,
      config = Lifecycle.queueConfig \/ config = ret ProcessEnvConfig ->
      exists t2 t3 t4,
        added w (snd (Lifecycle.main_with config env w)) =
          queue_block_events env (length (trace w)) (built config env w) ++
          EvReaddir "commands" :: t2 ++
          EvReaddir "events" :: t3 ++
          EvLogin token :: t4 /\
        forallb not_step t2 = true /\
        forallb not_step t3 = true /\
        (t4 = [] /\ fst (Lifecycle.main_with config env w) = Ok tt \/
         t4 = [EvLog Error "Discord login failed"; EvExit 1] /\
         fst (Lifecycle.main_with config env w) = Exited 1) /\
        filter is_startup_step (added w (snd (Lifecycle.main_with config env w))) =
          (if worker_called env (length (trace w)) (built config env w)
           then [EvStartWorker] else []) ++
          [EvReaddir "commands"; EvReaddir "events"; EvLogin token].
Proof.
  intros env w token Htok Hne config [->| ->].
  - exact (startup_order_with Lifecycle.queueConfig env w token queueConfig_pure
             Htok Hne).
  - apply (startup_order_with (ret ProcessEnvConfig) env w token); auto.
    intros env' w'. split; [reflexivity | exact I].
Qed.

(** C8, amended, where the Redis address does not parse: the queue manager
    is not constructed and the worker not started; the loaders and the
    login follow. *)
Lemma startup_order_witness :
  filter is_startup_step
    (added Sample.fresh_world
       (snd (Lifecycle.main Scenario.bad_redis_url Sample.fresh_world))) =
  [EvReaddir "commands"; EvReaddir "events"; EvLogin "token"].
Proof.
  destruct (startup_order Scenario.bad_redis_url Sample.fresh_world "token" eq_refl
              ltac:(discriminate) Lifecycle.queueConfig (or_introl eq_refl))
    as (t2 & t3 & t4 & _ & _ & _ & _ & H).
  exact H.
Defined.


(* ================================================================= *)
(** ** The shutdown *)

Import Lifecycle.

Lemma count_snoc : forall f t ev,
  count f (t ++ [ev]) = count f t + (if f ev then 1 else 0).
Proof.
  intros f t ev. rewrite count_app. unfold count. simpl.
  destruct (f ev); reflexivity.
Qed.

(** A call of [shutdown] while the flag is set returns at once. *)
Lemma shutdown_again_is_noop : forall code p,
  isShuttingDown (world p) = true -> shutdown code p = p.
Proof. intros code p H. unfold shutdown. now rewrite H. Qed.

(** [shutdown] and the pieces it is cut into leave the listeners and the
    life of the process alone. *)
Lemma shutdown_keeps_listeners : forall code p,
  removed (shutdown code p) = removed p /\ killed (shutdown code p) = killed p.
Proof.
  intros code p. unfold shutdown.
  destruct (isShuttingDown (world p)); [auto|]. cbn.
  destruct (queueManager (world p)) as [qm|]; cbn;
    [destruct (stopWorker_is_function qm)|]; auto.
Qed.

Lemma listener_keeps_listeners : forall t p,
  removed (listener t p) = removed p /\ killed (listener t p) = killed p.
Proof.
  intros t p. destruct t; cbn [listener]; try apply shutdown_keeps_listeners.
  destruct (shutdown_keeps_listeners 1
              (record_event (EvLog Error "Uncaught exception") p)) as [-> ->].
  auto.
Qed.

Lemma resume_keeps_listeners : forall t ok p,
  removed (resume t ok p) = removed p /\ killed (resume t ok p) = killed p.
Proof. intros [c|c] ok p; cbn; auto. Qed.

(** The first call of [shutdown]. *)
Lemma shutdown_first_call : forall code base qm p t,
  trace (world p) = base ++ t ->
  queueManager (world p) = qm ->
  isShuttingDown (world p) = false ->
  pending p = [] ->
  exit_code p = None ->
  count is_stop_worker t = 0 ->
  count is_destroy t = 0 ->
  shutdown_inv (Some code) base qm (shutdown code p).
Proof.
  intros code base qm p t Ht Hqm Hflag Hpend Hexit Hs Hd.
  unfold shutdown. rewrite Hflag. cbn. rewrite Hqm.
  destruct qm as [q|]; cbn; [destruct (stopWorker_is_function q) eqn:Hfn|].
  - exists (t ++ [EvLog Info "Shutting down"; EvStopWorker]). split.
    + cbn. rewrite Ht, <- !app_assoc. reflexivity.
    + split; [exact Hqm|]. split; [reflexivity|]. cbn. rewrite Hfn. split.
      * rewrite count_app, Hs. reflexivity.
      * left. rewrite Hpend, Hexit. repeat split.
        rewrite count_app, Hd. reflexivity.
  - exists (t ++ [EvLog Info "Shutting down"; EvDestroy]). split.
    + cbn. rewrite Ht, <- !app_assoc. reflexivity.
    + split; [exact Hqm|]. split; [reflexivity|]. cbn. rewrite Hfn. split.
      * rewrite count_app, Hs. reflexivity.
      * right; left. rewrite Hpend, Hexit. repeat split.
        rewrite count_app, Hd. reflexivity.
  - exists (t ++ [EvLog Info "Shutting down"; EvDestroy]). split.
    + cbn. rewrite Ht, <- !app_assoc. reflexivity.
    + split; [exact Hqm|]. split; [reflexivity|]. cbn. split.
      * rewrite count_app, Hs. reflexivity.
      * right; left. rewrite Hpend, Hexit. repeat split.
        rewrite count_app, Hd. reflexivity.
Qed.

(** A log line changes nothing the invariant looks at. *)
Lemma shutdown_inv_log : forall code base qm p lvl msg,
  shutdown_inv code base qm p ->
  shutdown_inv code base qm (record_event (EvLog lvl msg) p).
Proof.
  intros code base qm p lvl msg (t & Ht & Hqm & H).
  exists (t ++ [EvLog lvl msg]). split.
  - cbn. rewrite Ht, <- app_assoc. reflexivity.
  - split; [exact Hqm|]. rewrite !count_snoc. cbn [is_stop_worker is_destroy].
    rewrite !Nat.add_0_r. exact H.
Qed.

(** Neither a listener that is removed nor the end of the process by a
    signal changes what the invariant says of a call that is under way. *)
Lemma shutdown_inv_listeners : forall c base qm p rm k,
  exit_code p = None ->
  shutdown_inv (Some c) base qm p ->
  shutdown_inv (Some c) base qm
    (mkProc (world p) (pending p) (exit_code p) rm k).
Proof.
  intros c base qm p rm k Hex (t & Ht & Hqm & Hflag & Hs & H).
  exists t. split; [exact Ht|]. split; [exact Hqm|]. split; [exact Hflag|].
  split; [exact Hs|]. cbn.
  destruct H as [H|[H|H]]; [left; exact H | right; left; exact H |].
  destruct H as (_ & Hsome & _). congruence.
Qed.

(** One turn of the event loop keeps the invariant. *)
Lemma step_keeps_inv : forall code base qm p l,
  shutdown_inv code base qm p ->
  shutdown_inv (first_code code [l]) base qm (step p l).
Proof.
  intros code base qm p l Hinv. unfold step.
  destruct code as [c|].
  - (* shutdown has been called *)
    cbn [first_code].
    destruct (exit_code p) eqn:Hex; [exact Hinv|].
    destruct (killed p) eqn:Hkill; [exact Hinv|].
    destruct l as [t|n ok].
    + (* a further trigger *)
      assert (Hflag : isShuttingDown (world p) = true)
        by (destruct Hinv as (t' & _ & _ & Hf & _); exact Hf).
      unfold fire.
      destruct (once t) eqn:Honce.
      * destruct (listening t p).
        -- assert (Hl : listener t
                          (mkProc (world p) (pending p) (exit_code p)
                             (t :: removed p) (killed p)) =
                        mkProc (world p) (pending p) (exit_code p)
                          (t :: removed p) (killed p)).
           { destruct t; try discriminate; cbn [listener];
               now apply shutdown_again_is_noop. }
           rewrite Hl. now apply shutdown_inv_listeners.
        -- now apply shutdown_inv_listeners.
      * destruct t; try discriminate. cbn [listener].
        rewrite shutdown_again_is_noop by exact Hflag.
        now apply shutdown_inv_log.
    + (* an await settles *)
      destruct Hinv as (t & Ht & Hqm & Hflag & Hs & [H|[H|H]]).
      * destruct H as (Hpend & _ & Hd). rewrite Hpend.
        destruct n as [|n]; cbn [take_task].
        -- exists (t ++ [if ok then EvLog Info "Queue worker stopped"
                         else EvLog Error "Error while stopping queue worker";
                         EvDestroy]).
           split; [cbn; rewrite Ht, <- !app_assoc; reflexivity|].
           split; [exact Hqm|]. split; [exact Hflag|]. split.
           ++ rewrite count_app, Hs. destruct ok; cbn; lia.
           ++ right; left. cbn. rewrite Hex. repeat split.
              rewrite count_app, Hd. destruct ok; reflexivity.
        -- destruct n; cbn;
             (exists t; split; [exact Ht|]; split; [exact Hqm|];
              split; [exact Hflag|]; split; [exact Hs|]; left;
              rewrite Hpend; auto).
      * destruct H as (Hpend & _ & Hd). rewrite Hpend.
        destruct n as [|n]; cbn [take_task].
        -- exists (t ++ [if ok then EvLog Info "Discord client destroyed"
                         else EvLog Error "Error while destroying Discord client";
                         EvExit c]).
           split; [cbn; rewrite Ht, <- !app_assoc; reflexivity|].
           split; [exact Hqm|]. split; [exact Hflag|]. split.
           ++ rewrite count_app, Hs. destruct ok; cbn; lia.
           ++ right; right. cbn. rewrite Hkill. repeat split.
              rewrite count_app, Hd. destruct ok; reflexivity.
        -- destruct n; cbn;
             (exists t; split; [exact Ht|]; split; [exact Hqm|];
              split; [exact Hflag|]; split; [exact Hs|]; right; left;
              rewrite Hpend; auto).
      * destruct H as (_ & Hsome & _). congruence.
  - (* shutdown has not been called *)
    destruct Hinv as (t & Ht & Hqm & Hflag & Hpend & Hex & Hkill & Hrm & Hs & Hd).
    rewrite Hex, Hkill. destruct l as [tr|n ok].
    + cbn [first_code first_fire option_map]. unfold fire, listening.
      rewrite Hrm. cbn [existsb negb].
      destruct tr; cbn [once listener code_of].
      * now apply (shutdown_first_call 0%Z base qm _ t).
      * now apply (shutdown_first_call 0%Z base qm _ t).
      * apply (shutdown_first_call 1%Z base qm _
                 (t ++ [EvLog Error "Uncaught exception"])); auto.
        -- cbn. rewrite Ht, <- app_assoc. reflexivity.
        -- rewrite count_snoc, Hs. reflexivity.
        -- rewrite count_snoc, Hd. reflexivity.
    + cbn [first_code first_fire option_map].
      rewrite Hpend. destruct n; cbn [take_task];
        (exists t; split; [exact Ht|]; split; [exact Hqm|];
         rewrite Hpend; auto 10).
Qed.

Lemma first_code_cons : forall code l ls,
  first_code (first_code code [l]) ls = first_code code (l :: ls).
Proof.
  intros [c|] l ls; [reflexivity|]. destruct l; reflexivity.
Qed.

(** Every run of the event loop keeps the invariant. *)
Lemma run_keeps_inv : forall ls code base qm p,
  shutdown_inv code base qm p ->
  shutdown_inv (first_code code ls) base qm (run p ls).
Proof.
  induction ls as [|l ls IH]; intros code base qm p Hinv.
  - destruct code; exact Hinv.
  - cbn [run fold_left]. rewrite <- first_code_cons.
    apply IH. now apply step_keeps_inv.
Qed.

Lemma run_app : forall p ls1 ls2, run p (ls1 ++ ls2) = run (run p ls1) ls2.
Proof. intros p ls1 ls2. unfold run. apply fold_left_app. Qed.

(** Nothing runs after the exit. *)
Lemma run_exited : forall ls p c, exit_code p = Some c -> run p ls = p.
Proof.
  induction ls as [|l ls IH]; intros p c H; [reflexivity|].
  cbn [run fold_left]. unfold step at 2. rewrite H. now apply (IH p c).
Qed.

(** A trigger followed by the settling of the two awaits takes a process
    that is not shutting down to its exit, whatever the awaits settle to. *)
Lemma shutdown_reaches_exit : forall w t ok1 ok2,
  isShuttingDown w = false ->
  exit_code (run (ready w) [Fire t; Settle 0 ok1; Settle 0 ok2]) =
    Some (code_of t).
Proof.
  intros w t ok1 ok2 H.
  destruct w as [tr d r ti c q s]. simpl in H. subst s.
  destruct t, q as [[[|]]|]; reflexivity.
Qed.

(** What one turn of the event loop does to the listeners and to the life
    of the process: it removes the listener of a signal that fires for the
    first time, and it ends the process at a signal whose listener is
    removed. *)
Lemma step_listeners : forall p l,
  (removed (step p l) = removed p \/
   exists t, l = Fire t /\ removed (step p l) = t :: removed p) /\
  (killed (step p l) = killed p \/
   exists t, l = Fire t /\ once t = true /\
             existsb (Trigger_eqb t) (removed p) = true /\
             killed (step p l) = Some t).
Proof.
  intros p l. unfold step.
  destruct (exit_code p); [auto|]. destruct (killed p) eqn:Hk; [auto|].
  destruct l as [t|n ok].
  - unfold fire, listening. destruct (once t) eqn:Honce.
    + destruct (existsb (Trigger_eqb t) (removed p)) eqn:Hin; cbn [negb].
      * cbn. split; [auto|]. right. exists t. auto.
      * match goal with
        | |- context [listener t ?q] =>
            destruct (listener_keeps_listeners t q) as [Hr Hkl]
        end.
        rewrite Hr, Hkl. cbn. split; [right; exists t; auto | auto].
    + destruct (listener_keeps_listeners t p) as [-> ->]. auto.
  - destruct (take_task n (pending p)) as [[t rest]|]; [|auto].
    destruct (resume_keeps_listeners t ok (with_pending p rest)) as [-> ->].
    cbn. auto.
Qed.

Lemma Trigger_eqb_refl : forall a, Trigger_eqb a a = true.
Proof. intros []; reflexivity. Qed.

(** A process is ended by a signal only when that signal fires for the
    second time. *)
Lemma killed_twice : forall ls p s,
  killed (run p ls) = Some s ->
  killed p = Some s \/
  (existsb (Trigger_eqb s) (removed p) = true /\ 1 <= fired s ls) \/
  2 <= fired s ls.
Proof.
  induction ls as [|l ls IH]; intros p s H; [left; exact H|].
  cbn [run fold_left] in H.
  change (fold_left step ls (step p l)) with (run (step p l) ls) in H.
  destruct (step_listeners p l) as [Hrm Hkl].
  assert (Hcons : forall t, l = Fire t ->
            fired s (l :: ls) = (if Trigger_eqb s t then 1 else 0) + fired s ls).
  { intros t ->. unfold fired. cbn [filter].
    destruct (Trigger_eqb s t); reflexivity. }
  assert (Hmono : fired s ls <= fired s (l :: ls)).
  { unfold fired. cbn [filter]. destruct l as [t|n ok]; [|lia].
    destruct (Trigger_eqb s t); cbn [length]; lia. }
  destruct (IH _ _ H) as [Hk|[[Hin Hf]|Hf]].
  - destruct Hkl as [Hsame|(t & Hl & Honce & Hin & Hk')].
    + left. congruence.
    + assert (t = s) by congruence. subst t. right; left. split; [exact Hin|].
      rewrite (Hcons s Hl), Trigger_eqb_refl. lia.
  - destruct Hrm as [Hsame|(t & Hl & Hrm)].
    + right; left. split; [now rewrite <- Hsame | lia].
    + rewrite Hrm in Hin. cbn [existsb] in Hin.
      apply orb_prop in Hin. destruct Hin as [Heq|Hin].
      * right; right. rewrite (Hcons t Hl), Heq. lia.
      * right; left. split; [exact Hin | lia].
  - right; right. lia.
Qed.




Example shutdown_two_signals_and_a_fault :
  run (ready Sample.queue_world)
    [Fire SIGINT; Fire SIGTERM; Settle 0 false; Fire UncaughtException;
     Settle 0 true] =
  mkProc
    (mkWorld
       [EvLog Info "Shutting down";
        EvStopWorker;
        EvLog Error "Error while stopping queue worker";
        EvDestroy;
        EvLog Error "Uncaught exception";
        EvLog Info "Discord client destroyed";
        EvExit 0]
       false false [] None (Some (mkQueueManager true)) true)
    [] (Some 0%Z) [SIGTERM; SIGINT] None.
Proof. reflexivity. Qed.


(* ================================================================= *)
(** * Further properties *)

(* ================================================================= *)
(** ** The slash command when the queue fails *)

(** The run of the try block up to the await of the job result. *)
Lemma ask_body_until_wait :
  forall env w interaction qm question v0 job,
    queueManager w = Some qm ->
    option_question interaction = Some question ->
    answer_of env (length (trace w)) = Returns v0 ->
    answer_of env (length (trace w) + 1) = Returns job ->
    Js.nullish job = false ->
    exists w2,
      Ask.execute_body interaction env w =
        (result <- call (EvWaitForJobCompletion (Js.opt_get job "id")
                           (timeoutMs_of env)) ;;
         text <- as_text (pickAnswer result) ;;
         Ask.deliver interaction text) env w2 /\
      trace w2 =
        trace w ++
        [EvDeferReply;
         EvAddJob (mkJob "discord" (user_id interaction) (user_username interaction)
                     question (interaction_id interaction)
                     (clock env (length (trace w) + 1)))] /\
      deferred w2 = true.
Proof.
  intros env w interaction qm question v0 job Hqm Hq H0 H1 Hjob.
  unfold Ask.execute_body.
  rewrite (bind_ok _ _ get_world _ env w w w eq_refl), Hqm.
  unfold options_get_required. rewrite Hq.
  rewrite (bind_ok _ _ (ret question) _ env w question w eq_refl).
  set (w1 := with_deferred (with_trace w (trace w ++ [EvDeferReply])) true).
  assert (Hd : deferReply env w = (Ok tt, w1)).
  { unfold deferReply. now rewrite (bind_ok _ _ _ _ _ _ _ _ (call_returns _ _ _ _ H0)). }
  rewrite (bind_ok _ _ _ _ _ _ _ _ Hd).
  rewrite (bind_ok _ _ get_env _ env w1 env w1 eq_refl).
  assert (Hl1 : length (trace w1) = length (trace w) + 1)
    by (subst w1; cbn [trace with_deferred with_trace]; now rewrite length_app).
  rewrite (bind_ok _ _ Date_now _ env w1 _ w1 eq_refl).
  rewrite Hl1. rewrite <- Hl1 in H1.
  rewrite (bind_ok _ _ _ _ _ _ _ _ (call_returns _ _ _ _ H1)).
  set (w2 := with_trace w1 _).
  unfold get_strict. rewrite Hjob.
  rewrite (bind_ok _ _ (ret (Js.opt_get job "id")) _ env w2 _ w2 eq_refl).
  exists w2. split; [reflexivity|]. split; [|reflexivity].
  subst w2 w1. cbn [trace with_deferred with_trace].
  rewrite <- !app_assoc. reflexivity.
Qed.

(** X1. When the await of the job result throws after the reply was
    deferred and the job submitted, [/ask] logs the failure and edits the
    deferred reply once with the message for the error: the time-out text
    when the error is named [TimeoutError] or its message contains
    "timed out", the generic text otherwise. It sends no initial reply, and
    it returns when the transport accepts the edit. *)
Theorem ask_wait_failure_edits_deferred_reply :
  forall env w interaction qm question v0 job e,
    queueManager w = Some qm ->
    option_question interaction = Some question ->
    answer_of env (length (trace w)) = Returns v0 ->
    answer_of env (length (trace w) + 1) = Returns job ->
    Js.nullish job = false ->
    answer_of env (length (trace w) + 2) = Throws e ->
    trace (snd (Ask.execute interaction env w)) =
      trace w ++
      [EvDeferReply;
       EvAddJob (mkJob "discord" (user_id interaction) (user_username interaction)
                   question (interaction_id interaction)
                   (clock env (length (trace w) + 1)));
       EvWaitForJobCompletion (Js.opt_get job "id") (timeoutMs_of env);
       EvLog Error "Ask command failed";
       EvEditReply (mkPayload (Some (Ask.error_message e)) [] false)] /\
    fst (Ask.execute interaction env w) =
      match answer_of env (length (trace w) + 4) with
      | Returns _ => Ok tt
      | Throws e' => Throw e'
      end /\
    (err_name e = "TimeoutError" ->
       Ask.error_message e = "Request timed out. Try again.") /\
    (includes "timed out" (err_message e) = true ->
       Ask.error_message e = "Request timed out. Try again.") /\
    (includes "timed out" (err_message e) = false ->
     err_name e <> "TimeoutError" ->
       Ask.error_message e = "Error while processing the question.").
Proof.
  intros env w interaction qm question v0 job e Hqm Hq H0 H1 Hjob H2.
  destruct (ask_body_until_wait env w interaction qm question v0 job
              Hqm Hq H0 H1 Hjob) as (w2 & Hbody & Htr & Hdef).
  assert (Hl2 : length (trace w2) = length (trace w) + 2)
    by (rewrite Htr, length_app; simpl; lia).
  rewrite <- Hl2 in H2.
  set (w3 := with_trace w2 (trace w2 ++
                [EvWaitForJobCompletion (Js.opt_get job "id") (timeoutMs_of env)])).
  assert (Hthrow : Ask.execute_body interaction env w = (Throw e, w3)).
  { rewrite Hbody.
    now rewrite (bind_throw _ _ _ _ _ _ _ _ (call_throws _ _ _ _ H2)). }
  unfold Ask.execute. rewrite (try_catch_throw _ _ _ _ _ _ _ Hthrow).
  destruct (ask_catch_run e env w3) as (w4 & Hcatch & Htr4).
  rewrite Hcatch. cbn [fst snd].
  assert (Hl3 : S (length (trace w3)) = length (trace w) + 4)
    by (subst w3; cbn [trace with_trace]; rewrite length_app, Hl2; simpl; lia).
  rewrite Hl3. split; [|split; [reflexivity|]].
  - rewrite Htr4. unfold latch. subst w3. cbn [deferred replied trace with_trace].
    rewrite Hdef, Htr. cbn [orb]. rewrite <- !app_assoc. reflexivity.
  - unfold Ask.error_message. repeat split.
    + intros Hn. rewrite Hn. rewrite orb_true_r. reflexivity.
    + intros Hi. rewrite Hi. reflexivity.
    + intros Hi Hn. rewrite Hi. apply String.eqb_neq in Hn. rewrite Hn.
      reflexivity.
Qed.

(** X1 at a job whose await times out. *)
Lemma ask_wait_failure_edits_deferred_reply_witness :
  trace (snd (Ask.execute Sample.ask_interaction
                (Scenario.failing_at 2 Scenario.timeout_error) Sample.queue_world)) =
  [EvDeferReply;
   EvAddJob (mkJob "discord" "u1" "alice" "What is Starknet?" "i1" 0);
   EvWaitForJobCompletion (VStr "job-1") 60000;
   EvLog Error "Ask command failed";
   EvEditReply (mkPayload (Some "Request timed out. Try again.") [] false)].
Proof.
  exact (proj1 (ask_wait_failure_edits_deferred_reply
                  (Scenario.failing_at 2 Scenario.timeout_error) Sample.queue_world
                  Sample.ask_interaction (mkQueueManager true) "What is Starknet?"
                  Sample.job_1 Sample.job_1 Scenario.timeout_error
                  eq_refl eq_refl eq_refl eq_refl eq_refl eq_refl)).
Defined.

(** X2. When the submission of the job throws after the reply was deferred,
    [/ask] never awaits a result: it logs the failure and edits the deferred
    reply once with the message for the error. *)
Theorem ask_submit_failure_edits_deferred_reply :
  forall env w interaction qm question v0 e,
    queueManager w = Some qm ->
    option_question interaction = Some question ->
    answer_of env (length (trace w)) = Returns v0 ->
    answer_of env (length (trace w) + 1) = Throws e ->
    trace (snd (Ask.execute interaction env w)) =
      trace w ++
      [EvDeferReply;
       EvAddJob (mkJob "discord" (user_id interaction) (user_username interaction)
                   question (interaction_id interaction)
                   (clock env (length (trace w) + 1)));
       EvLog Error "Ask command failed";
       EvEditReply (mkPayload (Some (Ask.error_message e)) [] false)] /\
    fst (Ask.execute interaction env w) =
      match answer_of env (length (trace w) + 3) with
      | Returns _ => Ok tt
      | Throws e' => Throw e'
      end.
Proof.
  intros env w interaction qm question v0 e Hqm Hq H0 H1.
  set (w1 := with_deferred (with_trace w (trace w ++ [EvDeferReply])) true).
  assert (Hl1 : length (trace w1) = length (trace w) + 1)
    by (subst w1; cbn [trace with_deferred with_trace]; now rewrite length_app).
  set (w2 := with_trace w1 (trace w1 ++
     [EvAddJob (mkJob "discord" (user_id interaction) (user_username interaction)
                  question (interaction_id interaction)
                  (clock env (length (trace w) + 1)))])).
  assert (Hthrow : Ask.execute_body interaction env w = (Throw e, w2)).
  { unfold Ask.execute_body.
    rewrite (bind_ok _ _ get_world _ env w w w eq_refl), Hqm.
    unfold options_get_required. rewrite Hq.
    rewrite (bind_ok _ _ (ret question) _ env w question w eq_refl).
    assert (Hd : deferReply env w = (Ok tt, w1)).
    { unfold deferReply.
      now rewrite (bind_ok _ _ _ _ _ _ _ _ (call_returns _ _ _ _ H0)). }
    rewrite (bind_ok _ _ _ _ _ _ _ _ Hd).
    rewrite (bind_ok _ _ get_env _ env w1 env w1 eq_refl).
    rewrite (bind_ok _ _ Date_now _ env w1 _ w1 eq_refl).
    rewrite Hl1. rewrite <- Hl1 in H1.
    now rewrite (bind_throw _ _ _ _ _ _ _ _ (call_throws _ _ _ _ H1)). }
  unfold Ask.execute. rewrite (try_catch_throw _ _ _ _ _ _ _ Hthrow).
  destruct (ask_catch_run e env w2) as (w3 & Hcatch & Htr3).
  rewrite Hcatch. cbn [fst snd].
  assert (Hl2 : S (length (trace w2)) = length (trace w) + 3)
    by (subst w2; cbn [trace with_trace]; rewrite length_app, Hl1; simpl; lia).
  rewrite Hl2. split; [|reflexivity].
  rewrite Htr3. unfold latch. subst w2 w1.
  cbn [deferred replied trace with_trace with_deferred orb].
  rewrite <- !app_assoc. reflexivity.
Qed.

(** X2 at a queue that refuses the connection. *)
Lemma ask_submit_failure_edits_deferred_reply_witness :
  trace (snd (Ask.execute Sample.ask_interaction
                (Scenario.failing_at 1 Scenario.redis_down) Sample.queue_world)) =
  [EvDeferReply;
   EvAddJob (mkJob "discord" "u1" "alice" "What is Starknet?" "i1" 0);
   EvLog Error "Ask command failed";
   EvEditReply (mkPayload (Some "Error while processing the question.") [] false)].
Proof.
  exact (proj1 (ask_submit_failure_edits_deferred_reply
                  (Scenario.failing_at 1 Scenario.redis_down) Sample.queue_world
                  Sample.ask_interaction (mkQueueManager true) "What is Starknet?"
                  Sample.job_1 Scenario.redis_down eq_refl eq_refl eq_refl eq_refl)).
Defined.

(** X3. When the transport refuses [deferReply] on an interaction that was
    neither deferred nor replied to, [/ask] submits no job: it logs the
    failure and answers with one ephemeral initial reply. *)
Theorem ask_defer_refused_submits_nothing :
  forall env w interaction qm question e,
    queueManager w = Some qm ->
    option_question interaction = Some question ->
    deferred w = false ->
    replied w = false ->
    answer_of env (length (trace w)) = Throws e ->
    trace (snd (Ask.execute interaction env w)) =
      trace w ++
      [EvDeferReply;
       EvLog Error "Ask command failed";
       EvReply (mkPayload (Some (Ask.error_message e)) [] true)] /\
    count is_add_job (added w (snd (Ask.execute interaction env w))) = 0.
Proof.
  intros env w interaction qm question e Hqm Hq Hd Hr H0.
  set (w1 := with_trace w (trace w ++ [EvDeferReply])).
  assert (Hthrow : Ask.execute_body interaction env w = (Throw e, w1)).
  { unfold Ask.execute_body.
    rewrite (bind_ok _ _ get_world _ env w w w eq_refl), Hqm.
    unfold options_get_required. rewrite Hq.
    rewrite (bind_ok _ _ (ret question) _ env w question w eq_refl).
    assert (Hdr : deferReply env w = (Throw e, w1)).
    { unfold deferReply.
      now rewrite (bind_throw _ _ _ _ _ _ _ _ (call_throws _ _ _ _ H0)). }
    now rewrite (bind_throw _ _ _ _ _ _ _ _ Hdr). }
  unfold Ask.execute. rewrite (try_catch_throw _ _ _ _ _ _ _ Hthrow).
  destruct (ask_catch_run e env w1) as (w2 & Hcatch & Htr2).
  rewrite Hcatch. cbn [fst snd].
  assert (Ht : trace w2 =
    trace w ++
    [EvDeferReply; EvLog Error "Ask command failed";
     EvReply (mkPayload (Some (Ask.error_message e)) [] true)]).
  { rewrite Htr2. unfold latch. subst w1. cbn [deferred replied trace with_trace].
    rewrite Hd, Hr. cbn [orb]. rewrite <- !app_assoc. reflexivity. }
  rewrite (added_app _ _ _ Ht). split; [exact Ht | reflexivity].
Qed.

(** X3 at a transport that refuses the first call. *)
Lemma ask_defer_refused_submits_nothing_witness :
  trace (snd (Ask.execute Sample.ask_interaction
                (Scenario.failing_at 0 Scenario.redis_down) Sample.queue_world)) =
  [EvDeferReply;
   EvLog Error "Ask command failed";
   EvReply (mkPayload (Some "Error while processing the question.") [] true)].
Proof.
  exact (proj1 (ask_defer_refused_submits_nothing
                  (Scenario.failing_at 0 Scenario.redis_down) Sample.queue_world
                  Sample.ask_interaction (mkQueueManager true) "What is Starknet?"
                  Scenario.redis_down eq_refl eq_refl eq_refl eq_refl eq_refl)).
Defined.

(* ================================================================= *)
(** ** The mention flow: gates and failures *)

(** X4. A message written by a bot, a message received while the client has
    no user, and a message that does not mention the bot are ignored: the
    handler returns and leaves the world, trace included, as it was. *)
Theorem mention_ignored_messages_do_nothing :
  forall env w message,
    (author_bot message = true \/
     client_user message = None \/
     exists me, client_user message = Some me /\
                existsb (String.eqb me) (mentions_users message) = false) ->
    MessageCreate.execute message env w = (Ok tt, w).
Proof.
  intros env w message H.
  unfold MessageCreate.execute, try_catch, MessageCreate.execute_body.
  destruct H as [Hbot | [Hnone | (me & Hme & Hmention)]].
  - rewrite Hbot. reflexivity.
  - rewrite Hnone. destruct (author_bot message); reflexivity.
  - rewrite Hme, Hmention. destruct (author_bot message); reflexivity.
Qed.

Lemma mention_ignored_messages_do_nothing_witness :
  MessageCreate.execute
    (mkMessage false "u1" "alice" "hello" "m1" [] (Some "42") true)
    Sample.accepting Sample.queue_world = (Ok tt, Sample.queue_world).
Proof.
  apply mention_ignored_messages_do_nothing.
  right; right. exists "42". split; reflexivity.
Defined.

(** X5. The handler of the mention flow never rejects: whatever the
    collaborators answer, and even when its own error reply is refused, it
    returns. *)
Theorem mention_handler_never_throws :
  forall env w message, fst (MessageCreate.execute message env w) = Ok tt.
Proof.
  intros env w message. unfold MessageCreate.execute, try_catch.
  destruct (timer_safe_execute_body message env w) as (t & _ & _ & _ & Hr).
  destruct (MessageCreate.execute_body message env w) as [r w1].
  simpl in Hr. destruct r as [[]|e|c|]; try contradiction.
  - reflexivity.
  - apply mention_catch_returns.
Qed.

Lemma leaves_queue_alone_message_reply : forall p,
  quiet leaves_queue_alone (message_reply p).
Proof.
  intros p. unfold message_reply. apply quiet_bind.
  - now apply quiet_call.
  - intros _. apply quiet_ret.
Qed.

(** X6. While no queue manager is attached to the client, the mention flow
    never reaches the queue and never signals typing: whatever the message
    and whatever the collaborators answer, a run adds no [addJob], no
    [waitForJobCompletion], no [sendTyping] and no timer to the trace. *)
Theorem mention_without_queue_manager_is_idle :
  forall env w message,
    queueManager w = None ->
    forallb leaves_queue_alone
      (added w (snd (MessageCreate.execute message env w))) = true.
Proof.
  intros env w message Hqm.
  assert (Hbody : exists t,
    trace (snd (MessageCreate.execute_body message env w)) = trace w ++ t /\
    forallb leaves_queue_alone t = true /\
    returns_or_throws (fst (MessageCreate.execute_body message env w))).
  { assert (Hq : forall A (m : M A), quiet leaves_queue_alone m ->
      exists t, trace (snd (m env w)) = trace w ++ t /\
                forallb leaves_queue_alone t = true /\
                returns_or_throws (fst (m env w))).
    { intros A m Hm. destruct (Hm env w) as (t & Ht & HP & _ & Hr). eauto. }
    unfold MessageCreate.execute_body.
    destruct (author_bot message); [apply Hq, quiet_ret|].
    destruct (client_user message) as [me|]; [|apply Hq, quiet_ret].
    destruct (negb _); [apply Hq, quiet_ret|].
    destruct (String.eqb _ _); [apply Hq, leaves_queue_alone_message_reply|].
    rewrite (bind_ok _ _ get_world _ env w w w eq_refl), Hqm.
    apply Hq, leaves_queue_alone_message_reply. }
  destruct Hbody as (t & Ht & HP & Hr).
  unfold MessageCreate.execute, try_catch.
  destruct (MessageCreate.execute_body message env w) as [r w1].
  simpl in Ht, Hr. destruct r as [[]|e|c|]; try contradiction.
  - cbn [snd]. now rewrite (added_app _ _ _ Ht).
  - assert (Hc : quiet leaves_queue_alone (MessageCreate.execute_catch e)).
    { unfold MessageCreate.execute_catch.
      apply quiet_bind; [now apply quiet_log | intros _].
      apply quiet_try_catch;
        [apply leaves_queue_alone_message_reply | intros _; apply quiet_ret]. }
    destruct (Hc env w1) as (t2 & Ht2 & HP2 & _).
    assert (Hall : trace (snd (MessageCreate.execute_catch e env w1)) =
                   trace w ++ (t ++ t2))
      by (rewrite Ht2, Ht; now rewrite app_assoc).
    rewrite (added_app _ _ _ Hall), forallb_app, HP, HP2. reflexivity.
Qed.

Lemma mention_without_queue_manager_is_idle_witness :
  forallb leaves_queue_alone
    (added Sample.fresh_world
       (snd (MessageCreate.execute Sample.mention_message Sample.accepting
               Sample.fresh_world))) = true.
Proof.
  exact (mention_without_queue_manager_is_idle Sample.accepting
           Sample.fresh_world Sample.mention_message eq_refl).
Defined.

(** X7. When a message passes the gates of the mention flow and the first
    typing signal is accepted, a guarded block that throws (a refused
    submission, a time-out, any exception) is followed by the clearing of
    the heartbeat, a log line and one reply with the fixed error text,
    whatever the error was; the handler returns even when that reply is
    refused. *)
Theorem mention_failure_clears_then_replies :
  forall env w message me qm v e w3,
    author_bot message = false ->
    client_user message = Some me ->
    existsb (String.eqb me) (mentions_users message) = true ->
    trim (strip_mentions me (message_content message)) <> EmptyString ->
    queueManager w = Some qm ->
    channel_has_send message = true ->
    answer_of env (length (trace w)) = Returns v ->
    MessageCreate.ask_and_deliver message
      (trim (strip_mentions me (message_content message))) env
      (with_timers
         (with_trace w
            (trace w ++ [EvSendTyping; EvSetInterval (fresh_timer (timers w)) 8000]))
         (fresh_timer (timers w) :: timers w)) = (Throw e, w3) ->
    trace (snd (MessageCreate.execute message env w)) =
      trace w3 ++
      [EvClearInterval (fresh_timer (timers w));
       EvLog Error "messageCreate handler failed";
       EvMessageReply
         (mkPayload (Some "Error processing your question. Try /ask.") [] false)] /\
    timers (snd (MessageCreate.execute message env w)) = timers w /\
    fst (MessageCreate.execute message env w) = Ok tt.
Proof.
  intros env w message me qm v e w3 Hbot Hme Hmention Hq Hqm Hsend Hans Hblock.
  set (question := trim (strip_mentions me (message_content message))) in *.
  set (id := fresh_timer (timers w)) in *.
  set (w2 := with_timers _ _) in Hblock.
  destruct (quiet_ask_and_deliver message question env w2) as (mid & Hmid & _ & Htm & _).
  rewrite Hblock in Hmid, Htm. cbn [fst snd] in Hmid, Htm.
  set (w4 := with_timers (with_trace w3 (trace w3 ++ [EvClearInterval id]))
               (remove Nat.eq_dec id (timers w3))).
  assert (Hbody : MessageCreate.execute_body message env w = (Throw e, w4)).
  { unfold MessageCreate.execute_body.
    rewrite Hbot, Hme, Hmention. cbn [negb]. fold question.
    apply String.eqb_neq in Hq. rewrite Hq.
    rewrite (bind_ok _ _ get_world _ env w w w eq_refl), Hqm, Hsend. cbn [negb].
    unfold MessageCreate.typing_and_ask.
    set (w1 := with_trace w (trace w ++ [EvSendTyping])).
    assert (Hst : sendTyping env w = (Ok tt, w1)).
    { unfold sendTyping.
      now rewrite (bind_ok _ _ _ _ _ _ _ _ (call_returns _ _ _ _ Hans)). }
    rewrite (bind_ok _ _ _ _ _ _ _ _ Hst).
    assert (Hsi : setInterval 8000 env w1 = (Ok id, w2)).
    { unfold setInterval. subst w1 w2 id. cbn [trace timers with_trace with_timers].
      rewrite <- app_assoc. reflexivity. }
    rewrite (bind_ok _ _ _ _ _ _ _ _ Hsi).
    unfold try_finally. rewrite Hblock. reflexivity. }
  unfold MessageCreate.execute. rewrite (try_catch_throw _ _ _ _ _ _ _ Hbody).
  split; [|split].
  - rewrite mention_catch_trace. subst w4. cbn [trace with_trace with_timers].
    now rewrite <- app_assoc.
  - destruct (quiet_MessageCreate_catch e env w4) as (t & _ & _ & Htm4 & _).
    rewrite Htm4. subst w4. cbn [timers with_timers]. rewrite Htm.
    subst w2. cbn [timers with_timers]. apply remove_fresh_timer.
  - apply mention_catch_returns.
Qed.

Lemma mention_failure_clears_then_replies_witness :
  trace (snd (MessageCreate.execute Sample.mention_message
                (Scenario.failing_at 2 Scenario.redis_down) Sample.queue_world)) =
  [EvSendTyping; EvSetInterval 1 8000;
   EvAddJob (mkJob "discord" "u1" "alice" "What is Starknet?" "m1" 0);
   EvClearInterval 1;
   EvLog Error "messageCreate handler failed";
   EvMessageReply
     (mkPayload (Some "Error processing your question. Try /ask.") [] false)].
Proof.
  refine (proj1 (mention_failure_clears_then_replies
                   (Scenario.failing_at 2 Scenario.redis_down) Sample.queue_world
                   Sample.mention_message "42" (mkQueueManager true) Sample.job_1
                   Scenario.redis_down _ eq_refl eq_refl eq_refl _ eq_refl eq_refl
                   eq_refl eq_refl)).
  discriminate.
Defined.

(* ================================================================= *)
(** ** The question of a mention: [trim] and [strip_mentions] *)

Lemma trim_start_first : forall s, not_space (first_char (trim_start s)) = true.
Proof.
  induction s as [|c s IH]; [reflexivity|].
  simpl. destruct (is_space c) eqn:E; [exact IH|]. simpl. now rewrite E.
Qed.

Lemma trim_start_clean : forall s,
  not_space (first_char s) = true -> trim_start s = s.
Proof.
  intros [|c s] H; [reflexivity|]. simpl in *.
  apply negb_true_iff in H. now rewrite H.
Qed.

Lemma trim_end_cons : forall c s,
  is_space c = false -> trim_end (String c s) = String c (trim_end s).
Proof.
  intros c s H. simpl. destruct (trim_end s); [now rewrite H | reflexivity].
Qed.

Lemma trim_end_idempotent : forall s, trim_end (trim_end s) = trim_end s.
Proof.
  induction s as [|c s IH]; [reflexivity|].
  simpl. destruct (trim_end s) as [|k ks] eqn:E.
  - destruct (is_space c) eqn:Ec; [reflexivity|]. simpl. now rewrite Ec.
  - change (trim_end (String c (String k ks)))
      with (match trim_end (String k ks) with
            | EmptyString => if is_space c then EmptyString else String c EmptyString
            | kept => String c kept
            end).
    rewrite IH. reflexivity.
Qed.

Lemma trim_end_last : forall s, not_space (last_char (trim_end s)) = true.
Proof.
  induction s as [|c s IH]; [reflexivity|].
  simpl. destruct (trim_end s) as [|k ks] eqn:E.
  - destruct (is_space c) eqn:Ec; [reflexivity|]. simpl. now rewrite Ec.
  - exact IH.
Qed.

Lemma trim_end_first : forall s,
  not_space (first_char s) = true -> not_space (first_char (trim_end s)) = true.
Proof.
  intros [|c s] H; [reflexivity|]. simpl in H. apply negb_true_iff in H.
  rewrite trim_end_cons by exact H. simpl. now rewrite H.
Qed.

Lemma trim_end_length : forall s, String.length (trim_end s) <= String.length s.
Proof.
  induction s as [|c s IH]; [simpl; lia|].
  simpl. destruct (trim_end s); [destruct (is_space c)|]; simpl in *; lia.
Qed.

Lemma trim_start_length : forall s, String.length (trim_start s) <= String.length s.
Proof.
  induction s as [|c s IH]; [simpl; lia|].
  simpl. destruct (is_space c); simpl; lia.
Qed.

(** X8. [trim] gives a string that neither starts nor ends with white
    space and is no longer than its argument; trimming again changes
    nothing. *)
Theorem trim_strips_both_ends :
  forall s,
    not_space (first_char (trim s)) = true /\
    not_space (last_char (trim s)) = true /\
    trim (trim s) = trim s /\
    String.length (trim s) <= String.length s.
Proof.
  intros s. unfold trim.
  assert (Hfirst : not_space (first_char (trim_end (trim_start s))) = true)
    by apply trim_end_first, trim_start_first.
  repeat split.
  - exact Hfirst.
  - apply trim_end_last.
  - rewrite (trim_start_clean _ Hfirst). apply trim_end_idempotent.
  - pose proof (trim_end_length (trim_start s)).
    pose proof (trim_start_length s). lia.
Qed.

Lemma string_append_assoc : forall a b c : string,
  ((a ++ b) ++ c)%string = (a ++ (b ++ c))%string.
Proof.
  induction a as [|x a IH]; intros b c; simpl; [reflexivity | now rewrite IH].
Qed.

Lemma prefix_append : forall p r, String.prefix p (p ++ r) = true.
Proof.
  induction p as [|c p IH]; intros r; cbn [String.prefix append].
  - destruct r; reflexivity.
  - destruct (ascii_dec c c) as [_|N]; [apply IH | congruence].
Qed.

Lemma strip_skip : forall id p r,
  strip_mentions_from id (String.length p) (p ++ r) = strip_mentions_from id 0 r.
Proof.
  intros id. induction p as [|c p IH]; intros r; [reflexivity|].
  simpl. apply IH.
Qed.

Lemma strip_length : forall id s k,
  String.length (strip_mentions_from id k s) <= String.length s.
Proof.
  intros id. induction s as [|c s IH]; intros k; [simpl; lia|].
  cbn [strip_mentions_from]. destruct k as [|k].
  - destruct (String.prefix _ _).
    + specialize (IH (String.length id + 2)). simpl. lia.
    + destruct (String.prefix _ _).
      * specialize (IH (String.length id + 3)). simpl. lia.
      * specialize (IH 0). simpl. lia.
  - specialize (IH k). simpl. lia.
Qed.

Lemma strip_without_lt : forall id s,
  includes "<" s = false -> strip_mentions_from id 0 s = s.
Proof.
  intros id. induction s as [|c s IH]; intros H; [reflexivity|].
  cbn [includes] in H. apply orb_false_iff in H. destruct H as [Hp Hrest].
  assert (Hc : c <> "<"%char).
  { intros ->. cbn [String.prefix] in Hp.
    destruct (ascii_dec "<" "<") as [_|N]; [|congruence].
    destruct s; discriminate. }
  cbn [strip_mentions_from].
  assert (H1 : String.prefix ("<@" ++ id ++ ">") (String c s) = false).
  { cbn [String.prefix append].
    destruct (ascii_dec "<" c) as [E|_]; [congruence | reflexivity]. }
  assert (H2 : String.prefix ("<@!" ++ id ++ ">") (String c s) = false).
  { cbn [String.prefix append].
    destruct (ascii_dec "<" c) as [E|_]; [congruence | reflexivity]. }
  rewrite H1, H2. f_equal. apply IH, Hrest.
Qed.

(** Text without ["<"] in front of a text is kept. *)
Lemma strip_after_plain : forall id pre s,
  includes "<" pre = false ->
  strip_mentions_from id 0 (pre ++ s) = (pre ++ strip_mentions_from id 0 s)%string.
Proof.
  intros id. induction pre as [|c pre IH]; intros s H; [reflexivity|].
  cbn [includes] in H. apply orb_false_iff in H. destruct H as [Hp Hrest].
  assert (Hc : c <> "<"%char).
  { intros ->. cbn [String.prefix] in Hp.
    destruct (ascii_dec "<" "<") as [_|N]; [|congruence].
    destruct pre; discriminate. }
  change (String c pre ++ s)%string with (String c (pre ++ s)).
  cbn [strip_mentions_from].
  assert (H1 : String.prefix ("<@" ++ id ++ ">") (String c (pre ++ s)) = false).
  { cbn [String.prefix append].
    destruct (ascii_dec "<" c) as [E|_]; [congruence | reflexivity]. }
  assert (H2 : String.prefix ("<@!" ++ id ++ ">") (String c (pre ++ s)) = false).
  { cbn [String.prefix append].
    destruct (ascii_dec "<" c) as [E|_]; [congruence | reflexivity]. }
  rewrite H1, H2. change (String c pre ++ strip_mentions_from id 0 s)%string
    with (String c (pre ++ strip_mentions_from id 0 s)).
  f_equal. apply IH, Hrest.
Qed.

(** A mention at the head of a text is dropped. *)
Lemma strip_head_mention : forall id rest,
  strip_mentions_from id 0 ("<@" ++ id ++ ">" ++ rest) =
    strip_mentions_from id 0 rest.
Proof.
  intros id rest.
  set (tail := String "@" (id ++ ">" ++ rest)).
  assert (Etail : tail = (("@" ++ id ++ ">") ++ rest)%string).
  { subst tail. cbn [append]. now rewrite string_append_assoc. }
  assert (Ehead : String "<" tail = (("<@" ++ id ++ ">") ++ rest)%string).
  { rewrite Etail. reflexivity. }
  assert (HP : String.prefix ("<@" ++ id ++ ">") (String "<" tail) = true).
  { rewrite Ehead. apply prefix_append. }
  change (strip_mentions_from id 0 (String "<" tail) =
          strip_mentions_from id 0 rest).
  cbn [strip_mentions_from]. rewrite HP, Etail.
  replace (String.length id + 2) with (String.length ("@" ++ id ++ ">")).
  - apply strip_skip.
  - cbn [append String.length]. rewrite string_length_append. simpl. lia.
Qed.

(** The same for a mention written with an exclamation mark; an id of
    digits does not start with one. *)
Lemma strip_head_nick_mention : forall id rest,
  all_digits id = true ->
  strip_mentions_from id 0 ("<@!" ++ id ++ ">" ++ rest) =
    strip_mentions_from id 0 rest.
Proof.
  intros id rest Hid.
  set (tail := String "@" (String "!" (id ++ ">" ++ rest))).
  assert (Etail : tail = (("@!" ++ id ++ ">") ++ rest)%string).
  { subst tail. cbn [append]. now rewrite string_append_assoc. }
  assert (Ehead : String "<" tail = (("<@!" ++ id ++ ">") ++ rest)%string).
  { rewrite Etail. reflexivity. }
  assert (HP : String.prefix ("<@!" ++ id ++ ">") (String "<" tail) = true).
  { rewrite Ehead. apply prefix_append. }
  assert (HN : String.prefix ("<@" ++ id ++ ">") (String "<" tail) = false).
  { subst tail. cbn [String.prefix append].
    destruct (ascii_dec "<" "<") as [_|N]; [|congruence].
    destruct (ascii_dec "@" "@") as [_|N]; [|congruence].
    destruct id as [|c id]; cbn [String.prefix append].
    - destruct (ascii_dec ">" "!") as [E|_]; [discriminate E | reflexivity].
    - destruct (ascii_dec c "!") as [E|_]; [|reflexivity].
      subst c. cbn in Hid. discriminate Hid. }
  change (strip_mentions_from id 0 (String "<" tail) =
          strip_mentions_from id 0 rest).
  cbn [strip_mentions_from]. rewrite HN, HP, Etail.
  replace (String.length id + 3) with (String.length ("@!" ++ id ++ ">")).
  - apply strip_skip.
  - cbn [append String.length]. rewrite string_length_append. simpl. lia.
Qed.

(** X9. For an id of digits, as the ids of Discord are, [strip_mentions]
    drops a mention of the bot in either form, [<@id>] or [<@!id>], after
    any text that holds no ["<"], and goes on with what follows the
    mention; it leaves a text without ["<"] as it is and never gives a
    longer text. *)
Theorem strip_mentions_drops_mentions :
  forall id before rest s,
    all_digits id = true ->
    includes "<" before = false ->
    strip_mentions id (before ++ "<@" ++ id ++ ">" ++ rest) =
      (before ++ strip_mentions id rest)%string /\
    strip_mentions id (before ++ "<@!" ++ id ++ ">" ++ rest) =
      (before ++ strip_mentions id rest)%string /\
    (includes "<" s = false -> strip_mentions id s = s) /\
    String.length (strip_mentions id s) <= String.length s.
Proof.
  intros id before rest s Hid Hbefore. unfold strip_mentions.
  split; [|split; [|split]].
  - rewrite strip_after_plain by exact Hbefore. f_equal.
    apply strip_head_mention.
  - rewrite strip_after_plain by exact Hbefore. f_equal.
    now apply strip_head_nick_mention.
  - apply strip_without_lt.
  - apply strip_length.
Qed.

Lemma strip_mentions_drops_mentions_witness :
  strip_mentions "42" "hey <@!42> what is <@42>Starknet?" =
  "hey  what is Starknet?".
Proof.
  exact (proj1 (proj2 (strip_mentions_drops_mentions "42" "hey "
                         " what is <@42>Starknet?" "" eq_refl eq_refl))).
Defined.

(* ================================================================= *)
(** ** The loaders: what they import and what they leave in the registry *)

Section GuardedCall.

Variable P : Event -> bool.
Hypothesis P_log : forall lvl msg, P (EvLog lvl msg) = true.
Hypothesis P_toJSON : forall addr, P (EvCallToJSON addr) = true.
Hypothesis P_on : forall once name, P (EvClientOn once name) = true.

(** A call whose continuation is guarded by a catch block that only logs:
    the whole returns, and after the call it adds only events of [P]. *)
Lemma guarded_call : forall ev (k : JsVal -> M unit) lvl msg,
  (forall v, quiet P (k v)) ->
  forall env w,
    exists t w',
      try_catch (x <- call ev ;; k x) (fun err => log lvl msg) env w = (Ok tt, w') /\
      trace w' = trace w ++ ev :: t /\
      forallb P t = true.
Proof.
  intros ev k lvl msg Hk env w. unfold try_catch.
  destruct (answer_of env (length (trace w))) as [v|e] eqn:Hans.
  - rewrite (bind_ok _ _ _ _ _ _ _ _ (call_returns _ _ _ _ Hans)).
    set (w1 := with_trace w (trace w ++ [ev])).
    destruct (Hk v env w1) as (t & Ht & HP & _ & Hr).
    destruct (k v env w1) as [r w2]. simpl in Ht, Hr.
    destruct r as [[]|e|c|]; try contradiction.
    + exists t, w2. split; [reflexivity|]. split; [|exact HP].
      rewrite Ht. subst w1. cbn [trace with_trace]. now rewrite <- app_assoc.
    + exists (t ++ [EvLog lvl msg]). eexists. split; [reflexivity|]. split.
      * cbn [trace with_trace]. rewrite Ht. subst w1. cbn [trace with_trace].
        now rewrite <- !app_assoc.
      * rewrite forallb_app, HP. simpl. now rewrite P_log.
  - rewrite (bind_throw _ _ _ _ _ _ _ _ (call_throws _ _ _ _ Hans)).
    exists [EvLog lvl msg]. eexists. split; [reflexivity|]. split.
    + cbn [trace with_trace]. now rewrite <- app_assoc.
    + simpl. now rewrite P_log.
Qed.

Lemma quiet_command_name_P : forall data, quiet P (CommandLoader.command_name data).
Proof.
  intros data. unfold CommandLoader.command_name.
  destruct (negb _); [apply quiet_ret|].
  destruct (Js.nullish _); [apply quiet_ret|].
  destruct (Js.opt_get data "toJSON"); try apply quiet_throw.
  apply quiet_bind; [apply quiet_call, P_toJSON | intros json; apply quiet_get_strict].
Qed.

(** One file of the command loader: the import, then events of [P]; the
    loop goes on whatever the module was. *)
Lemma command_load_file_run : forall file env w,
  exists t w',
    CommandLoader.load_file file env w = (Ok tt, w') /\
    trace w' = trace w ++ EvImport ("commands/" ++ file) :: t /\
    forallb P t = true.
Proof.
  intros file env w. unfold CommandLoader.load_file.
  apply guarded_call. intros exports.
  destruct (_ && _); [|apply quiet_log, P_log].
  apply quiet_bind; [apply quiet_command_name_P | intros name].
  destruct (negb _); [apply quiet_log, P_log|].
  apply quiet_bind; [apply quiet_commands_set | intros _; apply quiet_log, P_log].
Qed.

(** One file of the event loader. *)
Lemma event_load_file_run : forall file env w,
  exists t w',
    EventLoader.load_file file env w = (Ok tt, w') /\
    trace w' = trace w ++ EvImport ("events/" ++ file) :: t /\
    forallb P t = true.
Proof.
  intros file env w. unfold EventLoader.load_file.
  apply guarded_call. intros exports.
  destruct (_ || _); [apply quiet_log, P_log|].
  apply quiet_bind; [apply quiet_call, P_on | intros _; apply quiet_log, P_log].
Qed.

End GuardedCall.

Lemma not_import_filter : forall t,
  forallb not_import t = true -> filter is_import t = [].
Proof.
  induction t as [|ev t IH]; intros H; [reflexivity|].
  simpl in H. apply andb_prop in H. destruct H as [Hev Ht].
  simpl. unfold not_import in Hev. apply negb_true_iff in Hev.
  rewrite Hev. auto.
Qed.

(** A loop over files in which every turn returns after importing its
    file: the imports are those of the files, in order. *)
Lemma for_each_imports : forall (dir : string) (load : string -> M unit),
  (forall file env w,
     exists t w',
       load file env w = (Ok tt, w') /\
       trace w' = trace w ++ EvImport (dir ++ "/" ++ file) :: t /\
       forallb not_import t = true) ->
  forall files env w,
    exists t w',
      for_each files load env w = (Ok tt, w') /\
      trace w' = trace w ++ t /\
      filter is_import t = map (fun f => EvImport (dir ++ "/" ++ f)) files.
Proof.
  intros dir load Hload. induction files as [|f files IH]; intros env w.
  - exists [], w. cbn. now rewrite app_nil_r.
  - destruct (Hload f env w) as (t1 & w1 & Hrun1 & Ht1 & HP1).
    destruct (IH env w1) as (t2 & w2 & Hrun2 & Ht2 & HF2).
    exists (EvImport (dir ++ "/" ++ f) :: t1 ++ t2), w2. split; [|split].
    + cbn [for_each]. now rewrite (bind_ok _ _ _ _ _ _ _ _ Hrun1).
    + rewrite Ht2, Ht1. now rewrite <- app_assoc.
    + cbn [filter is_import map]. rewrite filter_app, HF2.
      now rewrite (not_import_filter _ HP1).
Qed.

(** X10. Whatever the modules are and whatever their import answers,
    [loadCommands] returns, and when the commands directory can be listed
    it imports each module file of the listing once, in the order of the
    listing, and no other file: a module that cannot be loaded does not
    stop the loop. *)
Theorem loadCommands_imports_every_module_file :
  forall env w files,
    readdir_of env (length (trace w)) = inr files ->
    fst (CommandLoader.loadCommands env w) = Ok tt /\
    filter is_import (added w (snd (CommandLoader.loadCommands env w))) =
      map (fun f => EvImport ("commands/" ++ f)) (filter is_module_file files).
Proof.
  intros env w files Hdir. unfold CommandLoader.loadCommands.
  rewrite (bind_ok _ _ get_world _ env w w w eq_refl).
  assert (Hinit :
    exists w0, (match commands w with
     | Some _ => ret tt
     | None => put_world (with_commands w (Some []))
     end) env w = (Ok tt, w0) /\ trace w0 = trace w).
  { destruct (commands w); eexists; split; reflexivity. }
  destruct Hinit as (w0 & Hrun0 & Ht0).
  rewrite (bind_ok _ _ _ _ _ _ _ _ Hrun0).
  set (w1 := with_trace w0 (trace w0 ++ [EvReaddir "commands"])).
  assert (Hread :
    try_catch
      (files <- CommandLoader.readdir CommandLoader.commandsPath ;; ret (Some files))
      (fun err => log Error "Failed to read commands directory" ;; ret None)
      env w0 = (Ok (Some files), w1)).
  { apply try_catch_ok.
    assert (Hrd : CommandLoader.readdir CommandLoader.commandsPath env w0 =
                  (Ok files, w1)).
    { unfold CommandLoader.readdir. rewrite Ht0, Hdir, <- Ht0. reflexivity. }
    now rewrite (bind_ok _ _ _ _ _ _ _ _ Hrd). }
  rewrite (bind_ok _ _ _ _ _ _ _ _ Hread).
  destruct (for_each_imports "commands" CommandLoader.load_file
              (command_load_file_run not_import (fun _ _ => eq_refl)
                 (fun _ => eq_refl))
              (filter is_module_file files) env w1)
    as (t & w2 & Hrun & Ht & HF).
  rewrite Hrun. cbn [fst snd]. split; [reflexivity|].
  assert (Hall : trace w2 = trace w ++ EvReaddir "commands" :: t).
  { rewrite Ht. subst w1. cbn [trace with_trace]. rewrite Ht0.
    now rewrite <- app_assoc. }
  rewrite (added_app _ _ _ Hall). cbn [filter is_import]. exact HF.
Qed.

Lemma loadCommands_imports_every_module_file_witness :
  filter is_import
    (added Sample.fresh_world
       (snd (CommandLoader.loadCommands
               (Scenario.listing ["ask.js"; "types.d.ts"; "_util.js"; "help.ts"])
               Sample.fresh_world))) =
  map (fun f => EvImport ("commands/" ++ f))
    (filter is_module_file ["ask.js"; "types.d.ts"; "_util.js"; "help.ts"]).
Proof.
  exact (proj2 (loadCommands_imports_every_module_file
                  (Scenario.listing ["ask.js"; "types.d.ts"; "_util.js"; "help.ts"])
                  Sample.fresh_world _ eq_refl)).
Defined.

(** X11. The same for [loadEvents] and the events directory. *)
Theorem loadEvents_imports_every_module_file :
  forall env w files,
    readdir_of env (length (trace w)) = inr files ->
    fst (EventLoader.loadEvents env w) = Ok tt /\
    filter is_import (added w (snd (EventLoader.loadEvents env w))) =
      map (fun f => EvImport ("events/" ++ f)) (filter is_module_file files).
Proof.
  intros env w files Hdir. unfold EventLoader.loadEvents.
  set (w1 := with_trace w (trace w ++ [EvReaddir "events"])).
  assert (Hread :
    try_catch
      (files <- CommandLoader.readdir EventLoader.eventsPath ;; ret (Some files))
      (fun err => log Error "Failed to read events directory" ;; ret None)
      env w = (Ok (Some files), w1)).
  { apply try_catch_ok.
    assert (Hrd : CommandLoader.readdir EventLoader.eventsPath env w =
                  (Ok files, w1)).
    { unfold CommandLoader.readdir. now rewrite Hdir. }
    now rewrite (bind_ok _ _ _ _ _ _ _ _ Hrd). }
  rewrite (bind_ok _ _ _ _ _ _ _ _ Hread).
  destruct (for_each_imports "events" EventLoader.load_file
              (event_load_file_run not_import (fun _ _ => eq_refl)
                 (fun _ _ => eq_refl))
              (filter is_module_file files) env w1)
    as (t & w2 & Hrun & Ht & HF).
  rewrite Hrun. cbn [fst snd]. split; [reflexivity|].
  assert (Hall : trace w2 = trace w ++ EvReaddir "events" :: t).
  { rewrite Ht. subst w1. cbn [trace with_trace]. now rewrite <- app_assoc. }
  rewrite (added_app _ _ _ Hall). cbn [filter is_import]. exact HF.
Qed.

Lemma loadEvents_imports_every_module_file_witness :
  filter is_import
    (added Sample.fresh_world
       (snd (EventLoader.loadEvents
               (Scenario.listing ["ready.js"; "ready.js.map"])
               Sample.fresh_world))) =
  map (fun f => EvImport ("events/" ++ f))
    (filter is_module_file ["ready.js"; "ready.js.map"]).
Proof.
  exact (proj2 (loadEvents_imports_every_module_file
                  (Scenario.listing ["ready.js"; "ready.js.map"])
                  Sample.fresh_world _ eq_refl)).
Defined.

(** X12. When the commands directory cannot be listed, [loadCommands] logs
    the error, imports nothing and returns; the client is left with a
    registry, the one it had or an empty one, so every later dispatch finds
    a map to look into. *)
Theorem loadCommands_unreadable_directory :
  forall env w e,
    readdir_of env (length (trace w)) = inl e ->
    fst (CommandLoader.loadCommands env w) = Ok tt /\
    added w (snd (CommandLoader.loadCommands env w)) =
      [EvReaddir "commands"; EvLog Error "Failed to read commands directory"] /\
    commands (snd (CommandLoader.loadCommands env w)) =
      Some (match commands w with Some reg => reg | None => [] end).
Proof.
  intros env w e Hdir. unfold CommandLoader.loadCommands.
  rewrite (bind_ok _ _ get_world _ env w w w eq_refl).
  assert (Hinit :
    exists w0, (match commands w with
     | Some _ => ret tt
     | None => put_world (with_commands w (Some []))
     end) env w = (Ok tt, w0) /\ trace w0 = trace w /\
     commands w0 = Some (match commands w with Some reg => reg | None => [] end)).
  { destruct (commands w) eqn:Hc; eexists; (split; [reflexivity|]); auto. }
  destruct Hinit as (w0 & Hrun0 & Ht0 & Hc0).
  rewrite (bind_ok _ _ _ _ _ _ _ _ Hrun0).
  set (w1 := with_trace w0 (trace w0 ++ [EvReaddir "commands"])).
  set (w2 := with_trace w1 (trace w1 ++
                [EvLog Error "Failed to read commands directory"])).
  assert (Hread :
    try_catch
      (files <- CommandLoader.readdir CommandLoader.commandsPath ;; ret (Some files))
      (fun err => log Error "Failed to read commands directory" ;; ret None)
      env w0 = (Ok None, w2)).
  { assert (Hrd : CommandLoader.readdir CommandLoader.commandsPath env w0 =
                  (Throw e, w1)).
    { unfold CommandLoader.readdir. rewrite Ht0, Hdir, <- Ht0. reflexivity. }
    rewrite (try_catch_throw _ _ _ _ _ e w1); [reflexivity|].
    now rewrite (bind_throw _ _ _ _ _ _ _ _ Hrd). }
  rewrite (bind_ok _ _ _ _ _ _ _ _ Hread). cbn [ret fst snd].
  repeat split.
  - apply added_app. subst w2 w1. cbn [trace with_trace]. rewrite Ht0.
    now rewrite <- app_assoc.
  - subst w2 w1. cbn [commands with_trace]. exact Hc0.
Qed.

Lemma loadCommands_unreadable_directory_witness :
  added Sample.fresh_world
    (snd (CommandLoader.loadCommands
            (mkEnv (fun _ => Returns VUndef) (fun _ => inl Scenario.redis_down)
               (fun _ => 0%Z) None None (mkQueueManager true) Sample.plain_host)
            Sample.fresh_world)) =
  [EvReaddir "commands"; EvLog Error "Failed to read commands directory"].
Proof.
  exact (proj1 (proj2 (loadCommands_unreadable_directory
                         (mkEnv (fun _ => Returns VUndef)
                            (fun _ => inl Scenario.redis_down)
                            (fun _ => 0%Z) None None (mkQueueManager true) Sample.plain_host)
                         Sample.fresh_world Scenario.redis_down eq_refl))).
Defined.

Section Keeps.

Variable R : World -> World -> Prop.
Hypothesis R_refl : forall w, R w w.
Hypothesis R_trans : forall a b c, R a b -> R b c -> R a c.
Hypothesis R_trace : forall w t, R w (with_trace w t).

Lemma keeps_ret : forall A (a : A), keeps R (ret a).
Proof. intros A a env w. apply R_refl. Qed.

Lemma keeps_throw : forall A e, keeps R (@throw A e).
Proof. intros A e env w. apply R_refl. Qed.

Lemma keeps_get_world : keeps R get_world.
Proof. intros env w. apply R_refl. Qed.

Lemma keeps_bind : forall A B (m : M A) (k : A -> M B),
  keeps R m -> (forall a, keeps R (k a)) -> keeps R (bind m k).
Proof.
  intros A B m k Hm Hk env w. unfold bind.
  pose proof (Hm env w) as H1. destruct (m env w) as [r w1]. simpl in H1.
  destruct r as [a|e|c|]; simpl; auto.
  apply (R_trans _ _ _ H1). apply Hk.
Qed.

Lemma keeps_try_catch : forall A (m : M A) (h : JsError -> M A),
  keeps R m -> (forall e, keeps R (h e)) -> keeps R (try_catch m h).
Proof.
  intros A m h Hm Hh env w. unfold try_catch.
  pose proof (Hm env w) as H1. destruct (m env w) as [r w1]. simpl in H1.
  destruct r as [a|e|c|]; simpl; auto.
  apply (R_trans _ _ _ H1). apply Hh.
Qed.

Lemma keeps_for_each : forall A (xs : list A) (f : A -> M unit),
  (forall x, keeps R (f x)) -> keeps R (for_each xs f).
Proof.
  intros A xs f Hf. induction xs as [|x xs IH]; simpl.
  - apply keeps_ret.
  - apply keeps_bind; auto.
Qed.

Lemma keeps_call : forall ev, keeps R (call ev).
Proof.
  intros ev env w. unfold call.
  destruct (answer_of env (length (trace w))); apply R_trace.
Qed.

Lemma keeps_log : forall lvl msg, keeps R (log lvl msg).
Proof. intros lvl msg env w. apply R_trace. Qed.

Lemma keeps_emit : forall ev, keeps R (emit ev).
Proof. intros ev env w. apply R_trace. Qed.

Lemma keeps_get_strict : forall v k, keeps R (get_strict v k).
Proof.
  intros v k. unfold get_strict.
  destruct (Js.nullish v); [apply keeps_throw | apply keeps_ret].
Qed.

Lemma keeps_readdir : forall dir, keeps R (CommandLoader.readdir dir).
Proof.
  intros dir env w. unfold CommandLoader.readdir.
  destruct (readdir_of env (length (trace w))); apply R_trace.
Qed.

Lemma keeps_command_name : forall data, keeps R (CommandLoader.command_name data).
Proof.
  intros data. unfold CommandLoader.command_name.
  destruct (negb _); [apply keeps_ret|].
  destruct (Js.nullish _); [apply keeps_ret|].
  destruct (Js.opt_get data "toJSON"); try apply keeps_throw.
  apply keeps_bind; [apply keeps_call | intros json; apply keeps_get_strict].
Qed.

(** The listing of a directory and the loop over its files, for a loop
    whose turns keep [R]. *)
Lemma keeps_listing : forall dir msg (load : string -> M unit),
  (forall f, keeps R (load f)) ->
  keeps R
    (listing <- try_catch
                  (files <- CommandLoader.readdir dir ;; ret (Some files))
                  (fun err => log Error msg ;; ret None) ;;
     match listing with
     | None => ret tt
     | Some files => for_each (filter is_module_file files) load
     end).
Proof.
  intros dir msg load Hload.
  apply keeps_bind.
  - apply keeps_try_catch.
    + apply keeps_bind; [apply keeps_readdir | intros files; apply keeps_ret].
    + intros e. apply keeps_bind; [apply keeps_log | intros _; apply keeps_ret].
  - intros [files|]; [now apply keeps_for_each | apply keeps_ret].
Qed.

End Keeps.

(** Setting an entry that can be run keeps every entry of the registry
    runnable. *)
Lemma map_set_runnable : forall m name candidate,
  forallb runnable_entry m = true ->
  runnable_entry (name, candidate) = true ->
  forallb runnable_entry (Js.map_set m name candidate) = true.
Proof.
  induction m as [|[k v] m IH]; intros name candidate Hm Hnew; simpl.
  - now rewrite Hnew.
  - simpl in Hm. apply andb_prop in Hm. destruct Hm as [Hkv Hrest].
    destruct (Js.same_value_zero k name); simpl.
    + rewrite Hrest, andb_true_r.
      unfold runnable_entry in *. simpl in *.
      apply andb_prop in Hkv. destruct Hkv as [Hkv _].
      apply andb_prop in Hkv. destruct Hkv as [Hk _].
      apply andb_prop in Hnew. destruct Hnew as [Hnew Hf].
      apply andb_prop in Hnew. destruct Hnew as [_ Hd].
      now rewrite Hk, Hd, Hf.
    + rewrite Hkv. simpl. now apply IH.
Qed.

Lemma keeps_runnable_load_file : forall file,
  keeps keeps_runnable (CommandLoader.load_file file).
Proof.
  assert (Hrefl : forall w, keeps_runnable w w) by (intros w H; exact H).
  assert (Htrans : forall a b c,
            keeps_runnable a b -> keeps_runnable b c -> keeps_runnable a c)
    by (intros a b c H1 H2 H; auto).
  assert (Htrace : forall w t, keeps_runnable w (with_trace w t))
    by (intros w t H; exact H).
  intros file. unfold CommandLoader.load_file.
  apply keeps_try_catch; auto; [|intros e; now apply keeps_log].
  apply keeps_bind; auto; [now apply keeps_call | intros exports].
  destruct (_ && _) eqn:Hvalid; [|now apply keeps_log].
  apply andb_prop in Hvalid. destruct Hvalid as [Hvalid Hfun].
  apply andb_prop in Hvalid. destruct Hvalid as [_ Hdata].
  apply keeps_bind; auto; [now apply keeps_command_name | intros name].
  destruct (negb (Js.truthy name)) eqn:Hname; [now apply keeps_log|].
  apply negb_false_iff in Hname.
  apply keeps_bind; auto; [|intros _; now apply keeps_log].
  intros env w. unfold CommandLoader.commands_set, keeps_runnable, registry_runnable.
  destruct (commands w) as [m|] eqn:Hc; cbn [snd commands with_commands].
  - intros Hm. apply map_set_runnable; [exact Hm|].
    unfold runnable_entry. cbn [fst snd]. now rewrite Hname, Hdata, Hfun.
  - rewrite Hc. auto.
Qed.

(** X13. The command loader keeps the registry runnable: when every entry
    the client has before [loadCommands] has a truthy key, a [data] and a
    function [execute], so has every entry afterwards, whatever the modules
    of the directory export. *)
Theorem loadCommands_keeps_registry_runnable :
  forall env w,
    registry_runnable w = true ->
    registry_runnable (snd (CommandLoader.loadCommands env w)) = true.
Proof.
  assert (Hrefl : forall w, keeps_runnable w w) by (intros w H; exact H).
  assert (Htrans : forall a b c,
            keeps_runnable a b -> keeps_runnable b c -> keeps_runnable a c)
    by (intros a b c H1 H2 H; auto).
  assert (Htrace : forall w t, keeps_runnable w (with_trace w t))
    by (intros w t H; exact H).
  intros env w. unfold CommandLoader.loadCommands.
  rewrite (bind_ok _ _ get_world _ env w w w eq_refl).
  assert (Hinit :
    exists w0, (match commands w with
     | Some _ => ret tt
     | None => put_world (with_commands w (Some []))
     end) env w = (Ok tt, w0) /\ keeps_runnable w w0).
  { destruct (commands w) eqn:Hc; eexists; (split; [reflexivity|]).
    - apply Hrefl.
    - intros _. reflexivity. }
  destruct Hinit as (w0 & Hrun0 & H0).
  rewrite (bind_ok _ _ _ _ _ _ _ _ Hrun0).
  intros Hw. apply H0 in Hw. revert Hw.
  apply (keeps_listing keeps_runnable Hrefl Htrans Htrace "commands"
           "Failed to read commands directory" CommandLoader.load_file
           keeps_runnable_load_file env w0).
Qed.

Lemma loadCommands_keeps_registry_runnable_witness :
  registry_runnable
    (snd (CommandLoader.loadCommands Sample.two_ask_modules
            Sample.ask_registry_world)) = true.
Proof.
  exact (loadCommands_keeps_registry_runnable Sample.two_ask_modules
           Sample.ask_registry_world eq_refl).
Defined.

(* ================================================================= *)
(** ** The dispatcher and what it composes with *)

Lemma map_get_found : forall m k,
  Js.map_get m k = VUndef \/ exists k', In (k', Js.map_get m k) m.
Proof.
  induction m as [|[k' v] m IH]; intros k; simpl; [now left|].
  destruct (Js.same_value_zero k' k).
  - right. exists k'. now left.
  - destruct (IH k) as [H|(k'' & H)]; [now left|].
    right. exists k''. now right.
Qed.

(** X14. On a registry whose entries are all runnable, as the command
    loader keeps it, a lookup that finds a command finds one whose [execute]
    is a function, and the dispatcher's call of it is the run of that
    function: the call itself never fails for want of a function. *)
Theorem dispatcher_finds_a_function :
  forall handlers w interaction,
    registry_runnable w = true ->
    Js.truthy (InteractionCreate.lookup_command w interaction) = true ->
    exists addr,
      Js.opt_get (InteractionCreate.lookup_command w interaction) "execute" =
        VFun addr /\
      InteractionCreate.invoke handlers
        (InteractionCreate.lookup_command w interaction) interaction =
        handlers addr interaction.
Proof.
  intros handlers w interaction Hreg Hfound.
  unfold InteractionCreate.lookup_command, registry_runnable in *.
  destruct (commands w) as [m|]; [|discriminate].
  destruct (map_get_found m (VStr (commandName interaction))) as [Hu|(k & Hin)].
  - rewrite Hu in Hfound. discriminate.
  - rewrite forallb_forall in Hreg. specialize (Hreg _ Hin).
    unfold runnable_entry in Hreg. cbn [fst snd] in Hreg.
    apply andb_prop in Hreg. destruct Hreg as [_ Hfun].
    unfold InteractionCreate.invoke.
    destruct (Js.opt_get (Js.map_get m (VStr (commandName interaction)))
                "execute"); try discriminate.
    eexists. split; reflexivity.
Qed.

Lemma dispatcher_finds_a_function_witness :
  exists addr,
    Js.opt_get
      (InteractionCreate.lookup_command Sample.ask_registry_world
         Sample.ask_interaction) "execute" = VFun addr /\
    InteractionCreate.invoke Sample.throw_at_once
      (InteractionCreate.lookup_command Sample.ask_registry_world
         Sample.ask_interaction) Sample.ask_interaction =
      Sample.throw_at_once addr Sample.ask_interaction.
Proof.
  exact (dispatcher_finds_a_function Sample.throw_at_once
           Sample.ask_registry_world Sample.ask_interaction eq_refl eq_refl).
Defined.

(** X15. When the handler of a dispatched interaction returns, the
    dispatcher adds one log line and nothing else: it sends no reply of its
    own and returns. *)
Theorem dispatcher_success_only_logs :
  forall handlers env w w1 interaction,
    isChatInputCommand interaction = true ->
    Js.truthy (InteractionCreate.lookup_command w interaction) = true ->
    InteractionCreate.invoke handlers
      (InteractionCreate.lookup_command w interaction) interaction env w =
      (Ok tt, w1) ->
    InteractionCreate.execute handlers interaction env w =
      (Ok tt, with_trace w1 (trace w1 ++ [EvLog Info "Command executed"])).
Proof.
  intros handlers env w w1 interaction Hchat Hcmd Hrun.
  unfold InteractionCreate.execute. rewrite Hchat. cbn [negb].
  rewrite (bind_ok _ _ Date_now _ env w _ w eq_refl).
  rewrite (bind_ok _ _ get_world _ env w w w eq_refl).
  rewrite Hcmd. cbn [negb].
  apply try_catch_ok.
  rewrite (bind_ok _ _ _ _ _ _ _ _ Hrun).
  rewrite (bind_ok _ _ Date_now _ env w1 _ w1 eq_refl).
  reflexivity.
Qed.

Lemma dispatcher_success_only_logs_witness :
  InteractionCreate.execute (fun _ _ => ret tt) Sample.ask_interaction
    Sample.accepting Sample.ask_registry_world =
  (Ok tt,
   with_trace Sample.ask_registry_world
     (trace Sample.ask_registry_world ++ [EvLog Info "Command executed"])).
Proof.
  exact (dispatcher_success_only_logs (fun _ _ => ret tt) Sample.accepting
           Sample.ask_registry_world Sample.ask_registry_world
           Sample.ask_interaction eq_refl eq_refl eq_refl).
Defined.

(** The run of [/ask] without a queue manager on a fresh interaction. *)
Lemma ask_without_queue_run : forall env w interaction,
  queueManager w = None ->
  deferred w = false ->
  replied w = false ->
  exists w',
    Ask.execute interaction env w =
      (match answer_of env (S (length (trace w))) with
       | Returns _ => Ok tt
       | Throws e => Throw e
       end, w') /\
    trace w' =
      trace w ++
      [EvLog Error "Ask command failed";
       EvReply (mkPayload (Some "Error while processing the question.") [] true)] /\
    deferred w' = false /\
    replied w' =
      match answer_of env (S (length (trace w))) with
      | Returns _ => true
      | Throws _ => false
      end /\
    commands w' = commands w.
Proof.
  intros env w interaction Hqm Hd Hr.
  assert (Hthrow : Ask.execute_body interaction env w =
                   (Throw (mkError "Error" "Queue manager unavailable"), w)).
  { unfold Ask.execute_body.
    now rewrite (bind_ok _ _ get_world _ env w w w eq_refl), Hqm. }
  unfold Ask.execute. rewrite (try_catch_throw _ _ _ _ _ _ _ Hthrow).
  unfold Ask.execute_catch, bind, log, get_world.
  cbn [deferred replied with_trace]. rewrite Hd, Hr. cbn [orb].
  unfold reply, bind, call. cbn [trace with_trace].
  rewrite length_app, Nat.add_1_r. cbn [length].
  destruct (answer_of env (S (length (trace w)))); cbn;
    eexists; (split; [reflexivity|]); cbn; rewrite <- app_assoc; auto.
Qed.

(** X16. The dispatcher and [/ask] together, on a fresh interaction and a
    client without queue manager. When the transport accepts the error
    reply of the command, the user gets that one reply and the dispatcher
    adds only its log line. When the transport refuses it, the command
    throws, and the dispatcher, finding the interaction still unanswered,
    tries one initial reply of its own. *)
Theorem dispatch_ask_without_queue_manager :
  forall handlers env w interaction addr,
    isChatInputCommand interaction = true ->
    Js.opt_get (InteractionCreate.lookup_command w interaction) "execute" =
      VFun addr ->
    handlers addr interaction = Ask.execute interaction ->
    queueManager w = None ->
    deferred w = false ->
    replied w = false ->
    trace (snd (InteractionCreate.execute handlers interaction env w)) =
      trace w ++
      [EvLog Error "Ask command failed";
       EvReply (mkPayload (Some "Error while processing the question.") [] true)] ++
      match answer_of env (S (length (trace w))) with
      | Returns _ => [EvLog Info "Command executed"]
      | Throws _ =>
          [EvLog Error "Command error";
           EvReply (mkPayload (Some "There was an error executing this command.")
                      [] true)]
      end.
Proof.
  intros handlers env w interaction addr Hchat Hexec Hh Hqm Hd Hr.
  assert (Hcmd : Js.truthy (InteractionCreate.lookup_command w interaction) = true).
  { destruct (InteractionCreate.lookup_command w interaction); try discriminate.
    reflexivity. }
  destruct (ask_without_queue_run env w interaction Hqm Hd Hr)
    as (w1 & Hrun & Ht & Hd1 & Hr1 & _).
  assert (Hinv : InteractionCreate.invoke handlers
            (InteractionCreate.lookup_command w interaction) interaction env w =
          Ask.execute interaction env w).
  { unfold InteractionCreate.invoke. now rewrite Hexec, Hh. }
  unfold InteractionCreate.execute. rewrite Hchat. cbn [negb].
  rewrite (bind_ok _ _ Date_now _ env w _ w eq_refl).
  rewrite (bind_ok _ _ get_world _ env w w w eq_refl).
  rewrite Hcmd. cbn [negb].
  destruct (answer_of env (S (length (trace w)))) as [v|e].
  - assert (Hbody :
      (InteractionCreate.invoke handlers
         (InteractionCreate.lookup_command w interaction) interaction ;;
       finished <- Date_now ;; log Info "Command executed") env w =
      (Ok tt, with_trace w1 (trace w1 ++ [EvLog Info "Command executed"]))).
    { rewrite (bind_ok _ _ _ _ env w tt w1) by (rewrite Hinv; exact Hrun).
      now rewrite (bind_ok _ _ Date_now _ env w1 _ w1 eq_refl). }
    rewrite (try_catch_ok _ _ _ _ _ _ _ Hbody). cbn [snd trace with_trace].
    rewrite Ht. now rewrite <- app_assoc.
  - assert (Hbody :
      (InteractionCreate.invoke handlers
         (InteractionCreate.lookup_command w interaction) interaction ;;
       finished <- Date_now ;; log Info "Command executed") env w =
      (Throw e, w1)).
    { rewrite (bind_throw _ _ _ _ env w e w1); [reflexivity|].
      rewrite Hinv. exact Hrun. }
    rewrite (try_catch_throw _ _ _ _ _ _ _ Hbody).
    unfold InteractionCreate.execute_catch, bind, log, get_world.
    cbn [deferred replied with_trace]. rewrite Hd1, Hr1. cbn [orb].
    unfold reply, bind, call. cbn [trace with_trace].
    destruct (answer_of env _); cbn; rewrite Ht; now rewrite <- !app_assoc.
Qed.

Lemma dispatch_ask_without_queue_manager_witness :
  trace (snd (InteractionCreate.execute (fun _ i => Ask.execute i)
                Sample.ask_interaction Sample.accepting Sample.ask_registry_world)) =
  [EvLog Error "Ask command failed";
   EvReply (mkPayload (Some "Error while processing the question.") [] true);
   EvLog Info "Command executed"].
Proof.
  exact (dispatch_ask_without_queue_manager (fun _ i => Ask.execute i)
           Sample.accepting Sample.ask_registry_world Sample.ask_interaction 7
           eq_refl eq_refl eq_refl eq_refl eq_refl eq_refl).
Defined.

(* ================================================================= *)
(** ** The lifecycle: configuration, queue manager, exit *)

(** X17. Without a token in the environment (none, or an empty one) the
    process exits with code 1 at once: [main] starts no worker, loads
    nothing and makes no login, and the catch of [main()] has nothing to
    add. *)
Theorem main_without_token_exits :
  forall env w,
    (DISCORD_TOKEN env = None \/ DISCORD_TOKEN env = Some EmptyString) ->
    start env w =
      (Exited 1,
       with_trace w
         (trace w ++
          [EvLog Error "Missing DISCORD_TOKEN in environment"; EvExit 1])) /\
    count is_startup_step (added w (snd (start env w))) = 0.
Proof.
  intros env w H.
  assert (Hmain : main env w =
    (Exited 1,
     with_trace w
       (trace w ++
        [EvLog Error "Missing DISCORD_TOKEN in environment"; EvExit 1]))).
  { unfold main, main_with. rewrite (bind_ok _ _ get_env _ env w env w eq_refl).
    destruct H as [H|H]; rewrite H; unfold bind, emit, process_exit;
      cbn [trace with_trace]; now rewrite <- app_assoc. }
  assert (Hstart : start env w = main env w).
  { unfold start, try_catch. now rewrite Hmain. }
  rewrite Hstart, Hmain. split; [reflexivity|].
  cbn [snd].
  rewrite (added_app w
             (with_trace w
                (trace w ++
                 [EvLog Error "Missing DISCORD_TOKEN in environment"; EvExit 1]))
             [EvLog Error "Missing DISCORD_TOKEN in environment"; EvExit 1]
             eq_refl).
  reflexivity.
Qed.

Lemma main_without_token_exits_witness :
  fst (start (mkEnv (fun _ => Returns VUndef) (fun _ => inr []) (fun _ => 0%Z)
                None None (mkQueueManager true) Sample.plain_host)
         Sample.fresh_world) = Exited 1.
Proof.
  exact (f_equal fst
           (proj1 (main_without_token_exits
                     (mkEnv (fun _ => Returns VUndef) (fun _ => inr [])
                        (fun _ => 0%Z) None None (mkQueueManager true) Sample.plain_host)
                     Sample.fresh_world (or_introl eq_refl)))).
Defined.

Lemma same_queueManager_loadCommands :
  keeps same_queueManager CommandLoader.loadCommands.
Proof.
  assert (Hrefl : forall w, same_queueManager w w) by reflexivity.
  assert (Htrans : forall a b c,
            same_queueManager a b -> same_queueManager b c -> same_queueManager a c)
    by (unfold same_queueManager; intros; congruence).
  assert (Htrace : forall w t, same_queueManager w (with_trace w t)) by reflexivity.
  assert (Hload : forall f, keeps same_queueManager (CommandLoader.load_file f)).
  { intros f. unfold CommandLoader.load_file.
    apply keeps_try_catch; auto; [|intros e; now apply keeps_log].
    apply keeps_bind; auto; [now apply keeps_call | intros exports].
    destruct (_ && _); [|now apply keeps_log].
    apply keeps_bind; auto; [now apply keeps_command_name | intros name].
    destruct (negb _); [now apply keeps_log|].
    apply keeps_bind; auto; [|intros _; now apply keeps_log].
    intros env w. unfold CommandLoader.commands_set.
    destruct (commands w); reflexivity. }
  intros env w. unfold CommandLoader.loadCommands.
  rewrite (bind_ok _ _ get_world _ env w w w eq_refl).
  assert (Hinit :
    exists w0, (match commands w with
     | Some _ => ret tt
     | None => put_world (with_commands w (Some []))
     end) env w = (Ok tt, w0) /\ same_queueManager w w0).
  { destruct (commands w); eexists; split; reflexivity. }
  destruct Hinit as (w0 & Hrun0 & H0).
  rewrite (bind_ok _ _ _ _ _ _ _ _ Hrun0).
  apply (Htrans _ _ _ H0).
  apply (keeps_listing same_queueManager Hrefl Htrans Htrace "commands"
           "Failed to read commands directory" CommandLoader.load_file Hload env w0).
Qed.

Lemma same_queueManager_loadEvents :
  keeps same_queueManager EventLoader.loadEvents.
Proof.
  assert (Hrefl : forall w, same_queueManager w w) by reflexivity.
  assert (Htrans : forall a b c,
            same_queueManager a b -> same_queueManager b c -> same_queueManager a c)
    by (unfold same_queueManager; intros; congruence).
  assert (Htrace : forall w t, same_queueManager w (with_trace w t)) by reflexivity.
  unfold EventLoader.loadEvents. apply keeps_listing; auto.
  intros f. unfold EventLoader.load_file.
  apply keeps_try_catch; auto; [|intros e; now apply keeps_log].
  apply keeps_bind; auto; [now apply keeps_call | intros exports].
  destruct (_ || _); [now apply keeps_log|].
  apply keeps_bind; auto; [now apply keeps_call | intros _; now apply keeps_log].
Qed.

(** X18. [main] attaches the queue manager to the client exactly when the
    block "Queue + worker" runs to its end: the configuration is built, the
    construction of the manager returns and so does the start of its
    worker. When one of the three throws, the start-up goes on with the
    client as it was (so [/ask] will answer with its error reply); nothing
    after the block, neither the loaders nor the login, touches the
    field. *)
Theorem main_attaches_queue_manager_iff_worker_started :
  forall env w token,
    DISCORD_TOKEN env = Some token ->
    token <> EmptyString ->
    queueManager (snd (main env w)) =
      (if worker_started env (length (trace w)) (built queueConfig env w)
       then Some (new_BotQueueManager env) else queueManager w) /\
    (worker_started env (length (trace w)) (built queueConfig env w) = true <->
     (exists redis, buildRedisConfig env w = (Ok redis, w)) /\
     (exists v, answer_of env (length (trace w)) = Returns v) /\
     (exists v, answer_of env (S (length (trace w))) = Returns v)).
Proof.
  assert (Hrefl : forall w, same_queueManager w w) by reflexivity.
  assert (Htrans : forall a b c,
            same_queueManager a b -> same_queueManager b c -> same_queueManager a c)
    by (unfold same_queueManager; intros; congruence).
  assert (Htrace : forall w t, same_queueManager w (with_trace w t)) by reflexivity.
  intros env w token Htok Hne. split.
  - destruct token as [|c rest]; [congruence|].
    unfold main, main_with.
    rewrite (bind_ok _ _ get_env _ env w env w eq_refl), Htok.
    destruct (queueConfig_pure env w) as [Hpure Hr].
    destruct (queue_block_run queueConfig env w Hpure Hr)
      as (w1 & Hrun1 & _ & Hqm1 & _).
    rewrite (bind_ok _ _ _ _ _ _ _ _ Hrun1). rewrite <- Hqm1.
    match goal with
    | |- queueManager (snd (?m env w1)) = _ =>
        assert (Hk : keeps same_queueManager m); [|exact (Hk env w1)]
    end.
    apply keeps_bind; auto.
    + apply keeps_try_catch; auto; [|intros e; now apply keeps_log].
      apply keeps_bind; auto;
        [apply same_queueManager_loadCommands | intros _; now apply keeps_log].
    + intros _. apply keeps_bind; auto.
      * apply keeps_try_catch; auto; [|intros e; now apply keeps_log].
        apply keeps_bind; auto;
          [apply same_queueManager_loadEvents | intros _; now apply keeps_log].
      * intros _.
        repeat (apply keeps_bind; auto; [now apply keeps_emit | intros _]).
        apply keeps_try_catch; auto.
        -- apply keeps_bind; auto;
             [now apply keeps_call | intros _; now apply keeps_ret].
        -- intros e. apply keeps_bind; auto; [now apply keeps_log | intros _].
           intros env' w'. reflexivity.
  - unfold worker_started, built, queueConfig. unfold bind at 1.
    assert (Hw : snd (buildRedisConfig env w) = w).
    { unfold buildRedisConfig, bind, get_env.
      destruct (non_empty _) as [url|]; [|reflexivity].
      destruct (URL_of (host env) url); reflexivity. }
    destruct (buildRedisConfig env w) as [r w0]. cbn [snd] in Hw. subst w0.
    split.
    + intros H. destruct r as [redis|e|c|]; cbn in H; try discriminate.
      destruct (answer_of env (length (trace w))) as [v|e]; try discriminate.
      destruct (answer_of env (S (length (trace w)))) as [v'|e]; try discriminate.
      repeat split; eexists; reflexivity.
    + intros ((redis & Hb) & (v & Hv) & (v' & Hv')).
      injection Hb as ->. cbn. now rewrite Hv, Hv'.
Qed.

(** X18 where the Redis address does not parse: no queue manager is
    attached. *)
Lemma main_attaches_queue_manager_iff_worker_started_witness :
  queueManager (snd (main Scenario.bad_redis_url Sample.fresh_world)) = None.
Proof.
  exact (proj1 (main_attaches_queue_manager_iff_worker_started
                  Scenario.bad_redis_url Sample.fresh_world "token"
                  eq_refl ltac:(discriminate))).
Defined.

Lemma count_stop_snoc_other : forall t ev,
  is_stop_worker ev = false ->
  count is_stop_worker (t ++ [ev]) = count is_stop_worker t.
Proof.
  intros t ev H. rewrite count_snoc, H. lia.
Qed.

(** [shutdown] on a client without a [stopWorker] to call: none is
    called. *)
Lemma shutdown_without_stop_worker : forall code p,
  no_stop_worker (world p) = true ->
  queueManager (world (shutdown code p)) = queueManager (world p) /\
  count is_stop_worker (trace (world (shutdown code p))) =
    count is_stop_worker (trace (world p)).
Proof.
  intros code p H. unfold no_stop_worker in H. unfold shutdown.
  destruct (isShuttingDown (world p)); [auto|]. cbn -[count].
  destruct (queueManager (world p)) as [[[|]]|] eqn:Hq; try discriminate;
    cbn -[count]; (split; [exact Hq|]); rewrite !count_stop_snoc_other; auto.
Qed.

(** One turn of the event loop on a client without a [stopWorker] to call:
    none is called. *)
Lemma step_without_stop_worker : forall p l,
  no_stop_worker (world p) = true ->
  no_stop_worker (world (step p l)) = true /\
  count is_stop_worker (trace (world (step p l))) =
    count is_stop_worker (trace (world p)).
Proof.
  intros p l H.
  assert (Hlistener : forall t q,
            world q = world p ->
            no_stop_worker (world (listener t q)) = true /\
            count is_stop_worker (trace (world (listener t q))) =
              count is_stop_worker (trace (world p))).
  { intros t q Hq. destruct t; cbn [listener].
    - destruct (shutdown_without_stop_worker 0%Z q) as [Hqm Hc];
        [now rewrite Hq|]. unfold no_stop_worker in *.
      rewrite Hqm, Hc, Hq. auto.
    - destruct (shutdown_without_stop_worker 0%Z q) as [Hqm Hc];
        [now rewrite Hq|]. unfold no_stop_worker in *.
      rewrite Hqm, Hc, Hq. auto.
    - destruct (shutdown_without_stop_worker 1%Z
                  (record_event (EvLog Error "Uncaught exception") q))
        as [Hqm Hc]; [cbn; now rewrite Hq|]. unfold no_stop_worker in *.
      rewrite Hqm, Hc. cbn -[count]. rewrite Hq. split; [exact H|].
      now apply count_stop_snoc_other. }
  unfold step.
  destruct (exit_code p); [auto|]. destruct (killed p); [auto|].
  destruct l as [t|n ok].
  - unfold fire. destruct (once t); [|now apply Hlistener].
    destruct (listening t p); [now apply Hlistener | cbn; auto].
  - destruct (take_task n (pending p)) as [[t rest]|]; [|auto].
    unfold no_stop_worker in *.
    destruct t; cbn -[count]; split; auto;
      rewrite !count_stop_snoc_other; auto; destruct ok; reflexivity.
Qed.

(** X20. On a client that has no queue manager, or one whose [stopWorker]
    is no function, no run of the event loop ever calls [stopWorker]: the
    shutdown goes straight to the destruction of the client. *)
Theorem shutdown_without_stop_worker_never_stops :
  forall ls p,
    no_stop_worker (world p) = true ->
    count is_stop_worker (trace (world (run p ls))) =
      count is_stop_worker (trace (world p)) /\
    (isShuttingDown (world p) = false -> pending p = [] -> exit_code p = None ->
     forall t,
       trace (world (listener t p)) =
         trace (world p) ++
         match t with
         | UncaughtException =>
             [EvLog Error "Uncaught exception"; EvLog Info "Shutting down"; EvDestroy]
         | _ => [EvLog Info "Shutting down"; EvDestroy]
         end).
Proof.
  intros ls p H. split.
  - revert p H. induction ls as [|l ls IH]; intros p H; [reflexivity|].
    cbn [run fold_left].
    destruct (step_without_stop_worker p l H) as [H1 Hc].
    change (fold_left step ls (step p l)) with (run (step p l) ls).
    rewrite (IH _ H1). exact Hc.
  - intros Hflag Hpend Hexit t.
    destruct p as [[tr d r ti c q s] pend ex].
    unfold no_stop_worker in H. cbn in H, Hflag, Hpend, Hexit. subst s pend ex.
    destruct t, q as [[[|]]|]; try discriminate; cbn;
      now rewrite <- ?app_assoc.
Qed.

Lemma shutdown_without_stop_worker_never_stops_witness :
  count is_stop_worker
    (trace (world (run (ready Sample.fresh_world)
                     [Fire SIGINT; Settle 0 true; Fire SIGTERM]))) =
  count is_stop_worker (trace (world (ready Sample.fresh_world))).
Proof.
  exact (proj1 (shutdown_without_stop_worker_never_stops
                  [Fire SIGINT; Settle 0 true; Fire SIGTERM]
                  (ready Sample.fresh_world) eq_refl)).
Defined.

(* ----------------------------------------------------------------- *)
(** ** The uptime shown by the status command *)

(** X21. For a duration of whole milliseconds from 0 up to 2^53, the
    range in which the division of the source, made on doubles and rounded
    down, is the division of integers, [fmtDuration] splits the whole
    seconds [floor(ms / 1000)] into days, hours below 24, minutes below 60
    and seconds below 60, and the four numbers add up to the whole seconds
    again: nothing of the duration is lost or counted twice. *)
Theorem fmtDuration_split_adds_up (ms : Z) (H : (0 <= ms < 2 ^ 53)%Z) :
  (0 <= Status.days (Status.split ms) /\
   0 <= Status.hours (Status.split ms) < 24 /\
   0 <= Status.minutes (Status.split ms) < 60 /\
   0 <= Status.seconds (Status.split ms) < 60 /\
   Status.days (Status.split ms) * 86400
     + Status.hours (Status.split ms) * 3600
     + Status.minutes (Status.split ms) * 60
     + Status.seconds (Status.split ms) = ms / 1000)%Z.
Proof.
  cbn [Status.split Status.days Status.hours Status.minutes Status.seconds].
  assert (Hs : (0 <= ms / 1000)%Z) by (apply Z.div_pos; lia).
  rewrite !Z.rem_mod_nonneg by lia.
  generalize dependent (ms / 1000)%Z. intros s Hs.
  Z.div_mod_to_equations. lia.
Qed.

Lemma fmtDuration_split_adds_up_witness :
  (0 <= Status.days (Status.split 93784005) /\
   0 <= Status.hours (Status.split 93784005) < 24 /\
   0 <= Status.minutes (Status.split 93784005) < 60 /\
   0 <= Status.seconds (Status.split 93784005) < 60 /\
   Status.days (Status.split 93784005) * 86400
     + Status.hours (Status.split 93784005) * 3600
     + Status.minutes (Status.split 93784005) * 60
     + Status.seconds (Status.split 93784005) = 93784005 / 1000)%Z.
Proof. exact (fmtDuration_split_adds_up 93784005 ltac:(lia)). Defined.

(** X22. A duration from zero up to one minute is shown as its whole seconds
    alone, [<n>s]: the day, hour and minute parts are zero and are left
    out, the seconds part is always there. *)
Theorem fmtDuration_under_a_minute (ms : Z) (H : (0 <= ms < 60000)%Z) :
  Status.fmtDuration ms = (show (ms / 1000) ++ "s")%string.
Proof.
  assert (Hs : (0 <= ms / 1000 < 60)%Z)
    by (Z.div_mod_to_equations; lia).
  unfold Status.fmtDuration, Status.split.
  cbn [Status.days Status.hours Status.minutes Status.seconds].
  generalize dependent (ms / 1000)%Z. intros s Hs.
  rewrite !Z.rem_mod_nonneg by lia.
  assert (Hd : (s / 86400 = 0)%Z) by (Z.div_mod_to_equations; lia).
  assert (Hh : (s mod 86400 / 3600 = 0)%Z) by (Z.div_mod_to_equations; lia).
  assert (Hm : (s mod 3600 / 60 = 0)%Z) by (Z.div_mod_to_equations; lia).
  assert (Hsec : (s mod 60 = s)%Z) by (Z.div_mod_to_equations; lia).
  rewrite Hd, Hh, Hm, Hsec. reflexivity.
Qed.

Lemma fmtDuration_under_a_minute_witness :
  Status.fmtDuration 59999 = "59s".
Proof. exact (fmtDuration_under_a_minute 59999 ltac:(lia)). Defined.

(** X23. A duration that is negative by at most one second is shown as
    [-1d -1h -1m -1s]: the whole seconds are rounded down to -1, and every
    part is computed from them by a division rounded down or by a remainder
    that keeps the sign. *)
Theorem fmtDuration_just_below_zero (ms : Z) (H : (-1000 <= ms < 0)%Z) :
  Status.fmtDuration ms = "-1d -1h -1m -1s".
Proof.
  assert (Hs : (ms / 1000 = -1)%Z) by (Z.div_mod_to_equations; lia).
  unfold Status.fmtDuration, Status.split. rewrite Hs. reflexivity.
Qed.

Lemma fmtDuration_just_below_zero_witness :
  Status.fmtDuration (-1) = "-1d -1h -1m -1s".
Proof. exact (fmtDuration_just_below_zero (-1) ltac:(lia)). Defined.

(* ----------------------------------------------------------------- *)
(** ** Suffixes *)

Lemma substring_split : forall s n,
  n <= String.length s ->
  s = (substring 0 n s ++ substring n (String.length s - n) s)%string.
Proof.
  induction s as [|c s IH]; intros n Hn.
  - destruct n; reflexivity.
  - destruct n as [|n].
    + cbn [substring String.length Nat.sub append].
      now rewrite substring_all.
    + cbn [String.length] in Hn.
      cbn [substring String.length Nat.sub append]. f_equal.
      apply IH. lia.
Qed.

Lemma substring_suffix : forall a b,
  substring (String.length a) (String.length b) (a ++ b) = b.
Proof.
  induction a as [|c a IH]; intros b.
  - apply substring_all.
  - cbn [String.length append substring]. apply IH.
Qed.

Lemma endsWith_suffix : forall p s,
  endsWith p s = true <-> exists pre, s = (pre ++ p)%string.
Proof.
  intros p s. unfold endsWith, slice_from. split.
  - intros H. apply andb_prop in H. destruct H as [He Hl].
    apply String.eqb_eq in He. apply Nat.leb_le in Hl.
    exists (substring 0 (String.length s - String.length p) s).
    pose proof (substring_split s (String.length s - String.length p)
                  ltac:(lia)) as Hs.
    now rewrite He in Hs.
  - intros [pre ->]. rewrite string_length_append.
    replace (String.length pre + String.length p - String.length p)
      with (String.length pre) by lia.
    replace (String.length pre + String.length p - String.length pre)
      with (String.length p) by lia.
    rewrite substring_suffix, String.eqb_refl. cbn [andb].
    apply Nat.leb_le. lia.
Qed.

Lemma suffix_unique : forall a p b q,
  (a ++ p = b ++ q)%string -> String.length p = String.length q -> p = q.
Proof.
  intros a p b q H Hl.
  assert (Hlen : String.length a = String.length b).
  { apply (f_equal String.length) in H.
    rewrite !string_length_append in H. lia. }
  rewrite <- (substring_suffix a p), <- (substring_suffix b q).
  now rewrite H, Hlen, Hl.
Qed.

(** Of two suffixes of the same string, the shorter is a suffix of the
    longer. *)
Lemma endsWith_nested : forall p q s,
  endsWith p s = true -> endsWith q s = true ->
  String.length p <= String.length q ->
  endsWith p q = true.
Proof.
  intros p q s Hp Hq Hl.
  apply endsWith_suffix in Hp. destruct Hp as [a Ha].
  apply endsWith_suffix in Hq. destruct Hq as [b Hb].
  apply endsWith_suffix.
  pose proof (substring_split q (String.length q - String.length p)
                ltac:(lia)) as Hsplit.
  set (q1 := substring 0 (String.length q - String.length p) q) in *.
  set (q2 := substring (String.length q - String.length p)
               (String.length q - (String.length q - String.length p)) q) in *.
  exists q1. rewrite Hsplit at 1. f_equal.
  assert (Hlen : String.length q2 = String.length p).
  { apply (f_equal String.length) in Hsplit.
    rewrite string_length_append in Hsplit.
    assert (Hq1 : String.length q1 = String.length q - String.length p).
    { unfold q1. clear -Hl.
      assert (G : forall s n, n <= String.length s ->
                    String.length (substring 0 n s) = n).
      { induction s as [|c s IH]; intros [|n] Hn; cbn in *; try lia.
        rewrite IH; lia. }
      apply G. lia. }
    lia. }
  symmetry. apply (suffix_unique a p (b ++ q1)%string q2); [|lia].
  rewrite <- Ha, Hb, Hsplit at 1. now rewrite string_append_assoc.
Qed.

Ltac suffix_clash :=
  match goal with
  | Hp : endsWith ?p ?s = true, Hq : endsWith ?q ?s = true |- _ =>
      let H := fresh "Hclash" in
      first
        [ assert (H : endsWith p q = true)
            by (apply (endsWith_nested p q s Hp Hq); cbn; lia)
        | assert (H : endsWith q p = true)
            by (apply (endsWith_nested q p s Hq Hp); cbn; lia) ];
      vm_compute in H; discriminate H
  end.

(** X24. The file filter of the deployment script and the file filter of
    the bot's command loader, compared. In the script the test for [.map]
    decides nothing. A file the script deploys is loaded by the bot unless
    its name starts with an underscore; a file the bot loads is deployed
    unless its name ends in [.ts]. *)
Theorem deploy_and_loader_filters (f : string) :
  Deploy.is_script_file f
    = (endsWith ".js" f || endsWith ".mjs" f || endsWith ".cjs" f) /\
  (Deploy.is_script_file f = true ->
   is_module_file f = negb (startsWith "_" f)) /\
  (is_module_file f = true ->
   Deploy.is_script_file f = negb (endsWith ".ts" f)).
Proof.
  unfold Deploy.is_script_file, is_module_file.
  destruct (endsWith ".js" f) eqn:Hjs, (endsWith ".mjs" f) eqn:Hmjs,
    (endsWith ".cjs" f) eqn:Hcjs, (endsWith ".map" f) eqn:Hmap,
    (endsWith ".ts" f) eqn:Hts, (endsWith ".d.ts" f) eqn:Hdts;
    try suffix_clash; cbn; repeat split; intros; try discriminate;
    try reflexivity.
Qed.

(* ----------------------------------------------------------------- *)
(** ** The deployment script *)

Lemma collect_loop_app : forall pre rest ps env w ps1 w1,
  Deploy.collect_loop pre ps env w = (Ok ps1, w1) ->
  Deploy.collect_loop (pre ++ rest) ps env w = Deploy.collect_loop rest ps1 env w1.
Proof.
  induction pre as [|f pre IH]; intros rest ps env w ps1 w1 H.
  - cbn in H. injection H as <- <-. reflexivity.
  - cbn [Deploy.collect_loop app] in *. unfold bind in *.
    destruct (Deploy.collect_file f env w) as [[[j|]| | |] w2];
      try discriminate; now apply IH.
Qed.

Lemma collect_file_import_throws : forall f env w e,
  answer_of env (length (trace w)) = Throws e ->
  Deploy.collect_file f env w =
    (Throw e, with_trace w (trace w ++ [EvImport ("commands/" ++ f)])).
Proof.
  intros f env w e H. unfold Deploy.collect_file.
  now rewrite (bind_throw _ _ _ _ _ _ _ _ (call_throws _ _ _ _ H)).
Qed.

Lemma toJSON_answers_app : forall env t1 t2 pos,
  toJSON_answers env pos (t1 ++ t2) =
    toJSON_answers env pos t1 ++ toJSON_answers env (pos + length t1) t2.
Proof.
  intros env. induction t1 as [|ev t1 IH]; intros t2 pos.
  - cbn. now rewrite Nat.add_0_r.
  - cbn [app toJSON_answers length].
    replace (pos + S (length t1)) with (S pos + length t1) by lia.
    destruct ev; try apply IH.
    destruct (answer_of env pos); [cbn; f_equal|]; apply IH.
Qed.

(** One turn of the collection that returns: it imported its file, called
    [toJSON] at most once, and its payload is what that call returned. *)
Lemma collect_file_returns : forall f env w o w',
  Deploy.collect_file f env w = (Ok o, w') ->
  exists t,
    trace w' = trace w ++ EvImport ("commands/" ++ f) :: t /\
    filter is_import t = [] /\
    toJSON_answers env (S (length (trace w))) t =
      match o with Some json => [json] | None => [] end.
Proof.
  intros f env w o w' H. unfold Deploy.collect_file in H.
  destruct (answer_of env (length (trace w))) as [exports|e] eqn:Himp.
  2:{ rewrite (bind_throw _ _ _ _ _ _ _ _ (call_throws _ _ _ _ Himp)) in H.
      discriminate. }
  rewrite (bind_ok _ _ _ _ _ _ _ _ (call_returns _ _ _ _ Himp)) in H.
  set (w1 := with_trace w (trace w ++ [EvImport ("commands/" ++ f)])) in *.
  assert (Hlen : length (trace w1) = S (length (trace w))).
  { unfold w1. destruct w. cbn. rewrite length_app. cbn. lia. }
  assert (Ht1 : trace w1 = trace w ++ [EvImport ("commands/" ++ f)])
    by (destruct w; reflexivity).
  unfold Deploy.resolve, get_strict in H.
  destruct (Js.nullish exports).
  { cbn in H. discriminate. }
  unfold bind at 1 in H. unfold bind at 1 in H. cbn [ret] in H.
  match type of H with
  | context [Js.opt_get (Js.opt_get ?c "data") "toJSON"] =>
      set (toJSON := Js.opt_get (Js.opt_get c "data") "toJSON") in *
  end.
  destruct (Js.truthy toJSON).
  2:{ cbn in H. injection H as <- <-. exists []. rewrite Ht1.
      repeat split. }
  cbn [negb] in H. destruct toJSON; try (cbn in H; discriminate).
  destruct (answer_of env (length (trace w1))) as [json|e] eqn:Hj.
  2:{ rewrite (bind_throw _ _ _ _ _ _ _ _ (call_throws _ _ _ _ Hj)) in H.
      discriminate. }
  rewrite (bind_ok _ _ _ _ _ _ _ _ (call_returns _ _ _ _ Hj)) in H.
  cbn [ret] in H. injection H as <- <-.
  exists [EvCallToJSON addr]. split; [|split].
  - unfold w1. cbn. rewrite <- app_assoc. reflexivity.
  - reflexivity.
  - cbn. rewrite <- Hlen, Hj. reflexivity.
Qed.

Lemma collect_loop_returns : forall files ps env w body w',
  Deploy.collect_loop files ps env w = (Ok body, w') ->
  exists t,
    trace w' = trace w ++ t /\
    filter is_import t = map (fun f => EvImport ("commands/" ++ f)) files /\
    body = ps ++ toJSON_answers env (length (trace w)) t /\
    length (toJSON_answers env (length (trace w)) t) <= length files.
Proof.
  induction files as [|f files IH]; intros ps env w body w' H.
  - cbn in H. injection H as <- <-. exists []. cbn.
    now rewrite !app_nil_r.
  - cbn [Deploy.collect_loop] in H. unfold bind in H.
    destruct (Deploy.collect_file f env w) as [[o| | |] w1] eqn:Hf;
      try discriminate.
    destruct (collect_file_returns _ _ _ _ _ Hf) as (t1 & Ht1 & Hi1 & Ha1).
    assert (Hlen : length (trace w1) = S (length (trace w)) + length t1).
    { rewrite Ht1, length_app. cbn. lia. }
    assert (Hrest : exists ps1,
               Deploy.collect_loop files ps1 env w1 = (Ok body, w') /\
               ps1 = ps ++ match o with Some json => [json] | None => [] end).
    { destruct o as [json|]; eexists; split; try exact H; try reflexivity.
      now rewrite app_nil_r. }
    destruct Hrest as (ps1 & Hrun & Hps1).
    destruct (IH _ _ _ _ _ Hrun) as (t2 & Ht2 & Hi2 & Hb2 & Hl2).
    exists (EvImport ("commands/" ++ f) :: t1 ++ t2).
    assert (Hans : toJSON_answers env (length (trace w))
                     (EvImport ("commands/" ++ f) :: t1 ++ t2)
                   = match o with Some json => [json] | None => [] end
                     ++ toJSON_answers env (length (trace w1)) t2).
    { cbn [toJSON_answers]. rewrite toJSON_answers_app, Ha1, Hlen.
      reflexivity. }
    split; [|split; [|split]].
    + rewrite Ht2, Ht1, <- app_assoc. reflexivity.
    + cbn [filter is_import map]. rewrite filter_app, Hi1, Hi2. reflexivity.
    + rewrite Hans, Hb2, Hps1, <- app_assoc. reflexivity.
    + rewrite Hans, length_app. cbn [length].
      destruct o; cbn [length]; lia.
Qed.

(** X25. Without a token or without a client id (unset or empty) the
    deployment script logs that both are required and exits with code 1: it
    reads no directory, imports no module, and its REST client is never
    used, whatever that client would do. *)
Theorem deploy_without_credentials_exits
    (put : Deploy.Route -> list JsVal -> M unit)
    (clientId guildId : option string) (env : Env) (w : World)
    (H : Deploy.unset (DISCORD_TOKEN env) || Deploy.unset clientId = true) :
  Deploy.main put clientId guildId env w =
    (Exited 1,
     with_trace w
       (trace w ++
        [EvLog Error "DISCORD_TOKEN and DISCORD_CLIENT_ID are required";
         EvExit 1])).
Proof.
  unfold Deploy.main, get_env. unfold bind at 1.
  destruct (DISCORD_TOKEN env) as [[|c t]|], clientId as [[|c' i]|];
    cbn in H; try discriminate H; cbn; unfold process_exit; destruct w; cbn;
    now rewrite <- app_assoc.
Qed.

Lemma deploy_without_credentials_exits_witness :
  Deploy.main (fun _ _ => ret tt) None (Some "guild") Sample.accepting
    Sample.fresh_world =
    (Exited 1,
     with_trace Sample.fresh_world
       (trace Sample.fresh_world ++
        [EvLog Error "DISCORD_TOKEN and DISCORD_CLIENT_ID are required";
         EvExit 1])).
Proof.
  exact (deploy_without_credentials_exits (fun _ _ => ret tt) None
           (Some "guild") Sample.accepting Sample.fresh_world eq_refl).
Defined.

Lemma main_with_credentials : forall put clientId guildId env w,
  Deploy.unset (DISCORD_TOKEN env) = false ->
  Deploy.unset clientId = false ->
  exists client,
    clientId = Some client /\
    Deploy.main put clientId guildId env w =
      (body <- Deploy.collectCommands ;;
       log Info ("Registering " ++ show (Z.of_nat (length body)) ++ " command(s)") ;;
       try_catch
         (put (deploy_route client guildId) body ;;
          log Info (deploy_done guildId))
         (fun err => log Error "Error registering commands" ;; process_exit 1))%js
        env w.
Proof.
  intros put clientId guildId env w Ht Hc.
  unfold Deploy.main, get_env. unfold bind at 1.
  destruct (DISCORD_TOKEN env) as [[|c t]|]; try discriminate Ht.
  destruct clientId as [[|c' i]|]; try discriminate Hc.
  exists (String c' i). split; [reflexivity|].
  unfold deploy_route, deploy_done.
  destruct guildId as [[|c'' g]|]; reflexivity.
Qed.

(** X26. The collection of the deployment script has no handler around its
    imports. When the import of a script file throws, after the files
    before it were collected, the script ends with that error right after
    the import: the files after it are not imported, the REST client is not
    used whatever it would do, and the process is not told to exit. *)
Theorem deploy_failed_import_registers_nothing
    (put : Deploy.Route -> list JsVal -> M unit)
    (clientId guildId : option string) (env : Env) (w : World)
    (files pre rest : list string) (f : string)
    (ps : list JsVal) (w1 : World) (e : JsError)
    (Htoken : Deploy.unset (DISCORD_TOKEN env) = false)
    (Hclient : Deploy.unset clientId = false)
    (Hdir : readdir_of env (length (trace w)) = inr files)
    (Hsplit : filter Deploy.is_script_file files = pre ++ f :: rest)
    (Hpre : Deploy.collect_loop pre [] env
              (with_trace w (trace w ++ [EvReaddir "commands"]))
            = (Ok ps, w1))
    (Hfail : answer_of env (length (trace w1)) = Throws e) :
  Deploy.main put clientId guildId env w =
    (Throw e, with_trace w1 (trace w1 ++ [EvImport ("commands/" ++ f)])).
Proof.
  destruct (main_with_credentials put clientId guildId env w Htoken Hclient)
    as (client & _ & ->).
  apply bind_throw. unfold Deploy.collectCommands.
  assert (Hread : CommandLoader.readdir "commands" env w =
                  (Ok files, with_trace w (trace w ++ [EvReaddir "commands"]))).
  { unfold CommandLoader.readdir. now rewrite Hdir. }
  rewrite (bind_ok _ _ _ _ _ _ _ _ Hread), Hsplit.
  rewrite (collect_loop_app _ _ _ _ _ _ _ Hpre).
  cbn [Deploy.collect_loop]. apply bind_throw.
  now apply collect_file_import_throws.
Qed.

Lemma deploy_failed_import_registers_nothing_witness :
  Deploy.main (fun _ _ => ret tt) (Some "app") None
    (Scenario.deploying ["a.js"; "b.js"; "c.js"] 3 Scenario.redis_down)
    Sample.fresh_world =
    (Throw Scenario.redis_down,
     with_trace Sample.fresh_world
       [EvReaddir "commands"; EvImport "commands/a.js"; EvCallToJSON 7;
        EvImport "commands/b.js"]).
Proof.
  exact (deploy_failed_import_registers_nothing (fun _ _ => ret tt)
           (Some "app") None
           (Scenario.deploying ["a.js"; "b.js"; "c.js"] 3 Scenario.redis_down)
           Sample.fresh_world ["a.js"; "b.js"; "c.js"] ["a.js"] ["c.js"]
           "b.js" [Scenario.payload]
           (with_trace Sample.fresh_world
              [EvReaddir "commands"; EvImport "commands/a.js"; EvCallToJSON 7])
           Scenario.redis_down eq_refl eq_refl eq_refl eq_refl eq_refl eq_refl).
Defined.

(** X27. Once the commands are collected the script logs how many there are
    and puts them, all in one call, on the guild route if a guild id is set
    and on the global route otherwise. If that call throws, whatever the
    error, the script logs it and exits with code 1; if it returns, the
    script logs the registration and returns. *)
Theorem deploy_puts_on_selected_route
    (put : Deploy.Route -> list JsVal -> M unit)
    (client : string) (guildId : option string) (env : Env) (w : World)
    (body : list JsVal) (w1 : World)
    (Htoken : Deploy.unset (DISCORD_TOKEN env) = false)
    (Hclient : Deploy.unset (Some client) = false)
    (Hbody : Deploy.collectCommands env w = (Ok body, w1)) :
  let w2 :=
    with_trace w1
      (trace w1 ++
       [EvLog Info
          ("Registering " ++ show (Z.of_nat (length body)) ++ " command(s)")])
  in
  (forall e w3,
     put (deploy_route client guildId) body env w2 = (Throw e, w3) ->
     Deploy.main put (Some client) guildId env w =
       (Exited 1,
        with_trace w3
          (trace w3 ++ [EvLog Error "Error registering commands"; EvExit 1])))
  /\
  (forall w3,
     put (deploy_route client guildId) body env w2 = (Ok tt, w3) ->
     Deploy.main put (Some client) guildId env w =
       (Ok tt, with_trace w3 (trace w3 ++ [EvLog Info (deploy_done guildId)]))).
Proof.
  intros w2.
  destruct (main_with_credentials put (Some client) guildId env w Htoken Hclient)
    as (client' & Heq & Hmain).
  injection Heq as <-.
  rewrite Hmain, (bind_ok _ _ _ _ _ _ _ _ Hbody).
  unfold bind at 1. cbn [log]. fold w2.
  split.
  - intros e w3 Hput.
    rewrite (try_catch_throw _ _ _ _ _ _ _ (bind_throw _ _ _ _ _ _ _ _ Hput)).
    cbn. unfold process_exit. destruct w3; cbn. now rewrite <- app_assoc.
  - intros w3 Hput.
    apply try_catch_ok. now rewrite (bind_ok _ _ _ _ _ _ _ _ Hput).
Qed.

Lemma deploy_puts_on_selected_route_witness :
  Deploy.main (fun route _ =>
                 match route with
                 | Deploy.GuildCommands _ _ => throw Sample.boom
                 | Deploy.GlobalCommands _ => ret tt
                 end)
    (Some "app") (Some "guild") (Scenario.listing ["a.md"]) Sample.fresh_world =
    (Exited 1,
     with_trace Sample.fresh_world
       [EvReaddir "commands"; EvLog Info "Registering 0 command(s)";
        EvLog Error "Error registering commands"; EvExit 1]).
Proof.
  exact (proj1
           (deploy_puts_on_selected_route
              (fun route _ =>
                 match route with
                 | Deploy.GuildCommands _ _ => throw Sample.boom
                 | Deploy.GlobalCommands _ => ret tt
                 end)
              "app" (Some "guild") (Scenario.listing ["a.md"])
              Sample.fresh_world [] _ eq_refl eq_refl eq_refl)
           Sample.boom _ eq_refl).
Defined.

(** X28. When the collection of the deployment script returns, it has
    imported every script file of the listing exactly once and in the
    order of the listing, and the payloads it returns are exactly what the
    [toJSON] calls it made returned, in the order of the calls: at most one
    payload per script file. *)
Theorem deploy_collects_what_toJSON_returns
    (env : Env) (w : World) (files : list string)
    (body : list JsVal) (w' : World)
    (Hdir : readdir_of env (length (trace w)) = inr files)
    (Hrun : Deploy.collectCommands env w = (Ok body, w')) :
  filter is_import (added w w') =
    map (fun f => EvImport ("commands/" ++ f))
      (filter Deploy.is_script_file files) /\
  body = toJSON_answers env (length (trace w)) (added w w') /\
  length body <= length (filter Deploy.is_script_file files).
Proof.
  unfold Deploy.collectCommands in Hrun.
  assert (Hread : CommandLoader.readdir "commands" env w =
                  (Ok files, with_trace w (trace w ++ [EvReaddir "commands"]))).
  { unfold CommandLoader.readdir. now rewrite Hdir. }
  rewrite (bind_ok _ _ _ _ _ _ _ _ Hread) in Hrun.
  set (w0 := with_trace w (trace w ++ [EvReaddir "commands"])) in *.
  destruct (collect_loop_returns _ _ _ _ _ _ Hrun) as (t & Ht & Hi & Hb & Hl).
  assert (Ht0 : trace w0 = trace w ++ [EvReaddir "commands"])
    by (destruct w; reflexivity).
  assert (Hlen : length (trace w0) = S (length (trace w)))
    by (rewrite Ht0, length_app; cbn; lia).
  assert (Hadd : added w w' = EvReaddir "commands" :: t).
  { apply added_app. rewrite Ht, Ht0, <- app_assoc. reflexivity. }
  rewrite Hadd. cbn [filter is_import toJSON_answers].
  rewrite Hlen in Hb, Hl. cbn [app] in Hb.
  split; [exact Hi|]. split; [exact Hb|]. now rewrite Hb.
Qed.

Lemma deploy_collects_what_toJSON_returns_witness :
  Deploy.collectCommands
    (Scenario.deploying ["a.js"; "notes.md"; "b.cjs"] 99 Sample.boom)
    Sample.fresh_world =
  (Ok [Scenario.payload; Scenario.payload],
   with_trace Sample.fresh_world
     [EvReaddir "commands"; EvImport "commands/a.js"; EvCallToJSON 7;
      EvImport "commands/b.cjs"; EvCallToJSON 7]) /\
  [Scenario.payload; Scenario.payload] =
    toJSON_answers
      (Scenario.deploying ["a.js"; "notes.md"; "b.cjs"] 99 Sample.boom) 0
      [EvReaddir "commands"; EvImport "commands/a.js"; EvCallToJSON 7;
       EvImport "commands/b.cjs"; EvCallToJSON 7].
Proof.
  split; [reflexivity|].
  exact (proj1 (proj2
           (deploy_collects_what_toJSON_returns
              (Scenario.deploying ["a.js"; "notes.md"; "b.cjs"] 99 Sample.boom)
              Sample.fresh_world ["a.js"; "notes.md"; "b.cjs"]
              [Scenario.payload; Scenario.payload] _ eq_refl eq_refl))).
Defined.
